(** * Reusable fuzzy extractor from digital lockers (canetti/)

    A shallow embedding of [canetti/digitallocker.py] ([lock], [unlock]) and
    [canetti/canetti.py] ([set_l], [gen], [rep]), with the fragments of the
    Python run time they rely on: exceptions, tuple unpacking, indexing,
    [str], [int(_, 16)], [hex], [bytes.hex], [bytes.fromhex], UTF-8
    decoding, [secrets.token_bytes], [numpy.random.randint] and [hashlib].

    Conventions of the embedding.
    - A Python [str] is the [string] of its UTF-8 bytes, so [str.encode()]
      and [bytes.decode()] are well-formedness checks.
    - A [str] with a lone surrogate is written with the three-byte form
      of the surrogate: it is not well-formed UTF-8, and [str.encode()]
      raises UnicodeEncodeError on it.
    - Python [int] is [Z]; a Python [float] is an IEEE 754 double
      ([spec_float] of the Standard Library, precision 53), with the
      rounding, the infinities and the exceptions of the operations that
      [set_l] uses.  The C library behind [math.log], [math.log2] and the
      power of two floats is a parameter [Libm].  Real numbers name the
      number that a double stands for ([float_value]) and the value that
      the specification gives for [set_l] ([locker_bound]); the size
      count [get_size_of_helper_data_bits] takes the logarithm of the
      length of the reading as a real number.
    - A function that can raise returns a [result]; one that draws random
      values threads the state [Rng] of the two random sources.
    - The hash functions of [hashlib] are a parameter [digest].

    After these come [canetti/patterns.py] ([hamming_distance],
    [complementary_hamming_distance], [get_pattern], [switch]),
    [get_size_of_helper_data_bits] of [canetti/canetti.py], and the
    computations of the scripts [arduino/serial_monitor.py] (the record
    written for the bytes read) and [arduino/analysis.py] (the parsing of
    data.txt and the unstable bits), with [numpy.random.choice],
    [bin], [str.zfill], [bytes.strip], [str.strip] and [int] of one
    character. *)

From Stdlib Require Import ZArith NArith Reals Lra Lia List Bool Ascii String.
From Stdlib Require Import HexString Decimal DecimalString SpecFloat.
From Stdlib Require BinaryString.
Import ListNotations.

Open Scope string_scope.
Open Scope list_scope.
Open Scope Z_scope.

(** ** Exceptions and results *)

Inductive exn : Set :=
| ValueError
| TypeError
| NameError
| IndexError
| ZeroDivisionError
| OverflowError
| UnicodeEncodeError.

Inductive result (A : Type) : Type :=
| Ok (a : A)
| Raise (e : exn).

Arguments Ok {A} a.
Arguments Raise {A} e.

Definition bind {A B : Type} (m : result A) (f : A -> result B) : result B :=
  match m with
  | Ok a => f a
  | Raise e => Raise e
  end.

Declare Scope res_scope.
Delimit Scope res_scope with res.
Notation "x <- m ;; k" := (bind m (fun x => k))
  (at level 61, m at next level, right associativity) : res_scope.
Notation "' pat <- m ;; k" := (bind m (fun x => match x with pat => k end))
  (at level 61, pat pattern, m at next level, right associativity) : res_scope.

Fixpoint mapM {A B : Type} (f : A -> result B) (l : list A) : result (list B) :=
  match l with
  | [] => Ok []
  | a :: l' =>
      (b <- f a ;;
       bs <- mapM f l' ;;
       Ok (b :: bs))%res
  end.

(** ** Python values *)

#[local] Set Warnings "-register-all".

(** The values that reach [c], [alg] and the helper data.  A numpy array of
    integers is a [PList] of [PInt]. *)
Inductive pyval : Type :=
| PNone
| PInt (z : Z)
| PStr (s : string)
| PTuple (items : list pyval)
| PList (items : list pyval).

(** The keys given to the locker: a [str] (digitallocker's own use) or a
    list of integers (the sub-pattern [vi] of canetti). *)
Inductive pykey : Type :=
| KStr (s : string)
| KInts (l : list Z).

(** *** Characters and code points *)

Definition byte_val (c : ascii) : N := N_of_ascii c.

(** A UTF-8 continuation byte, 0x80..0xBF. *)
Definition is_cont (c : ascii) : bool :=
  (0x80 <=? byte_val c)%N && (byte_val c <=? 0xBF)%N.

Fixpoint drop_conts (s : string) : string :=
  match s with
  | String c r => if is_cont c then drop_conts r else s
  | EmptyString => EmptyString
  end.

Fixpoint take_conts (s : string) : string :=
  match s with
  | String c r => if is_cont c then String c (take_conts r) else EmptyString
  | EmptyString => EmptyString
  end.

(** [len(s)]: the number of code points. *)
Fixpoint cp_count (s : string) : nat :=
  match s with
  | String c r => if is_cont c then cp_count r else S (cp_count r)
  | EmptyString => O
  end.

(** [s[n:]] for [0 <= n], by code points. *)
Fixpoint cp_drop (n : nat) (s : string) : string :=
  match n with
  | O => s
  | S n' =>
      match s with
      | EmptyString => EmptyString
      | String _ r => cp_drop n' (drop_conts r)
      end
  end.

(** [s[i:]] for any integer [i]: a negative [i] counts from the end and is
    clipped at the start. *)
Definition py_slice_from (i : Z) (s : string) : string :=
  if i <? 0
  then cp_drop (cp_count s - Z.to_nat (- i)) s
  else cp_drop (Z.to_nat i) s.

(** The code points of [s], each with its bytes. *)
Fixpoint cp_split (fuel : nat) (s : string) : list string :=
  match fuel with
  | O => []
  | S fuel' =>
      match s with
      | EmptyString => []
      | String c r => String c (take_conts r) :: cp_split fuel' (drop_conts r)
      end
  end.

Definition chars (s : string) : list string := cp_split (String.length s) s.

(** [c * n] for a one-character string. *)
Definition py_repeat (c : ascii) (n : Z) : string :=
  string_of_list_ascii (repeat c (Z.to_nat n)).

(** [s.rstrip(c)] for a one-character argument. *)
Fixpoint rstrip (c : ascii) (s : string) : string :=
  match s with
  | EmptyString => EmptyString
  | String a r =>
      match rstrip c r with
      | EmptyString => if Ascii.eqb a c then EmptyString else String a EmptyString
      | r' => String a r'
      end
  end.

(** *** UTF-8 decoding *)

(** The states of a decoder of well-formed UTF-8 (Unicode, table 3-7):
    [U0] between characters, [U1]..[U3] that many continuation bytes
    due, and one state for each lead byte that narrows its second byte. *)
Inductive utf8_state : Set := U0 | U1 | U2 | U3 | UE0 | UED | UF0 | UF4.

Definition in_range (lo hi b : N) : bool := ((lo <=? b) && (b <=? hi))%N.

Definition utf8_step (st : utf8_state) (c : ascii) : option utf8_state :=
  let b := byte_val c in
  match st with
  | U0 =>
      if (b <? 0x80)%N then Some U0
      else if in_range 0xC2 0xDF b then Some U1
      else if (b =? 0xE0)%N then Some UE0
      else if (b =? 0xED)%N then Some UED
      else if in_range 0xE1 0xEF b then Some U2
      else if (b =? 0xF0)%N then Some UF0
      else if in_range 0xF1 0xF3 b then Some U3
      else if (b =? 0xF4)%N then Some UF4
      else None
  | U1 => if in_range 0x80 0xBF b then Some U0 else None
  | U2 => if in_range 0x80 0xBF b then Some U1 else None
  | U3 => if in_range 0x80 0xBF b then Some U2 else None
  | UE0 => if in_range 0xA0 0xBF b then Some U1 else None
  | UED => if in_range 0x80 0x9F b then Some U1 else None
  | UF0 => if in_range 0x90 0xBF b then Some U2 else None
  | UF4 => if in_range 0x80 0x8F b then Some U2 else None
  end.

Fixpoint utf8_run (st : utf8_state) (s : string) : option utf8_state :=
  match s with
  | EmptyString => Some st
  | String c r =>
      match utf8_step st c with
      | Some st' => utf8_run st' r
      | None => None
      end
  end.

Definition utf8_valid (s : string) : bool :=
  match utf8_run U0 s with
  | Some U0 => true
  | _ => false
  end.

(** [b.decode()]: [None] stands for UnicodeDecodeError. *)
Definition decode (b : string) : option string :=
  if utf8_valid b then Some b else None.

(** [s.encode()]: a [str] with a lone surrogate has no UTF-8 form. *)
Definition encode (s : string) : result string :=
  if utf8_valid s then Ok s else Raise UnicodeEncodeError.

(** *** Hexadecimal *)

Definition hex_digit (n : N) : ascii :=
  match n with
  | 0 => "0" | 1 => "1" | 2 => "2" | 3 => "3" | 4 => "4" | 5 => "5"
  | 6 => "6" | 7 => "7" | 8 => "8" | 9 => "9" | 10 => "a" | 11 => "b"
  | 12 => "c" | 13 => "d" | 14 => "e" | _ => "f"
  end%N%char.

(** [b.hex()]: two lower-case digits for each byte. *)
Fixpoint bytes_hex (b : string) : string :=
  match b with
  | EmptyString => EmptyString
  | String c r =>
      String (hex_digit (byte_val c / 16)) (String (hex_digit (byte_val c mod 16)) (bytes_hex r))
  end.

(** ASCII white space as [bytes.fromhex] skips it. *)
Definition is_space (c : ascii) : bool :=
  let b := byte_val c in
  in_range 0x09 0x0D b || (b =? 0x20)%N.

(** White space of a [str], below 128, as [int] strips it. *)
Definition is_ustr_space (c : ascii) : bool :=
  let b := byte_val c in
  in_range 0x09 0x0D b || in_range 0x1C 0x20 b.

Fixpoint all_space (s : string) : bool :=
  match s with
  | EmptyString => true
  | String c r => is_ustr_space c && all_space r
  end.

(** [bytes.fromhex(h)]: pairs of digits, white space allowed between pairs;
    [None] stands for ValueError. *)
Fixpoint bytes_fromhex (h : string) : option string :=
  match h with
  | EmptyString => Some EmptyString
  | String a r =>
      if is_space a then bytes_fromhex r
      else
        match r with
        | EmptyString => None
        | String b r' =>
            match ascii_to_digit a, ascii_to_digit b with
            | Some x, Some y =>
                option_map (String (ascii_of_N (16 * x + y))) (bytes_fromhex r')
            | _, _ => None
            end
        end
  end.

(** [hex(z)] *)
Definition hex (z : Z) : string := HexString.of_Z z.

Fixpoint lstrip_space (s : string) : string :=
  match s with
  | String c r => if is_ustr_space c then lstrip_space r else s
  | EmptyString => EmptyString
  end.

(** The digits of [int(s, 16)] after sign and prefix: digits with single
    underscores between them, then white space only.  [us] tells that
    the last character read was an underscore. *)
Fixpoint int_digits (s : string) (acc : N) (us : bool) : option N :=
  match s with
  | EmptyString => if us then None else Some acc
  | String c r =>
      if Ascii.eqb c "_" then (if us then None else int_digits r acc true)
      else
        match ascii_to_digit c with
        | Some d => int_digits r (d + 16 * acc)%N false
        | None => if negb us && is_ustr_space c && all_space r then Some acc else None
        end
  end.

Definition starts_with_digit (s : string) : bool :=
  match s with
  | String c _ => match ascii_to_digit c with Some _ => true | None => false end
  | EmptyString => false
  end.

(** The sign of a literal and what follows it. *)
Definition int_sign (s : string) : bool * string :=
  match s with
  | String "-" r => (true, r)
  | String "+" r => (false, r)
  | _ => (false, s)
  end.

(** A prefix [0x] or [0X] is dropped, with one underscore after it. *)
Definition int_prefix16 (s : string) : string :=
  match s with
  | String "0" (String x r) =>
      if Ascii.eqb x "x" || Ascii.eqb x "X"
      then match r with String "_" r' => r' | _ => r end
      else s
  | _ => s
  end.

(** [int(s, 16)] for a [str] of ASCII characters: white space around, a
    sign, a prefix, digits. *)
Definition int16_str (s : string) : result Z :=
  let '(neg, s2) := int_sign (lstrip_space s) in
  let s3 := int_prefix16 s2 in
  if starts_with_digit s3
  then match int_digits s3 0%N false with
       | Some n => Ok (if neg then - Z.of_N n else Z.of_N n)
       | None => Raise ValueError
       end
  else Raise ValueError.

(** [int(v, 16)]: only a [str] can be converted with an explicit base. *)
Definition py_int16 (v : pyval) : result Z :=
  match v with
  | PStr s => int16_str s
  | _ => Raise TypeError
  end.

(** *** [str] *)

Definition str_int (z : Z) : string := NilZero.string_of_int (Z.to_int z).

(** [str(key)]: a [str] is itself, a list of integers prints as
    ["[1, 0, 1]"]. *)
Definition py_str (key : pykey) : string :=
  match key with
  | KStr s => s
  | KInts l => "[" ++ String.concat ", " (map str_int l) ++ "]"
  end%string.

(** [str(b)] for [bytes]: the body is quoted with an apostrophe, or with a
    double quote when [b] has an apostrophe and no double quote. *)
Definition dquote : ascii := ascii_of_N 34.
Definition squote : ascii := "'".
Definition backslash : ascii := ascii_of_N 92.

Fixpoint contains (c : ascii) (s : string) : bool :=
  match s with
  | EmptyString => false
  | String a r => Ascii.eqb a c || contains c r
  end.

Definition repr_quote (b : string) : ascii :=
  if contains squote b && negb (contains dquote b) then dquote else squote.

Definition repr_byte (q c : ascii) : string :=
  let b := byte_val c in
  if Ascii.eqb c q || Ascii.eqb c backslash then String backslash (String c "")
  else if (b =? 9)%N then String backslash "t"
  else if (b =? 10)%N then String backslash "n"
  else if (b =? 13)%N then String backslash "r"
  else if (b <? 32)%N || (127 <=? b)%N
       then String backslash (String "x" (bytes_hex (String c "")))
  else String c "".

Fixpoint repr_body (q : ascii) (b : string) : string :=
  match b with
  | EmptyString => EmptyString
  | String c r => (repr_byte q c ++ repr_body q r)%string
  end.

Definition bytes_repr (b : string) : string :=
  let q := repr_quote b in
  String "b" (String q (repr_body q b ++ String q ""))%string.

(** *** Sequences *)

(** [a, b = v]: a sequence of two items; a sequence of another length
    raises ValueError, a value that is not iterable raises TypeError. *)
Definition unpack2 (v : pyval) : result (pyval * pyval) :=
  match v with
  | PTuple [a; b] | PList [a; b] => Ok (a, b)
  | PTuple _ | PList _ => Raise ValueError
  | PStr s =>
      match chars s with
      | [a; b] => Ok (PStr a, PStr b)
      | _ => Raise ValueError
      end
  | PNone | PInt _ => Raise TypeError
  end.

(** [l[i]] on a sequence of [n] items: a negative [i] counts from the end. *)
Definition py_index {A : Type} (l : list A) (i : Z) : result A :=
  let n := Z.of_nat (List.length l) in
  let j := if i <? 0 then i + n else i in
  if (j <? 0) || (n <=? j) then Raise IndexError
  else match nth_error l (Z.to_nat j) with
       | Some a => Ok a
       | None => Raise IndexError
       end.

(** [v[j]] *)
Definition py_getitem (v : pyval) (j : Z) : result pyval :=
  match v with
  | PTuple l | PList l => py_index l j
  | PStr s => (c <- py_index (chars s) j ;; Ok (PStr c))%res
  | PNone | PInt _ => Raise TypeError
  end.

(** [w[x]] for a list [w]: the index must be an integer. *)
Definition py_list_get (w : list Z) (x : pyval) : result Z :=
  match x with
  | PInt i => py_index w i
  | _ => Raise TypeError
  end.

(** [range(0, k)] *)
Definition range0 (k : Z) : list Z := map Z.of_nat (seq 0 (Z.to_nat k)).

(** [bool(ri)] for the result of [unlock]. *)
Definition truthy (ri : option string) : bool :=
  match ri with
  | Some (String _ _) => true
  | _ => false
  end.

(** ** Random sources *)

(** The state of the two sources of randomness: the bytes the operating
    system will hand to [secrets], and the raw draws of numpy's global
    generator. *)
Record Rng : Type := mkRng {
  os_urandom : nat -> ascii;
  np_random : nat -> N
}.

Definition M (A : Type) : Type := Rng -> result (A * Rng).

Definition ret {A : Type} (a : A) : M A := fun g => Ok (a, g).

Definition bindM {A B : Type} (m : M A) (f : A -> M B) : M B :=
  fun g =>
    match m g with
    | Ok (a, g') => f a g'
    | Raise e => Raise e
    end.

Definition lift {A : Type} (r : result A) : M A :=
  fun g =>
    match r with
    | Ok a => Ok (a, g)
    | Raise e => Raise e
    end.

Declare Scope rng_scope.
Delimit Scope rng_scope with rng.
Notation "x <- m ;; k" := (bindM m (fun x => k))
  (at level 61, m at next level, right associativity) : rng_scope.

(** [secrets.token_bytes(nbytes)] *)
Definition token_bytes (nbytes : Z) : M string :=
  fun g =>
    if nbytes <? 0 then Raise ValueError
    else
      let n := Z.to_nat nbytes in
      Ok (string_of_list_ascii (map (os_urandom g) (seq 0 n)),
          mkRng (fun i => os_urandom g (n + i)) (np_random g)).

(** [np.random.randint(low, high, size)]: [size] integers of
    [[low, high)]. *)
Definition randint (low high size : Z) : M (list Z) :=
  fun g =>
    if (high <=? low) || (size <? 0) then Raise ValueError
    else
      let n := Z.to_nat size in
      Ok (map (fun i => low + Z.of_N (np_random g i) mod (high - low)) (seq 0 n),
          mkRng (os_urandom g) (fun i => np_random g (n + i))).

(** ** hashlib *)

Definition algorithms_guaranteed : list string :=
  [ "blake2b"; "blake2s"; "md5"; "sha1"; "sha224"; "sha256"; "sha384";
    "sha3_224"; "sha3_256"; "sha3_384"; "sha3_512"; "sha512";
    "shake_128"; "shake_256" ].

Definition isinstance_str (v : pyval) : bool :=
  match v with
  | PStr _ => true
  | _ => false
  end.

(** [alg in hashlib.algorithms_guaranteed] *)
Definition guaranteed (v : pyval) : bool :=
  match v with
  | PStr a => existsb (String.eqb a) algorithms_guaranteed
  | _ => false
  end.

(** The name given to [hashlib.new]:
    ["sha256" if not isinstance(alg, str) or alg not in
    hashlib.algorithms_guaranteed else alg]. *)
Definition hash_alg (alg : pyval) : string :=
  if negb (isinstance_str alg) || negb (guaranteed alg) then "sha256"
  else match alg with
       | PStr a => a
       | _ => "sha256"
       end.

(** ** digitallocker.py *)

Section DigitalLocker.

(** [digest name msg]: the digest of [msg] under [hashlib.new(name)], as
    the integer [int(h.hexdigest(), 16)]. *)
Variable digest : string -> string -> N.

(** [h = hashlib.new(name); h.update(msg); int(h.hexdigest(), 16)].  The
    two extendable-output functions need a length: [hexdigest()] raises
    TypeError for them. *)
Definition nonce_key_hash (name msg : string) : result Z :=
  if String.eqb name "shake_128" || String.eqb name "shake_256"
  then Raise TypeError
  else Ok (Z.of_N (digest name msg)).

Definition lock (key : pykey) (val : string) (s : Z) (alg : pyval) (nbytes : Z)
  : M (string * string) :=
  (tok <- token_bytes nbytes ;;
   let nonce := bytes_hex tok in
   let name := hash_alg alg in
   msg <- lift (encode (nonce ++ py_str key)%string) ;;
   h <- lift (nonce_key_hash name msg) ;;
   let val_zero_str := (val ++ py_repeat "0" s)%string in
   b <- lift (encode val_zero_str) ;;
   v <- lift (py_int16 (PStr (bytes_hex b))) ;;
   let xor_val := Z.lxor h v in
   ret (nonce, py_slice_from 2 (hex xor_val)))%rng.

(** [nonce + str(key)]: only a [str] can be joined to a [str]. *)
Definition add_str (nonce : pyval) (k : string) : result string :=
  match nonce with
  | PStr n => Ok (n ++ k)%string
  | _ => Raise TypeError
  end.

Definition unlock (key : pykey) (c : pyval) (s : Z) (alg : pyval)
  : result (option string) :=
  match unpack2 c with
  | Raise ValueError => Ok None
  | Raise e => Raise e
  | Ok (nonce, xor_val) =>
      (let name := hash_alg alg in
       joined <- add_str nonce (py_str key) ;;
       msg <- encode joined ;;
       h <- nonce_key_hash name msg ;;
       x <- py_int16 xor_val ;;
       let val_zero_str := Z.lxor h x in
       match bytes_fromhex (py_slice_from 2 (hex val_zero_str)) with
       | None => Ok None
       | Some b =>
           match decode b with
           | None => Ok None
           | Some val =>
               Ok (if String.eqb (py_repeat "0" s) (py_slice_from (- s) val)
                   then Some (rstrip "0" val)
                   else None)
           end
       end)%res
  end.

End DigitalLocker.

(** The defaults of [lock] and [unlock]. *)
Definition default_s : Z := 16.
Definition default_alg : pyval := PStr "sha-256".
Definition default_nbytes : Z := 16.

(** ** canetti.py *)

(** *** Numbers *)

(** A Python [float]: an IEEE 754 double. *)
Definition float : Set := spec_float.

Definition prec : Z := 53.
Definition emax : Z := 1024.

Definition fmul (x y : float) : float := SFmul prec emax x y.

Definition fquot (x y : float) : float := SFdiv prec emax x y.

(** The double nearest to an integer, ties to even; an infinity when the
    integer is out of range. *)
Definition float_of_Z (z : Z) : float := binary_normalize prec emax z 0 false.

Definition is_nan (x : float) : bool :=
  match x with
  | S754_nan => true
  | _ => false
  end.

Definition is_inf (x : float) : bool :=
  match x with
  | S754_infinity _ => true
  | _ => false
  end.

Definition is_zero (x : float) : bool :=
  match x with
  | S754_zero _ => true
  | _ => false
  end.

(** [float(z)] for an [int], as the arithmetic of a [float] with an [int]
    converts it: OverflowError when [z] is too large for a double. *)
Definition float_of_int (z : Z) : result float :=
  let x := float_of_Z z in
  if is_inf x then Raise OverflowError else Ok x.

(** A number: an [int] or a [float]. *)
Inductive pynum : Set :=
| NInt (z : Z)
| NFloat (x : float).

Definition to_float (a : pynum) : result float :=
  match a with
  | NInt z => float_of_int z
  | NFloat x => Ok x
  end.

(** The order of a double and an integer as exact numbers; a nan is not
    ordered. *)
Definition float_cmp_Z (x : float) (z : Z) : option comparison :=
  match x with
  | S754_nan => None
  | S754_infinity s => Some (if s then Lt else Gt)
  | S754_zero _ => Some (0 ?= z)
  | S754_finite s m e =>
      let v := if s then Z.neg m else Z.pos m in
      Some (if 0 <=? e then v * 2 ^ e ?= z else v ?= z * 2 ^ (- e))
  end.

(** [a < b]: Python compares an [int] and a [float] exactly. *)
Definition num_lt (a b : pynum) : bool :=
  match a, b with
  | NInt x, NInt y => x <? y
  | NFloat x, NFloat y => SFltb x y
  | NFloat x, NInt y =>
      match float_cmp_Z x y with
      | Some Lt => true
      | _ => false
      end
  | NInt x, NFloat y =>
      match float_cmp_Z y x with
      | Some Gt => true
      | _ => false
      end
  end.

(** [math.ceil(x)] *)
Definition math_ceil (x : float) : result Z :=
  match x with
  | S754_nan => Raise ValueError
  | S754_infinity _ => Raise OverflowError
  | S754_zero _ => Ok 0
  | S754_finite s m e =>
      let v := if s then Z.neg m else Z.pos m in
      Ok (if 0 <=? e then v * 2 ^ e else - ((- v) / 2 ^ (- e)))
  end.

(** [int(x)]: towards zero. *)
Definition py_int (x : float) : result Z :=
  match x with
  | S754_nan => Raise ValueError
  | S754_infinity _ => Raise OverflowError
  | S754_zero _ => Ok 0
  | S754_finite s m e =>
      let v := if s then Z.neg m else Z.pos m in
      Ok (if 0 <=? e then v * 2 ^ e else Z.quot v (2 ^ (- e)))
  end.

(** [a / b] on floats *)
Definition float_div (a b : float) : result float :=
  if is_zero b then Raise ZeroDivisionError else Ok (fquot a b).

(** [t * k] for a number [t] and an [int] [k]: exact on two integers. *)
Definition num_mul_int (t : pynum) (k : Z) : result pynum :=
  match t with
  | NInt a => Ok (NInt (a * k))
  | NFloat x => (kf <- float_of_int k ;; Ok (NFloat (fmul x kf)))%res
  end.

(** [n * x] for an [int] [n] and a [float] [x] *)
Definition int_mul_float (n : Z) (x : float) : result float :=
  (nf <- float_of_int n ;; Ok (fmul nf x))%res.

(** [a / d] for a number [a] and a [float] [d] *)
Definition num_div_float (a : pynum) (d : float) : result float :=
  (x <- to_float a ;; float_div x d)%res.

(** [a * x] for a number [a] and a [float] [x] *)
Definition num_mul_float (a : pynum) (x : float) : result float :=
  (af <- to_float a ;; Ok (fmul af x))%res.

(** An integer as an exact operand of a division. *)
Definition Z_exact (z : Z) : float :=
  match z with
  | Z0 => S754_zero false
  | Zpos p => S754_finite false p 0
  | Zneg p => S754_finite true p 0
  end.

(** [z / y] for two [int]s: the double nearest to the quotient. *)
Definition int_true_div (z y : Z) : result float :=
  if y =? 0 then Raise ZeroDivisionError
  else
    let q := fquot (Z_exact z) (Z_exact y) in
    if is_inf q then Raise OverflowError else Ok q.

(** [z / d] for an [int] [z] and a number [d] *)
Definition int_div_num (z : Z) (d : pynum) : result float :=
  match d with
  | NInt y => int_true_div z y
  | NFloat y => (zf <- float_of_int z ;; float_div zf y)%res
  end.

(** *** The C library *)

(** What [math.log] returns for an integer [n >= 1], what the [log2] of
    the C library returns for a finite double above zero, and [x ** y] on
    two floats. *)
Record Libm : Type := mkLibm {
  log_of_int : Z -> float;
  log2_of_float : float -> float;
  pow_of_floats : float -> float -> result float
}.

(** [math.log(n)] for an [int] *)
Definition math_log (lm : Libm) (n : Z) : result float :=
  if n <=? 0 then Raise ValueError else Ok (log_of_int lm n).

(** [math.log2(x)] for a [float]: a nan and the positive infinity are
    returned as they are; zero, a negative argument, and a result of the
    C library that is not finite raise ValueError. *)
Definition math_log2_float (lm : Libm) (x : float) : result float :=
  match x with
  | S754_nan => Ok x
  | S754_infinity false => Ok x
  | S754_finite false _ _ =>
      let r := log2_of_float lm x in
      if is_nan r || is_inf r then Raise ValueError else Ok r
  | _ => Raise ValueError
  end.

(** [n ** c] for two [int]s: a [float] when [c] is negative. *)
Definition int_pow (lm : Libm) (n c : Z) : result pynum :=
  if c <? 0
  then (nf <- float_of_int n ;;
        cf <- float_of_int c ;;
        r <- pow_of_floats lm nf cf ;;
        Ok (NFloat r))%res
  else Ok (NInt (n ^ c)).

(** *** set_l *)

(** [n ** math.ceil((t * k) / (n * math.log(n)))], the left operand of the
    product. *)
Definition set_l_power (lm : Libm) (n k : Z) (t : pynum) : result pynum :=
  (tk <- num_mul_int t k ;;
   lg <- math_log lm n ;;
   d <- int_mul_float n lg ;;
   q <- num_div_float tk d ;;
   c <- math_ceil q ;;
   int_pow lm n c)%res.

Definition set_l (lm : Libm) (n k : Z) (t delta : pynum) : result Z :=
  if (n <? 2) || (k <? 1) || num_lt t (NInt 1) || num_lt delta (NInt 0)
     || num_lt (NInt 1) delta
  then Ok 0
  else
    (pw <- set_l_power lm n k t ;;
     r <- int_div_num 4 delta ;;
     lg2 <- math_log2_float lm r ;;
     x <- num_mul_float pw lg2 ;;
     py_int x)%res.

(** *** The value that the specification names *)

(** The ceiling of a real number, and its integer part towards zero. *)
Definition ceil (x : R) : Z := - Int_part (- x).


(** The real number that a finite double stands for. *)
Definition is_finite (x : float) : bool :=
  match x with
  | S754_zero _ | S754_finite _ _ _ => true
  | _ => false
  end.

Definition float_value (x : float) : R :=
  match x with
  | S754_finite s m e => (IZR (if s then Z.neg m else Z.pos m) * powerRZ 2 e)%R
  | _ => 0%R
  end.

(** The logarithm to base 2 of a real number. *)
Definition log2 (x : R) : R := (ln x / ln 2)%R.

(** [n ^ ceil((t * k) / (n * ln n)) * log2(4 / delta)] over the real
    numbers. *)
Definition locker_bound (n k : Z) (t delta : R) : R :=
  (IZR (n ^ ceil ((t * IZR k) / (IZR n * ln (IZR n)))) * log2 (4 / delta))%R.

(** *** gen and rep *)

(** [[w[ji[j]] for j in range(0, k)]] *)
Definition select (w : list Z) (ji : pyval) (k : Z) : result (list Z) :=
  mapM (fun j => (x <- py_getitem ji j ;; py_list_get w x)%res) (range0 k).

(** One entry of the helper data: the locker [(nonce, cipher)] and the
    positions [ji]. *)
Definition entry : Type := (string * string) * list Z.

Definition py_of_ints (l : list Z) : pyval := PList (map PInt l).

Definition py_of_locker (c : string * string) : pyval :=
  PTuple [PStr (fst c); PStr (snd c)].

Definition py_of_entry (e : entry) : pyval :=
  PTuple [py_of_locker (fst e); py_of_ints (snd e)].

Section Canetti.

Variable digest : string -> string -> N.
Variable lm : Libm.

(** The loop of [gen], [l] slots to go. *)
Fixpoint gen_loop (w : list Z) (n k : Z) (r : string) (l : nat) : M (list entry) :=
  match l with
  | O => ret []
  | S l' =>
      (ji <- randint 0 n k ;;
       vi <- lift (select w (py_of_ints ji) k) ;;
       ci <- lock digest (KInts vi) r default_s default_alg default_nbytes ;;
       p <- gen_loop w n k r l' ;;
       ret ((ci, ji) :: p))%rng
  end.

Definition gen (w : list Z) (k : Z) (t delta : pynum) : M (string * list entry) :=
  (let n := Z.of_nat (List.length w) in
   tok <- token_bytes (k / 8) ;;
   let r := bytes_repr tok in
   l <- lift (set_l lm n k t delta) ;;
   p <- gen_loop w n k r (Z.to_nat l) ;;
   ret (r, p))%rng.

(** [rep] reads the name [k], which is neither a parameter nor a local of
    the function: [module_k] is the value bound to it at module level,
    if any. *)
Fixpoint rep (module_k : option Z) (wprime : list Z) (p : list pyval)
  : result (option string) :=
  match p with
  | [] => Ok None
  | pi :: rest =>
      match unpack2 pi with
      | Raise ValueError => Ok None
      | Raise e => Raise e
      | Ok (ci, ji) =>
          match module_k with
          | None => Raise NameError
          | Some k =>
              (vi <- select wprime ji k ;;
               ri <- unlock digest (KInts vi) ci default_s default_alg ;;
               if truthy ri then Ok ri else rep module_k wprime rest)%res
          end
      end
  end.

(** One step of the traversal of [rep]: parse the entry, select the
    sub-pattern, try the locker. *)
Definition attempt (k : Z) (wprime : list Z) (e : pyval) : result (option string) :=
  ('(ci, ji) <- unpack2 e ;;
   vi <- select wprime ji k ;;
   unlock digest (KInts vi) ci default_s default_alg)%res.

End Canetti.

(** ** Predicates and instances used in the statements *)

(** [py_repeat] as an iteration over [nat], the form inductions use. *)
Fixpoint copies (c : ascii) (n : nat) : string :=
  match n with
  | O => EmptyString
  | S n' => String c (copies c n')
  end.

(** [ends_with c s]: the last character of [s] is [c]. *)
Fixpoint ends_with (c : ascii) (s : string) : bool :=
  match s with
  | EmptyString => false
  | String a EmptyString => Ascii.eqb a c
  | String _ r => ends_with c r
  end.

(** The first byte of [s], if any, starts a character. *)
Definition starts_char (s : string) : bool :=
  match s with
  | EmptyString => true
  | String c _ => negb (is_cont c)
  end.

(** Strings of bytes below 128. *)
Fixpoint all_ascii (s : string) : bool :=
  match s with
  | EmptyString => true
  | String c r => (byte_val c <? 0x80)%N && all_ascii r
  end.

Definition is_lower_hex (c : ascii) : bool :=
  in_range 48 57 (byte_val c) || in_range 97 102 (byte_val c).

Fixpoint all_lower_hex (s : string) : bool :=
  match s with
  | EmptyString => true
  | String c r => is_lower_hex c && all_lower_hex r
  end.

(** The first byte of the padded value is at least 0x10: the value is
    empty (the padding then starts it) or starts with such a byte. *)
Definition keeps_leading_digit (val : string) : bool :=
  match val with
  | EmptyString => true
  | String a _ => (16 <=? byte_val a)%N
  end.

(** [hexdigest()] takes no argument for the algorithm [name]. *)
Definition fixed_length (name : string) : bool :=
  negb (String.eqb name "shake_128" || String.eqb name "shake_256").

(** Positions as [gen] draws them: [k] of them, each in [[0, n)]. *)
Definition positions_ok (n k : Z) (ji : list Z) : Prop :=
  Z.of_nat (List.length ji) = k /\ Forall (fun i => 0 <= i < n) ji.

(** A key string that the locker gives back unchanged and that [rep]
    takes for a success. *)
Definition lockable (r : string) : Prop :=
  utf8_valid r = true /\ keeps_leading_digit r = true /\
  ends_with "0" r = false /\ truthy (Some r) = true.

(** A stand-in for a hash function: a polynomial checksum of the name and
    the message. *)
Fixpoint poly_sum (s : string) (acc : N) : N :=
  match s with
  | EmptyString => acc
  | String c r => poly_sum r ((acc * 257 + byte_val c) mod 18446744073709551616)%N
  end.

Definition poly_digest (name msg : string) : N := poly_sum msg (poly_sum name 0%N).

(** Random sources that count: the bytes [a], [b], [c], ... and the draws
    3, 10, 17, ... *)
Definition seed : Rng :=
  mkRng (fun i => ascii_of_nat (97 + i mod 26)) (fun i => N.of_nat (7 * i + 3)).

Definition pattern16 : list Z := [0; 1; 1; 0; 1; 0; 0; 1; 1; 1; 0; 0; 1; 0; 1; 0].

(** The double that the literal of the ratio [a / b] denotes: the one
    nearest to it. *)
Definition float_lit (a b : Z) : float := fquot (float_of_Z a) (float_of_Z b).

(** [1.0], [0.75], [0.0036], [-0.1], [1.5] and [0.0] *)
Definition float_1_0 : float := float_of_Z 1.
Definition float_0_75 : float := float_lit 3 4.
Definition float_0_0036 : float := float_lit 36 10000.
Definition float_m0_1 : float := float_lit (-1) 10.
Definition float_1_5 : float := float_lit 3 2.
Definition float_0_0 : float := S754_zero false.

(** [0.12500000000000003], the double after [0.125], and [1e-320] *)
Definition float_after_eighth : float := S754_finite false 4503599627370497 (-55).


(** The doubles nearest to [ln 2], [ln 16] and [log2 (16 / 3)]. *)
Definition ln_2_double : float := S754_finite false 6243314768165359 (-53).
Definition ln_16_double : float := S754_finite false 6243314768165359 (-51).
Definition log2_16_3_double : float := S754_finite false 5438180990918988 (-51).

(** The C library at the arguments of the examples, where it returns the
    double nearest to the logarithm: [log(2)], [log(16)], [log2(4.0)],
    [log2(4 / 0.75)] and [log2(4 / 0.12500000000000003)], which is [5.0].
    The examples call it nowhere else; a nan stands there. *)
Definition libm_table : Libm :=
  mkLibm
    (fun n => if n =? 2 then ln_2_double
              else if n =? 16 then ln_16_double
              else S754_nan)
    (fun x => if SFeqb x (float_of_Z 4) then float_of_Z 2
              else if SFeqb x (fquot (float_of_Z 4) float_0_75) then log2_16_3_double
              else if SFeqb x (fquot (float_of_Z 4) float_after_eighth) then float_of_Z 5
              else S754_nan)
    (fun _ _ => Ok S754_nan).

(** A C library that returns these doubles for [log(16)] and
    [log2(4.0)]. *)
Definition libm_example (lm : Libm) : Prop :=
  log_of_int lm 16 = ln_16_double /\ log2_of_float lm (float_of_Z 4) = float_of_Z 2.

(** The outcome the specification names: the first unlock that did not
    fail. *)
Fixpoint first_unlocked (os : list (option string)) : option string :=
  match os with
  | [] => None
  | Some v :: _ => Some v
  | None :: r => first_unlocked r
  end.

(** The outcome of the loop of [rep]: the first result that is true. *)
Fixpoint first_truthy (os : list (option string)) : option string :=
  match os with
  | [] => None
  | o :: r => if truthy o then o else first_truthy r
  end.

(** A sequence whose length is not two. *)
Definition wrong_arity (c : pyval) : Prop :=
  match c with
  | PTuple l | PList l => List.length l <> 2%nat
  | PStr s => List.length (chars s) <> 2%nat
  | PNone | PInt _ => False
  end.

(** The [str] of one lone surrogate, U+D800: its three bytes are not
    well-formed UTF-8. *)
Definition lone_surrogate : string :=
  String (ascii_of_N 237) (String (ascii_of_N 160) (String (ascii_of_N 128) "")).

(** The locker of the empty value under the key [[1]]. *)
Definition empty_locker : string * string :=
  Eval vm_compute in
    match lock poly_digest (KInts [1]) "" default_s default_alg default_nbytes seed with
    | Ok (c, _) => c
    | Raise _ => ("", "")
    end.

(** The locker of the key [b'a'] under the sub-pattern [[1]]. *)
Definition example_locker : string * string :=
  Eval vm_compute in
    match lock poly_digest (KInts [1]) "b'a'" default_s default_alg default_nbytes seed with
    | Ok (c, _) => c
    | Raise _ => ("", "")
    end.

(** ** patterns.py *)

(** [np.count_nonzero(np.array(a) != np.array(b))] for two lists of the
    same length. *)
Fixpoint count_diff (a b : list Z) : Z :=
  match a, b with
  | x :: a', y :: b' => (if x =? y then 0 else 1) + count_diff a' b'
  | _, _ => 0
  end.

Definition hamming_distance (a b : list Z) : Z :=
  if Nat.eqb (List.length a) (List.length b) then count_diff a b else -1.

Definition complementary_hamming_distance (a b : list Z) : Z :=
  let hd := hamming_distance a b in
  Z.min hd (Z.of_nat (List.length a) - hd).

(** [get_pattern(size, lower, upper)] *)
Definition get_pattern (size lower upper : Z) : M (list Z) :=
  randint lower (upper + 1) size.

(** [m] values without repetition out of [pool], each picked by the next
    raw draw among those still left. *)
Fixpoint draw_distinct (raw : nat -> N) (pos : nat) (pool : list Z) (m : nat) : list Z :=
  match m with
  | O => []
  | S m' =>
      match pool with
      | [] => []
      | x :: _ =>
          let i := N.to_nat (raw pos mod N.of_nat (List.length pool)) in
          nth i pool x :: draw_distinct raw (S pos) (firstn i pool ++ skipn (S i) pool) m'
      end
  end.

(** [np.random.choice(a, size, replace=False)] for an integer [a]: the
    first [size] items of a permutation of [range(a)]. *)
Definition choice (a size : Z) : M (list Z) :=
  fun g =>
    if (a <=? 0) && negb (size =? 0) then Raise ValueError
    else if a <? size then Raise ValueError
    else if size <? 0 then Raise ValueError
    else
      Ok (draw_distinct (np_random g) 0 (range0 a) (Z.to_nat size),
          mkRng (os_urandom g) (fun i => np_random g (Z.to_nat a + i))).

(** [l[i] = v] with [i] in range. *)
Fixpoint set_nth (l : list Z) (i : nat) (v : Z) : list Z :=
  match l, i with
  | [], _ => []
  | _ :: l', O => v :: l'
  | x :: l', S i' => x :: set_nth l' i' v
  end.

(** [res[i] = v] on an array: a negative [i] counts from the end. *)
Definition py_set_index (res : list Z) (i v : Z) : result (list Z) :=
  let n := Z.of_nat (List.length res) in
  let j := if i <? 0 then i + n else i in
  if (j <? 0) || (n <=? j) then Raise IndexError
  else Ok (set_nth res (Z.to_nat j) v).

(** [res[idx]] for an array of indices. *)
Definition take_indices (res idx : list Z) : result (list Z) :=
  mapM (py_index res) idx.

(** [res[idx] = vals] for an array of indices and as many values. *)
Fixpoint put_indices (res idx vals : list Z) : result (list Z) :=
  match idx, vals with
  | i :: idx', v :: vals' =>
      (res' <- py_set_index res i v ;; put_indices res' idx' vals')%res
  | _, _ => Ok res
  end.

(** [res[to_toggle] = 1 - res[to_toggle]] *)
Definition toggle (res to_toggle : list Z) : result (list Z) :=
  (vals <- take_indices res to_toggle ;;
   put_indices res to_toggle (map (fun v => 1 - v) vals))%res.

Definition switch (pattern : list Z) (bits : Z) : M (list Z) :=
  (let n := Z.of_nat (List.length pattern) in
   to_toggle <- choice n (Z.min n bits) ;;
   lift (toggle pattern to_toggle))%rng.

(** A reading: every item is 0 or 1. *)
Definition is_bits (w : list Z) : Prop := Forall (fun x => x = 0 \/ x = 1) w.

(** [1 - b] on an array. *)
Definition complement (b : list Z) : list Z := map (fun x => 1 - x) b.

(** ** canetti.py: the size of the helper data *)

(** [len(v)] *)
Definition py_len (v : pyval) : result Z :=
  match v with
  | PStr s => Ok (Z.of_nat (cp_count s))
  | PTuple l | PList l => Ok (Z.of_nat (List.length l))
  | PNone | PInt _ => Raise TypeError
  end.

(** [math.log2(n)] for an integer [n]: ValueError unless [n > 0]. *)
Definition math_log2 (n : Z) : result R :=
  if n <=? 0 then Raise ValueError else Ok (log2 (IZR n)).

Definition get_size_of_helper_data_bits (n : Z) (helper_data : list pyval) : result Z :=
  (e0 <- py_index helper_data 0 ;;
   '(c, j) <- unpack2 e0 ;;
   '(nonce, hash) <- unpack2 c ;;
   let count := Z.of_nat (List.length helper_data) in
   ln <- py_len nonce ;;
   lh <- py_len hash ;;
   lj <- py_len j ;;
   x <- math_log2 n ;;
   Ok (count * (ln * 4 + lh * 4 + lj * ceil x)))%res.

(** What [gen] establishes of every entry [e] of the helper data for the
    reading [w], the length [k] and the key [r]: positions in range, a
    nonce of 32 digits, a cipher that is a numeral, and a locker that
    opens under the sub-pattern of [w]. *)
Definition enrolled (digest : string -> string -> N) (w : list Z) (k : Z) (r : string)
           (e : entry) : Prop :=
  positions_ok (Z.of_nat (List.length w)) k (snd e) /\
  0 < Z.of_nat (List.length w) /\
  String.length (fst (fst e)) = 32%nat /\
  all_lower_hex (fst (fst e)) = true /\
  all_lower_hex (snd (fst e)) = true /\ snd (fst e) <> "" /\
  attempt digest k w (py_of_entry e) = Ok (Some r).

(** ** arduino/serial_monitor.py *)

(** [bin(z)] *)
Definition bin (z : Z) : string := BinaryString.of_Z z.

(** [s.zfill(width)]: zeros on the left up to [width] characters, after
    a leading sign. *)
Definition zfill (s : string) (width : Z) : string :=
  let pad := py_repeat "0" (width - Z.of_nat (cp_count s)) in
  match s with
  | String c r =>
      if Ascii.eqb c "+" || Ascii.eqb c "-" then String c (pad ++ r) else pad ++ s
  | EmptyString => pad
  end%string.

(** [b.lstrip()], [b.rstrip()] and [b.strip()] for [bytes]: ASCII white
    space is taken off. *)
Fixpoint bytes_lstrip (b : string) : string :=
  match b with
  | String c r => if is_space c then bytes_lstrip r else b
  | EmptyString => EmptyString
  end.

Fixpoint bytes_rstrip (b : string) : string :=
  match b with
  | EmptyString => EmptyString
  | String c r =>
      match bytes_rstrip r with
      | EmptyString => if is_space c then EmptyString else String c EmptyString
      | r' => String c r'
      end
  end.

Definition bytes_strip (b : string) : string := bytes_rstrip (bytes_lstrip b).

Definition newline : string := String (ascii_of_N 10) EmptyString.

(** [bin(byte)[2:].zfill(8)] *)
Definition byte_str (byte : ascii) : string :=
  zfill (py_slice_from 2 (bin (Z.of_N (byte_val byte)))) 8.

(** ["".join([bin(byte)[2:].zfill(8) for byte in line])] *)
Definition bin_repr (line : string) : string :=
  String.concat "" (map byte_str (list_ascii_of_string line)).

(** One round of the loop on the bytes [chunk] that [ser.read] returned:
    the text appended to data.txt, if any. *)
Definition monitor_round (chunk : string) : option string :=
  let line := bytes_strip chunk in
  if 0 <? Z.of_nat (String.length line) then Some (bin_repr line ++ newline)%string
  else None.

(** The records in data.txt after the rounds on [chunks]. *)
Definition monitor_records (chunks : list string) : list string :=
  flat_map (fun chunk => match monitor_round chunk with
                         | Some record => [record]
                         | None => []
                         end) chunks.

(** ** Reading data.txt (canetti.py and arduino/analysis.py) *)

Section ParseLine.

(** The two facts of the Unicode database that [str.strip] and [int] use
    above 127: which characters are white space, and the value of a
    decimal digit. *)
Variable unicode_space : string -> bool.
Variable unicode_decimal : string -> option Z.

(** [y.isspace()] for one character. *)
Definition cp_isspace (y : string) : bool :=
  match y with
  | String c EmptyString =>
      if (byte_val c <? 128)%N then is_ustr_space c else unicode_space y
  | _ => unicode_space y
  end.

Fixpoint lstrip_chars (l : list string) : list string :=
  match l with
  | y :: r => if cp_isspace y then lstrip_chars r else l
  | [] => []
  end.

(** The characters of [x.strip()]. *)
Definition strip_chars (x : string) : list string :=
  List.rev (lstrip_chars (List.rev (lstrip_chars (chars x)))).

(** [int(y)] for one character. *)
Definition int_char (y : string) : result Z :=
  match y with
  | String c EmptyString =>
      if (byte_val c <? 128)%N
      then if in_range 48 57 (byte_val c) then Ok (Z.of_N (byte_val c) - 48)
           else Raise ValueError
      else match unicode_decimal y with Some d => Ok d | None => Raise ValueError end
  | _ => match unicode_decimal y with Some d => Ok d | None => Raise ValueError end
  end.

(** [[int(x) for x in line.strip()]] *)
Definition parse_line (line : string) : result (list Z) :=
  mapM int_char (strip_chars line).

(** [[[int(x) for x in line.strip()] for line in f.readlines()]], on
    the lines that [readlines] returned. *)
Definition parse_lines (lines : list string) : result (list (list Z)) :=
  mapM parse_line lines.

End ParseLine.

(** ** arduino/analysis.py *)

(** The length of the shortest line; [lines[0]] raises IndexError on an
    empty file. *)
Definition min_len (lines : list (list Z)) : result Z :=
  (l0 <- py_index lines 0 ;;
   Ok (fold_left (fun m line => Z.min m (Z.of_nat (List.length line)))
                 (tl lines) (Z.of_nat (List.length l0))))%res.

(** [line[0:m]] for [0 <= m]. *)
Definition py_slice_to (m : Z) (line : list Z) : list Z := firstn (Z.to_nat m) line.

(** [summ += a] on arrays: item by item for equal lengths, an array of
    one item is added to every item, any other shape raises. *)
Fixpoint add_items (summ a : list Z) : list Z :=
  match summ, a with
  | x :: summ', y :: a' => (x + y) :: add_items summ' a'
  | _, _ => []
  end.

Definition array_iadd (summ a : list Z) : result (list Z) :=
  if Nat.eqb (List.length a) (List.length summ) then Ok (add_items summ a)
  else match a with
       | [y] => Ok (map (fun x => x + y) summ)
       | _ => Raise ValueError
       end.

Fixpoint sum_lines (summ : list Z) (lines : list (list Z)) : result (list Z) :=
  match lines with
  | [] => Ok summ
  | line :: rest => (s <- array_iadd summ line ;; sum_lines s rest)%res
  end.

(** [[0 if x == len(lines) or x == 0 else 1 for x in summ]] *)
Definition changes (count : Z) (summ : list Z) : list Z :=
  map (fun x => if (x =? count) || (x =? 0) then 0 else 1) summ.

(** The positions [i] of [changes], from [i] on, with
    [bit != 0 and bit != len(lines)]. *)
Fixpoint unstable_from (i count : Z) (changes : list Z) : list Z :=
  match changes with
  | [] => []
  | bit :: rest =>
      if negb (bit =? 0) && negb (bit =? count)
      then i :: unstable_from (i + 1) count rest
      else unstable_from (i + 1) count rest
  end.

(** The list [unstable_bits] that the script computes from the parsed
    lines. *)
Definition unstable_bits (lines : list (list Z)) : result (list Z) :=
  (m <- min_len lines ;;
   let lines := map (py_slice_to m) lines in
   l0 <- py_index lines 0 ;;
   summ <- sum_lines (repeat 0 (List.length l0)) lines ;;
   let count := Z.of_nat (List.length lines) in
   Ok (unstable_from 0 count (changes count summ)))%res.

(** ** Predicates used in the further statements *)

(** The bits of a byte, the most significant first. *)
Definition byte_bits (b : N) : list Z :=
  map (fun i => Z.b2z (N.testbit b i)) [7; 6; 5; 4; 3; 2; 1; 0]%N.

Definition is_bin_digit (c : ascii) : bool := Ascii.eqb c "0" || Ascii.eqb c "1".

Fixpoint all_bin_digits (s : string) : bool :=
  match s with
  | EmptyString => true
  | String c r => is_bin_digit c && all_bin_digits r
  end.

Fixpoint all_bytes_space (b : string) : bool :=
  match b with
  | EmptyString => true
  | String c r => is_space c && all_bytes_space r
  end.

(** The last byte of [b], if any. *)
Fixpoint last_byte (b : string) : option ascii :=
  match b with
  | EmptyString => None
  | String c EmptyString => Some c
  | String _ r => last_byte r
  end.

(** The items at position [i] of the lines, and the sum of a list. *)
Definition column (i : nat) (lines : list (list Z)) : list Z :=
  map (fun line => nth i line 0) lines.

Definition zsum (l : list Z) : Z := fold_right Z.add 0 l.

(** * Properties *)

(** ** Strings *)

Lemma append_nil_r (s : string) : (s ++ "")%string = s.
Proof. induction s as [|a s IH]; simpl; [reflexivity | now rewrite IH]. Qed.

Lemma append_assoc (a b c : string) :
  ((a ++ b) ++ c = a ++ (b ++ c))%string.
Proof. induction a as [|x a IH]; simpl; [reflexivity | now rewrite IH]. Qed.

Lemma length_append (a b : string) :
  String.length (a ++ b) = (String.length a + String.length b)%nat.
Proof. induction a as [|x a IH]; simpl; [reflexivity | now rewrite IH]. Qed.

Lemma py_repeat_succ (c : ascii) (n : Z) :
  0 <= n -> py_repeat c (n + 1) = String c (py_repeat c n).
Proof.
  intros Hn. unfold py_repeat.
  replace (Z.to_nat (n + 1)) with (S (Z.to_nat n)) by lia. reflexivity.
Qed.

Lemma py_repeat_copies (c : ascii) (n : Z) :
  py_repeat c n = copies c (Z.to_nat n).
Proof.
  unfold py_repeat. induction (Z.to_nat n) as [|m IH]; simpl; [reflexivity | now rewrite IH].
Qed.

Lemma rstrip_copies (c : ascii) (n : nat) : rstrip c (copies c n) = "".
Proof.
  induction n as [|n IH]; simpl; [reflexivity |].
  rewrite IH, Ascii.eqb_refl. reflexivity.
Qed.

Lemma rstrip_append_copies (c : ascii) (v : string) (n : nat) :
  rstrip c (v ++ copies c n) = rstrip c v.
Proof.
  induction v as [|a v IH]; simpl.
  - apply rstrip_copies.
  - now rewrite IH.
Qed.

Lemma rstrip_no_trailing (c : ascii) (s : string) :
  ends_with c s = false -> rstrip c s = s.
Proof.
  induction s as [|a s IH]; [reflexivity |].
  destruct s as [|b s'].
  - simpl. intros ->. reflexivity.
  - intros H. change (ends_with c (String a (String b s'))) with (ends_with c (String b s')) in H.
    specialize (IH H).
    change (rstrip c (String a (String b s')))
      with (match rstrip c (String b s') with
            | EmptyString => if Ascii.eqb a c then EmptyString else String a EmptyString
            | r' => String a r'
            end).
    rewrite IH. reflexivity.
Qed.

Lemma rstrip_ends_with (c : ascii) (s : string) :
  ends_with c s = true -> rstrip c s <> s.
Proof.
  induction s as [|a s IH]; [discriminate |].
  destruct s as [|b s'].
  - simpl. intros ->. discriminate.
  - intros H. change (ends_with c (String a (String b s'))) with (ends_with c (String b s')) in H.
    specialize (IH H).
    change (rstrip c (String a (String b s')))
      with (match rstrip c (String b s') with
            | EmptyString => if Ascii.eqb a c then EmptyString else String a EmptyString
            | r' => String a r'
            end).
    destruct (rstrip c (String b s')) as [|x r] eqn:E.
    + destruct (Ascii.eqb a c); discriminate.
    + intros E'. apply IH. now injection E' as -> ->.
Qed.

(** ** Code points *)

Lemma cp_count_append (a b : string) :
  cp_count (a ++ b) = (cp_count a + cp_count b)%nat.
Proof.
  induction a as [|x a IH]; simpl; [reflexivity |].
  destruct (is_cont x); simpl; now rewrite IH.
Qed.

Lemma cp_count_copies_zero (n : nat) : cp_count (copies "0" n) = n.
Proof. induction n as [|n IH]; simpl; [reflexivity | now rewrite IH]. Qed.

Lemma drop_conts_starts_char (s : string) :
  starts_char s = true -> drop_conts s = s.
Proof.
  destruct s as [|c r]; simpl; [reflexivity |].
  destruct (is_cont c); [discriminate | reflexivity].
Qed.

Lemma cp_drop_count_conts (a b : string) :
  starts_char b = true ->
  cp_drop (cp_count a) (drop_conts (a ++ b)) = b.
Proof.
  intros Hb. induction a as [|x a IH]; simpl.
  - now apply drop_conts_starts_char.
  - destruct (is_cont x); simpl; exact IH.
Qed.

Lemma cp_drop_count (a b : string) :
  starts_char a = true -> starts_char b = true ->
  cp_drop (cp_count a) (a ++ b) = b.
Proof.
  intros Ha Hb. rewrite <- (cp_drop_count_conts a b Hb) at 2.
  f_equal. symmetry. apply drop_conts_starts_char.
  destruct a as [|x a]; [exact Hb | exact Ha].
Qed.

Lemma cp_count_drop_conts (s : string) : cp_count (drop_conts s) = cp_count s.
Proof.
  induction s as [|c r IH]; [reflexivity |].
  simpl. destruct (is_cont c) eqn:E; [exact IH |].
  simpl. now rewrite E.
Qed.

Lemma length_drop_conts (s : string) :
  (String.length (drop_conts s) <= String.length s)%nat.
Proof.
  induction s as [|c r IH]; simpl; [lia |].
  destruct (is_cont c); simpl; lia.
Qed.

Lemma starts_char_drop_conts (s : string) : starts_char (drop_conts s) = true.
Proof.
  induction s as [|c r IH]; [reflexivity |].
  simpl. destruct (is_cont c) eqn:E; [exact IH |].
  simpl. now rewrite E.
Qed.

(** The fuel of [chars] is enough: it yields as many characters as [len]
    counts. *)
Lemma chars_length (s : string) :
  starts_char s = true -> List.length (chars s) = cp_count s.
Proof.
  unfold chars. generalize (Nat.le_refl (String.length s)).
  generalize (String.length s) at 2 3. intros fuel. revert s.
  induction fuel as [|fuel IH]; intros s Hlen Hs.
  - destruct s; [reflexivity | simpl in Hlen; lia].
  - destruct s as [|c r]; [reflexivity |].
    simpl in Hs. apply negb_true_iff in Hs.
    cbn [cp_split List.length cp_count]. rewrite Hs. f_equal.
    rewrite IH.
    + apply cp_count_drop_conts.
    + pose proof (length_drop_conts r). simpl in Hlen. lia.
    + apply starts_char_drop_conts.
Qed.

Lemma starts_char_copies_zero (n : nat) : starts_char (copies "0" n) = true.
Proof. destruct n; reflexivity. Qed.

(** [(v + "0" * s)[-s:] == "0" * s] for [1 <= s]. *)
Lemma slice_zero_suffix (v : string) (s : Z) :
  1 <= s -> starts_char v = true ->
  py_slice_from (- s) (v ++ py_repeat "0" s) = py_repeat "0" s.
Proof.
  intros Hs Hv. unfold py_slice_from.
  replace (- s <? 0) with true by (symmetry; apply Z.ltb_lt; lia).
  rewrite py_repeat_copies, cp_count_append, cp_count_copies_zero.
  replace (- - s) with s by lia.
  replace (cp_count v + Z.to_nat s - Z.to_nat s)%nat with (cp_count v) by lia.
  apply cp_drop_count; [exact Hv | apply starts_char_copies_zero].
Qed.

(** ** UTF-8 *)

Lemma utf8_run_append (a b : string) (st : utf8_state) :
  utf8_run st (a ++ b) =
  match utf8_run st a with
  | Some st' => utf8_run st' b
  | None => None
  end.
Proof.
  revert st. induction a as [|x a IH]; intros st; simpl; [reflexivity |].
  destruct (utf8_step st x); [apply IH | reflexivity].
Qed.

Lemma utf8_valid_append (a b : string) :
  utf8_valid a = true -> utf8_valid b = true -> utf8_valid (a ++ b) = true.
Proof.
  unfold utf8_valid. rewrite utf8_run_append.
  destruct (utf8_run U0 a) as [[]|]; try discriminate. intros _ H. exact H.
Qed.

Lemma all_ascii_append (a b : string) :
  all_ascii (a ++ b) = all_ascii a && all_ascii b.
Proof.
  induction a as [|x a IH]; simpl; [reflexivity |].
  rewrite IH. now rewrite andb_assoc.
Qed.

Lemma all_ascii_valid (s : string) : all_ascii s = true -> utf8_valid s = true.
Proof.
  unfold utf8_valid. induction s as [|c r IH]; simpl; [reflexivity |].
  intros H. apply andb_prop in H as [Hc Hr].
  unfold utf8_step. rewrite Hc. apply IH, Hr.
Qed.

Lemma all_ascii_copies_zero (n : nat) : all_ascii (copies "0" n) = true.
Proof. induction n as [|n IH]; simpl; [reflexivity | exact IH]. Qed.

Lemma all_ascii_run (s : string) : all_ascii s = true -> utf8_run U0 s = Some U0.
Proof.
  induction s as [|c r IH]; simpl; [reflexivity |].
  intros H. apply andb_prop in H as [Hc Hr].
  unfold utf8_step. rewrite Hc. apply IH, Hr.
Qed.

(** A prefix of ASCII characters and a padding of ["0"] characters leave
    the well-formedness of a string as it is. *)
Lemma utf8_valid_ascii_prefix (a b : string) :
  all_ascii a = true -> utf8_valid (a ++ b) = utf8_valid b.
Proof.
  intros H. unfold utf8_valid. now rewrite utf8_run_append, all_ascii_run.
Qed.

Lemma utf8_run_zeros (st : utf8_state) (n : nat) :
  utf8_run st (copies "0" (S n)) = match st with U0 => Some U0 | _ => None end.
Proof.
  destruct st; try reflexivity.
  change (utf8_run U0 (copies "0" (S n))) with (utf8_run U0 (copies "0" n)).
  apply all_ascii_run, all_ascii_copies_zero.
Qed.

Lemma utf8_valid_zero_suffix (v : string) (n : nat) :
  utf8_valid (v ++ copies "0" n) = utf8_valid v.
Proof.
  destruct n as [|n]; [now rewrite append_nil_r |].
  unfold utf8_valid. rewrite utf8_run_append.
  destruct (utf8_run U0 v) as [st|]; [| reflexivity].
  rewrite utf8_run_zeros. destruct st; reflexivity.
Qed.

Lemma utf8_valid_starts_char (s : string) :
  utf8_valid s = true -> starts_char s = true.
Proof.
  destruct s as [|c r]; [reflexivity |].
  unfold utf8_valid, starts_char, is_cont. simpl. unfold utf8_step, in_range.
  destruct (byte_val c <? 128)%N eqn:E1.
  - intros _. apply N.ltb_lt in E1.
    replace (128 <=? byte_val c)%N with false by (symmetry; apply N.leb_gt; lia).
    reflexivity.
  - destruct (194 <=? byte_val c)%N eqn:E2.
    + intros _. apply N.leb_le in E2.
      replace (byte_val c <=? 191)%N with false by (symmetry; apply N.leb_gt; lia).
      now rewrite andb_false_r.
    + apply N.leb_gt in E2. simpl.
      repeat match goal with
      | |- context [(byte_val c =? ?k)%N] =>
          replace (byte_val c =? k)%N with false by (symmetry; apply N.eqb_neq; lia)
      | |- context [(?k <=? byte_val c)%N] =>
          replace (k <=? byte_val c)%N with false by (symmetry; apply N.leb_gt; lia)
      end.
      simpl. discriminate.
Qed.

(** ** Hexadecimal numerals *)

Ltac ascii_cases c := destruct c as [[] [] [] [] [] [] [] []].

Lemma lower_hex_cases (c : ascii) :
  is_lower_hex c = true -> In c (list_ascii_of_string "0123456789abcdef").
Proof.
  intros H. ascii_cases c; vm_compute in H; try discriminate H; simpl; tauto.
Qed.

Ltac lower_hex_cases H :=
  apply lower_hex_cases in H; simpl in H;
  repeat (destruct H as [<- | H]); [.. | contradiction].

Lemma lower_hex_all_ascii (s : string) : all_lower_hex s = true -> all_ascii s = true.
Proof.
  induction s as [|c r IH]; simpl; [reflexivity |].
  intros H. apply andb_prop in H as [Hc Hr]. rewrite (IH Hr), andb_true_r.
  lower_hex_cases Hc; reflexivity.
Qed.

Lemma lower_hex_digit (c : ascii) :
  is_lower_hex c = true ->
  Ascii.eqb c "_" = false /\ is_ustr_space c = false /\
  exists d, ascii_to_digit c = Some d.
Proof.
  intros H. lower_hex_cases H; (split; [reflexivity | split; [reflexivity | eexists; reflexivity]]).
Qed.

Lemma lower_hex_starts_char (s : string) :
  all_lower_hex s = true -> starts_char s = true.
Proof.
  destruct s as [|c r]; simpl; [reflexivity |].
  intros H. apply andb_prop in H as [Hc _]. lower_hex_cases Hc; reflexivity.
Qed.

Lemma int_digits_lower_hex (h : string) (acc : N) :
  all_lower_hex h = true -> int_digits h acc false = Some (Raw.to_N h acc).
Proof.
  revert acc. induction h as [|c r IH]; intros acc H; [reflexivity |].
  simpl in H. apply andb_prop in H as [Hc Hr].
  destruct (lower_hex_digit c Hc) as (Hus & _ & d & Hd).
  cbn [int_digits Raw.to_N]. rewrite Hus, Hd. apply IH, Hr.
Qed.

Lemma lstrip_space_lower_hex (h : string) :
  all_lower_hex h = true -> lstrip_space h = h.
Proof.
  destruct h as [|c r]; [reflexivity |]. simpl.
  intros H. apply andb_prop in H as [Hc _].
  destruct (lower_hex_digit c Hc) as (_ & -> & _). reflexivity.
Qed.

Lemma int_sign_lower_hex (h : string) :
  all_lower_hex h = true -> int_sign h = (false, h).
Proof.
  destruct h as [|c r]; [reflexivity |]. simpl.
  intros H. apply andb_prop in H as [Hc _]. lower_hex_cases Hc; reflexivity.
Qed.

Lemma int_prefix16_lower_hex (h : string) :
  all_lower_hex h = true -> int_prefix16 h = h.
Proof.
  destruct h as [|c [|x r]]; try reflexivity.
  - intros H. simpl in H. apply andb_prop in H as [Hc _]. lower_hex_cases Hc; reflexivity.
  - intros H. simpl in H. apply andb_prop in H as [Hc H]. apply andb_prop in H as [Hx _].
    lower_hex_cases Hc; try reflexivity.
    lower_hex_cases Hx; reflexivity.
Qed.

Lemma starts_with_digit_lower_hex (h : string) :
  all_lower_hex h = true -> h <> "" -> starts_with_digit h = true.
Proof.
  destruct h as [|c r]; [congruence |]. simpl.
  intros H _. apply andb_prop in H as [Hc _].
  destruct (lower_hex_digit c Hc) as (_ & _ & d & ->). reflexivity.
Qed.

(** [int(h, 16)] on a non-empty numeral of lower-case digits. *)
Lemma int16_str_lower_hex (h : string) :
  all_lower_hex h = true -> h <> "" ->
  int16_str h = Ok (Z.of_N (Raw.to_N h 0)).
Proof.
  intros H Hne. unfold int16_str.
  rewrite (lstrip_space_lower_hex h H), (int_sign_lower_hex h H),
    (int_prefix16_lower_hex h H), (starts_with_digit_lower_hex h H Hne),
    (int_digits_lower_hex h 0 H).
  reflexivity.
Qed.

Lemma of_pos_lower_hex :
  forall (p : positive) (rest : string),
    all_lower_hex rest = true -> all_lower_hex (Raw.of_pos p rest) = true.
Proof.
  fix IH 1. intros p rest H.
  do 4 try destruct p as [p|p|]; try exact H; cbn [Raw.of_pos]; apply IH; exact H.
Qed.

Lemma of_pos_length :
  forall (p : positive) (rest : string),
    (String.length rest < String.length (Raw.of_pos p rest))%nat.
Proof.
  fix IH 1. intros p rest.
  do 4 try destruct p as [p|p|]; try (simpl; lia);
    cbn [Raw.of_pos];
    match goal with
    | |- (_ < String.length (Raw.of_pos ?q (String ?c rest)))%nat =>
        specialize (IH q (String c rest)); simpl in IH; lia
    end.
Qed.

Lemma of_pos_nonempty (p : positive) : Raw.of_pos p "" <> "".
Proof.
  intros E. pose proof (of_pos_length p "") as H. rewrite E in H. simpl in H. lia.
Qed.

(** [hex(z)[2:]] for a positive [z] is the numeral without its prefix. *)
Lemma hex_body_pos (p : positive) :
  py_slice_from 2 (hex (Z.pos p)) = Raw.of_pos p "".
Proof.
  unfold py_slice_from, hex. simpl.
  apply drop_conts_starts_char, lower_hex_starts_char, of_pos_lower_hex. reflexivity.
Qed.

(** [int(hex(z)[2:], 16) == z] for [0 <= z]. *)
Lemma int16_hex_body (z : Z) :
  0 <= z -> int16_str (py_slice_from 2 (hex z)) = Ok z.
Proof.
  intros Hz. destruct z as [|p|p]; [reflexivity | | lia].
  rewrite hex_body_pos, int16_str_lower_hex.
  - rewrite Raw.to_N_of_pos. reflexivity.
  - apply of_pos_lower_hex. reflexivity.
  - apply of_pos_nonempty.
Qed.

Lemma bytes_hex_lower_hex (b : string) : all_lower_hex (bytes_hex b) = true.
Proof.
  induction b as [|c r IH]; [reflexivity |].
  cbn [bytes_hex all_lower_hex]. rewrite IH, !andb_true_r.
  ascii_cases c; reflexivity.
Qed.

Lemma bytes_hex_nonempty (b : string) : b <> "" -> bytes_hex b <> "".
Proof. destruct b; [congruence | discriminate]. Qed.

Lemma bytes_fromhex_byte (a : ascii) (rest : string) :
  bytes_fromhex (bytes_hex (String a "") ++ rest) =
  option_map (String a) (bytes_fromhex rest).
Proof. ascii_cases a; reflexivity. Qed.

(** [bytes.fromhex(b.hex()) == b] *)
Lemma bytes_fromhex_hex (b : string) : bytes_fromhex (bytes_hex b) = Some b.
Proof.
  induction b as [|a r IH]; [reflexivity |].
  change (bytes_hex (String a r)) with (bytes_hex (String a "") ++ bytes_hex r)%string.
  rewrite bytes_fromhex_byte, IH. reflexivity.
Qed.

Lemma ascii_to_digit_hex_digit (d : N) :
  (d < 16)%N -> ascii_to_digit (hex_digit d) = Some d.
Proof.
  intros H. destruct d as [|p]; [reflexivity |].
  do 4 (try destruct p as [p|p|]); try reflexivity; lia.
Qed.

Lemma byte_val_bounded (a : ascii) : (byte_val a < 256)%N.
Proof. apply N_ascii_bounded. Qed.

Lemma to_N_hex_byte (a : ascii) (rest : string) (acc : N) :
  Raw.to_N (bytes_hex (String a "") ++ rest) acc =
  Raw.to_N rest (byte_val a + 256 * acc)%N.
Proof.
  pose proof (byte_val_bounded a) as Hb.
  cbn [bytes_hex append Raw.to_N].
  rewrite !ascii_to_digit_hex_digit.
  - f_equal. pose proof (N.div_mod (byte_val a) 16 ltac:(lia)) as E.
    revert E. generalize (byte_val a / 16)%N (byte_val a mod 16)%N. intros q r E. lia.
  - apply N.Div0.div_lt_upper_bound. lia.
  - apply N.mod_lt. lia.
Qed.

Lemma of_pos_byte (q : positive) (a : ascii) (rest : string) :
  exists q', (byte_val a + 256 * N.pos q)%N = N.pos q' /\
             Raw.of_pos q' rest = Raw.of_pos q (bytes_hex (String a "") ++ rest).
Proof. ascii_cases a; eexists; split; reflexivity. Qed.

Lemma of_pos_first_byte (a : ascii) (rest : string) :
  (16 <=? byte_val a)%N = true ->
  exists q, byte_val a = N.pos q /\
            Raw.of_pos q rest = (bytes_hex (String a "") ++ rest)%string.
Proof.
  intros H. ascii_cases a; vm_compute in H; try discriminate H;
    eexists; split; reflexivity.
Qed.

Lemma of_pos_bytes (b : string) :
  forall (q : positive) (rest : string),
  exists q', Raw.to_N (bytes_hex b) (N.pos q) = N.pos q' /\
             Raw.of_pos q' rest = Raw.of_pos q (bytes_hex b ++ rest).
Proof.
  induction b as [|a r IH]; intros q rest.
  - exists q. split; reflexivity.
  - change (bytes_hex (String a r)) with (bytes_hex (String a "") ++ bytes_hex r)%string.
    rewrite to_N_hex_byte.
    destruct (of_pos_byte q a (bytes_hex r ++ rest)) as (q1 & E1 & P1).
    rewrite E1. destruct (IH q1 rest) as (q' & E' & P').
    exists q'. split; [exact E' |]. rewrite P', P1, append_assoc. reflexivity.
Qed.

(** [hex(int(b.hex(), 16))[2:] == b.hex()] when the first byte of [b] is
    at least 0x10, so that no leading digit is lost. *)
Lemma hex_body_bytes (a : ascii) (r : string) :
  (16 <=? byte_val a)%N = true ->
  py_slice_from 2 (hex (Z.of_N (Raw.to_N (bytes_hex (String a r)) 0))) =
  bytes_hex (String a r).
Proof.
  intros Ha.
  change (bytes_hex (String a r)) with (bytes_hex (String a "") ++ bytes_hex r)%string.
  rewrite to_N_hex_byte, N.mul_0_r, N.add_0_r.
  destruct (of_pos_first_byte a (bytes_hex r) Ha) as (q & E & P). rewrite E.
  destruct (of_pos_bytes r q "") as (q' & E' & P'). rewrite E'.
  cbn [Z.of_N]. rewrite hex_body_pos, P', append_nil_r, P. reflexivity.
Qed.

(** ** The digital locker *)

Section LockerProofs.

Variable digest : string -> string -> N.

Lemma nonce_key_hash_nonneg (name msg : string) (h : Z) :
  nonce_key_hash digest name msg = Ok h -> 0 <= h.
Proof.
  unfold nonce_key_hash.
  destruct (_ || _); [discriminate |]. intros [= <-]. lia.
Qed.

Lemma nonce_key_hash_fixed (name msg : string) :
  fixed_length name = true ->
  nonce_key_hash digest name msg = Ok (Z.of_N (digest name msg)).
Proof.
  unfold fixed_length, nonce_key_hash.
  destruct (_ || _); [discriminate | reflexivity].
Qed.

Lemma encode_ok (s : string) : utf8_valid s = true -> encode s = Ok s.
Proof. unfold encode. now intros ->. Qed.

Lemma encode_inv (s b : string) : encode s = Ok b -> utf8_valid s = true /\ b = s.
Proof. unfold encode. destruct (utf8_valid s); [intros [= <-]; now split | discriminate]. Qed.

Lemma lock_inv key val s alg nbytes g c g' :
  lock digest key val s alg nbytes g = Ok (c, g') ->
  exists tok h v,
    token_bytes nbytes g = Ok (tok, g') /\
    nonce_key_hash digest (hash_alg alg) (bytes_hex tok ++ py_str key) = Ok h /\
    int16_str (bytes_hex (val ++ py_repeat "0" s)) = Ok v /\
    c = (bytes_hex tok, py_slice_from 2 (hex (Z.lxor h v))) /\
    utf8_valid (py_str key) = true /\ utf8_valid val = true.
Proof.
  unfold lock, bindM, lift, ret.
  destruct (token_bytes nbytes g) as [[tok g1]|e]; [| discriminate].
  destruct (encode (bytes_hex tok ++ py_str key)) as [msg|e] eqn:Em; [| discriminate].
  apply encode_inv in Em as [Hm ->].
  destruct (nonce_key_hash _ _ _) as [h|e] eqn:Eh; [| discriminate].
  destruct (encode (val ++ py_repeat "0" s)) as [b|e] eqn:Eb; [| discriminate].
  apply encode_inv in Eb as [Hb ->].
  cbn [py_int16].
  destruct (int16_str _) as [v|e] eqn:Ev; [| discriminate].
  intros [= <- <-]. exists tok, h, v.
  rewrite utf8_valid_ascii_prefix in Hm
    by apply lower_hex_all_ascii, bytes_hex_lower_hex.
  rewrite py_repeat_copies, utf8_valid_zero_suffix in Hb.
  repeat split; assumption.
Qed.

Lemma padded_first_byte (val : string) (s : Z) :
  1 <= s -> keeps_leading_digit val = true ->
  exists a r, (val ++ py_repeat "0" s)%string = String a r /\
              (16 <=? byte_val a)%N = true.
Proof.
  intros Hs Hv. destruct val as [|a r].
  - replace s with ((s - 1) + 1) by lia. rewrite py_repeat_succ by lia.
    simpl. eexists _, _. split; reflexivity.
  - simpl. eexists _, _. split; [reflexivity | exact Hv].
Qed.

(** What [unlock] returns on the locker of [val] under the same key:
    the value without its trailing ["0"] characters. *)
Lemma unlock_lock_rstrip key val s alg nbytes g c g' :
  lock digest key val s alg nbytes g = Ok (c, g') ->
  utf8_valid val = true ->
  keeps_leading_digit val = true ->
  1 <= s ->
  unlock digest key (py_of_locker c) s alg = Ok (Some (rstrip "0" val)).
Proof.
  intros Hl Hval Hlead Hs.
  destruct (lock_inv _ _ _ _ _ _ _ _ Hl) as (tok & h & v & _ & Hh & Hv & -> & Hkey & _).
  destruct (padded_first_byte val s Hs Hlead) as (a & r & EV & Ha).
  rewrite int16_str_lower_hex in Hv
    by (try apply bytes_hex_lower_hex; apply bytes_hex_nonempty; rewrite EV; discriminate).
  injection Hv as <-.
  pose proof (nonce_key_hash_nonneg _ _ _ Hh) as Hh0.
  unfold unlock, py_of_locker. cbn [fst snd unpack2 add_str bind py_int16].
  rewrite encode_ok
    by (rewrite utf8_valid_ascii_prefix;
        [exact Hkey | apply lower_hex_all_ascii, bytes_hex_lower_hex]).
  cbn [bind]. rewrite Hh. cbn [bind].
  rewrite int16_hex_body by (apply Z.lxor_nonneg; lia). cbn [bind].
  rewrite <- Z.lxor_assoc, Z.lxor_nilpotent, Z.lxor_0_l.
  rewrite EV, hex_body_bytes by exact Ha.
  rewrite bytes_fromhex_hex, <- EV.
  assert (Hvalid : utf8_valid (val ++ py_repeat "0" s) = true).
  { apply utf8_valid_append; [exact Hval |].
    rewrite py_repeat_copies. apply all_ascii_valid, all_ascii_copies_zero. }
  unfold decode. rewrite Hvalid.
  rewrite slice_zero_suffix by (try lia; apply utf8_valid_starts_char, Hval).
  rewrite String.eqb_refl.
  rewrite py_repeat_copies, rstrip_append_copies. reflexivity.
Qed.

(** [lock] returns when the nonce length is not negative, the algorithm
    has a fixed digest length, the padded value is not empty and the key
    and the value can be encoded. *)
Lemma lock_returns key val s alg nbytes g :
  0 <= nbytes ->
  fixed_length (hash_alg alg) = true ->
  1 <= s \/ val <> "" ->
  utf8_valid (py_str key) = true ->
  utf8_valid val = true ->
  exists c g', lock digest key val s alg nbytes g = Ok (c, g').
Proof.
  intros Hn Hf Hne Hkey Hval. unfold lock, bindM, lift, ret, token_bytes.
  replace (nbytes <? 0) with false by (symmetry; apply Z.ltb_ge; lia).
  rewrite encode_ok
    by (rewrite utf8_valid_ascii_prefix;
        [exact Hkey | apply lower_hex_all_ascii, bytes_hex_lower_hex]).
  rewrite nonce_key_hash_fixed by exact Hf.
  rewrite encode_ok by (now rewrite py_repeat_copies, utf8_valid_zero_suffix).
  cbn [py_int16]. rewrite int16_str_lower_hex.
  - eexists _, _. reflexivity.
  - apply bytes_hex_lower_hex.
  - apply bytes_hex_nonempty. destruct Hne as [Hs | Hv].
    + replace s with ((s - 1) + 1) by lia. rewrite py_repeat_succ by lia.
      destruct val; discriminate.
    + destruct val; [congruence | discriminate].
Qed.

(** A value that ends in ["0"] never comes back: [unlock] strips the
    padding and the end of the value with it. *)
Lemma unlock_lock_trailing_zero key val s alg nbytes g c g' :
  lock digest key val s alg nbytes g = Ok (c, g') ->
  utf8_valid val = true ->
  keeps_leading_digit val = true ->
  1 <= s ->
  ends_with "0" val = true ->
  unlock digest key (py_of_locker c) s alg <> Ok (Some val).
Proof.
  intros Hl Hv Hd Hs Hz.
  rewrite (unlock_lock_rstrip _ _ _ _ _ _ _ _ Hl Hv Hd Hs).
  intros [= E]. exact (rstrip_ends_with "0" val Hz E).
Qed.




(** On a pair of a nonce and a numeral [unlock] raises nothing. *)
Lemma unlock_returns_on_numeral (key : pykey) (nonce cipher : string) (x s : Z)
      (alg : pyval) :
  int16_str cipher = Ok x ->
  fixed_length (hash_alg alg) = true ->
  utf8_valid (nonce ++ py_str key) = true ->
  exists o, unlock digest key (py_of_locker (nonce, cipher)) s alg = Ok o.
Proof.
  intros Hx Hf Hm. unfold unlock, py_of_locker.
  cbn [fst snd unpack2 add_str bind py_int16].
  rewrite encode_ok by exact Hm. cbn [bind].
  rewrite nonce_key_hash_fixed by exact Hf. cbn [bind].
  rewrite Hx. cbn [bind].
  destruct (bytes_fromhex _); [| eexists; reflexivity].
  destruct (decode _); eexists; reflexivity.
Qed.

Lemma unlock_returns_on_locker (key : pykey) (nonce cipher : string) (s : Z)
      (alg : pyval) :
  all_lower_hex cipher = true -> cipher <> "" ->
  fixed_length (hash_alg alg) = true ->
  utf8_valid (nonce ++ py_str key) = true ->
  exists o, unlock digest key (py_of_locker (nonce, cipher)) s alg = Ok o.
Proof.
  intros Hc Hne. eapply unlock_returns_on_numeral.
  now apply int16_str_lower_hex.
Qed.

End LockerProofs.

(** ** Real numbers *)

Section RealFacts.

Local Open Scope R_scope.


Lemma floor_unique (x : R) (z : Z) : IZR z <= x < IZR z + 1 -> Int_part x = z.
Proof. intros H. symmetry. apply Int_part_spec. lra. Qed.

Lemma ceil_spec (x : R) : IZR (ceil x) - 1 < x <= IZR (ceil x).
Proof. unfold ceil. rewrite opp_IZR. destruct (base_Int_part (- x)). lra. Qed.

Lemma ceil_unique (x : R) (z : Z) : IZR z - 1 < x <= IZR z -> ceil x = z.
Proof.
  intros H. unfold ceil.
  rewrite <- (Int_part_spec (- x) (- z)%Z); [lia |].
  rewrite opp_IZR. lra.
Qed.




(** The integer part of a quotient of integers is the quotient of [Z]. *)
Lemma Int_part_div (v d : Z) : (0 < d)%Z -> Int_part (IZR v / IZR d) = (v / d)%Z.
Proof.
  intros Hd. apply floor_unique.
  assert (Hd' : 0 < IZR d) by now apply IZR_lt.
  pose proof (Z.mul_div_le v d Hd) as Hlo.
  pose proof (Z.mul_succ_div_gt v d Hd) as Hhi.
  apply IZR_le in Hlo. apply IZR_lt in Hhi.
  rewrite mult_IZR in Hlo, Hhi. rewrite succ_IZR in Hhi.
  split.
  - apply Rmult_le_reg_r with (IZR d); [exact Hd' |].
    unfold Rdiv. rewrite Rmult_assoc, Rinv_l by lra. lra.
  - apply Rmult_lt_reg_r with (IZR d); [exact Hd' |].
    unfold Rdiv. rewrite Rmult_assoc, Rinv_l by lra. lra.
Qed.


Lemma powerRZ_2_nonneg (e : Z) : (0 <= e)%Z -> powerRZ 2 e = IZR (2 ^ e).
Proof.
  intros He. rewrite <- (Z2Nat.id e He) at 1.
  rewrite <- pow_powerRZ, pow_IZR. now rewrite Z2Nat.id.
Qed.

Lemma powerRZ_2_neg (e : Z) : (e < 0)%Z -> powerRZ 2 e = / IZR (2 ^ (- e)).
Proof.
  intros He. replace e with (- (- e))%Z at 1 by lia.
  rewrite powerRZ_neg', powerRZ_2_nonneg by lia. reflexivity.
Qed.

Lemma ln_2_pos : 0 < ln 2.
Proof. pose proof ln_lt_2. lra. Qed.

Lemma ln_ge_2 (x : R) : 2 <= x -> ln 2 <= ln x.
Proof.
  intros [H | <-]; [| lra].
  left. apply ln_increasing; lra.
Qed.

Lemma ln_4 : ln 4 = 2 * ln 2.
Proof. replace 4 with (2 * 2) by lra. rewrite ln_mult by lra. lra. Qed.

Lemma log2_nonneg (x : R) : 1 <= x -> 0 <= log2 x.
Proof.
  intros Hx. unfold log2. pose proof ln_2_pos as H2.
  assert (0 <= ln x).
  { destruct Hx as [Hx | <-]; [| rewrite ln_1; lra].
    left. rewrite <- ln_1. apply ln_increasing; lra. }
  apply Rmult_le_pos; [assumption |]. left. now apply Rinv_0_lt_compat.
Qed.

Lemma exponent_denominator_pos (n : Z) : (2 <= n)%Z -> 0 < IZR n * ln (IZR n).
Proof.
  intros Hn. apply IZR_le in Hn.
  pose proof (ln_ge_2 _ Hn). pose proof ln_2_pos.
  apply Rmult_lt_0_compat; lra.
Qed.

(** The exponent is [1] when [t * k] is at most half of [n]. *)
Lemma exponent_one (n k : Z) (t : R) :
  (2 <= n)%Z -> (1 <= k)%Z -> 1 <= t -> t * IZR k <= IZR n / 2 ->
  ceil ((t * IZR k) / (IZR n * ln (IZR n))) = 1%Z.
Proof.
  intros Hn Hk Ht Hs.
  pose proof (exponent_denominator_pos n Hn) as Hd.
  assert (Hn' : 2 <= IZR n) by now apply IZR_le.
  assert (Hk' : 1 <= IZR k) by now apply IZR_le.
  pose proof (ln_ge_2 _ Hn') as Hl. pose proof ln_lt_2 as H2.
  assert (Hnum : 0 < t * IZR k) by (apply Rmult_lt_0_compat; lra).
  assert (Hle : t * IZR k <= IZR n * ln (IZR n)).
  { apply Rle_trans with (IZR n * / 2); [lra |].
    apply Rmult_le_compat_l; lra. }
  apply ceil_unique. split.
  - replace (1 - 1) with 0 by lra. apply Rdiv_lt_0_compat; assumption.
  - apply Rmult_le_reg_r with (IZR n * ln (IZR n)); [assumption |].
    unfold Rdiv. rewrite Rmult_assoc, Rinv_l by lra. lra.
Qed.

End RealFacts.

(** ** Doubles *)


(** [math.ceil(x)] returns on the finite doubles, with the ceiling of the
    number. *)
Lemma math_ceil_spec (x : float) (c : Z) :
  math_ceil x = Ok c <-> is_finite x = true /\ c = ceil (float_value x).
Proof.
  assert (Hz : forall z, ceil (IZR z) = z).
  { intros z. apply ceil_unique. lra. }
  destruct x as [s | s | | s m e]; cbn [math_ceil is_finite float_value].
  - rewrite Hz. split; [intros [= <-]; now split | intros [_ ->]; reflexivity].
  - split; [discriminate | intros [H _]; discriminate H].
  - split; [discriminate | intros [H _]; discriminate H].
  - set (v := if s then Z.neg m else Z.pos m).
    assert (E : ceil (IZR v * powerRZ 2 e)
                = if 0 <=? e then v * 2 ^ e else - ((- v) / 2 ^ (- e))).
    { destruct (0 <=? e) eqn:He.
      - apply Z.leb_le in He. rewrite powerRZ_2_nonneg, <- mult_IZR by exact He.
        apply Hz.
      - apply Z.leb_gt in He. rewrite powerRZ_2_neg by exact He.
        assert (Hd : 0 < 2 ^ (- e)) by (apply Z.pow_pos_nonneg; lia).
        unfold ceil. f_equal.
        replace (- (IZR v * / IZR (2 ^ (- e))))%R with (IZR (- v) / IZR (2 ^ (- e)))%R.
        + now apply Int_part_div.
        + apply IZR_lt in Hd. rewrite opp_IZR. field. lra. }
    rewrite E. split; [intros [= <-]; now split | intros [_ ->]; reflexivity].
Qed.

(** The comparison of a finite double with an integer is that of the
    numbers. *)
Lemma float_cmp_Z_spec (x : float) (z : Z) :
  is_finite x = true ->
  exists c,
    float_cmp_Z x z = Some c /\
    match c with
    | Lt => (float_value x < IZR z)%R
    | Eq => float_value x = IZR z
    | Gt => (IZR z < float_value x)%R
    end.
Proof.
  assert (Hc : forall a b : Z,
             match a ?= b with
             | Lt => (IZR a < IZR b)%R
             | Eq => IZR a = IZR b
             | Gt => (IZR b < IZR a)%R
             end).
  { intros a b. destruct (Z.compare_spec a b) as [-> | H | H];
      [reflexivity | now apply IZR_lt | now apply IZR_lt]. }
  destruct x as [s | s | | s m e]; cbn [is_finite float_cmp_Z float_value];
    try discriminate; intros _.
  - eexists. split; [reflexivity | apply Hc].
  - set (v := if s then Z.neg m else Z.pos m).
    eexists. split; [reflexivity |].
    destruct (0 <=? e) eqn:He.
    + apply Z.leb_le in He. rewrite powerRZ_2_nonneg, <- mult_IZR by exact He.
      apply Hc.
    + apply Z.leb_gt in He. rewrite powerRZ_2_neg by exact He.
      assert (Hd : (0 < IZR (2 ^ (- e)))%R) by (apply IZR_lt, Z.pow_pos_nonneg; lia).
      pose proof (Hc v (z * 2 ^ (- e))) as H. rewrite mult_IZR in H.
      assert (Hv : (IZR v = IZR v * / IZR (2 ^ (- e)) * IZR (2 ^ (- e)))%R)
        by (field; lra).
      destruct (v ?= z * 2 ^ (- e)).
      * apply Rmult_eq_reg_r with (IZR (2 ^ (- e))); lra.
      * apply Rmult_lt_reg_r with (IZR (2 ^ (- e))); lra.
      * apply Rmult_lt_reg_r with (IZR (2 ^ (- e))); lra.
Qed.

(** [x < z] and [z < x] for a finite double [x] and an [int] [z]. *)
Lemma num_lt_float_int (x : float) (z : Z) :
  is_finite x = true ->
  (num_lt (NFloat x) (NInt z) = true <-> (float_value x < IZR z)%R).
Proof.
  intros Hx. destruct (float_cmp_Z_spec x z Hx) as (c & Ec & Hc).
  cbn [num_lt]. rewrite Ec.
  destruct c; split; intros H; try reflexivity; try discriminate; try assumption; lra.
Qed.

Lemma num_lt_int_float (z : Z) (x : float) :
  is_finite x = true ->
  (num_lt (NInt z) (NFloat x) = true <-> (IZR z < float_value x)%R).
Proof.
  intros Hx. destruct (float_cmp_Z_spec x z Hx) as (c & Ec & Hc).
  cbn [num_lt]. rewrite Ec.
  destruct c; split; intros H; try reflexivity; try discriminate; try assumption; lra.
Qed.

(** ** set_l *)

Section SetL.

Variable lm : Libm.

Lemma set_l_guard (n k : Z) (t delta : pynum) :
  (n <? 2) || (k <? 1) || num_lt t (NInt 1) || num_lt delta (NInt 0)
  || num_lt (NInt 1) delta = true <->
  n < 2 \/ k < 1 \/ num_lt t (NInt 1) = true \/ num_lt delta (NInt 0) = true \/
  num_lt (NInt 1) delta = true.
Proof.
  rewrite !orb_true_iff, !Z.ltb_lt. tauto.
Qed.

Lemma set_l_guard_false (n k : Z) (t delta : pynum) :
  2 <= n -> 1 <= k -> num_lt t (NInt 1) = false ->
  num_lt delta (NInt 0) = false -> num_lt (NInt 1) delta = false ->
  (n <? 2) || (k <? 1) || num_lt t (NInt 1) || num_lt delta (NInt 0)
  || num_lt (NInt 1) delta = false.
Proof.
  intros Hn Hk -> -> ->.
  replace (n <? 2) with false by (symmetry; apply Z.ltb_ge; lia).
  replace (k <? 1) with false by (symmetry; apply Z.ltb_ge; lia).
  reflexivity.
Qed.

Lemma set_l_rejected (n k : Z) (t delta : pynum) :
  n < 2 \/ k < 1 \/ num_lt t (NInt 1) = true \/ num_lt delta (NInt 0) = true \/
  num_lt (NInt 1) delta = true ->
  set_l lm n k t delta = Ok 0.
Proof.
  intros H. apply set_l_guard in H. unfold set_l. now rewrite H.
Qed.

(** What [set_l] computes on arguments that pass the guard. *)
Lemma set_l_accepted (n k : Z) (t delta : pynum) :
  2 <= n -> 1 <= k -> num_lt t (NInt 1) = false ->
  num_lt delta (NInt 0) = false -> num_lt (NInt 1) delta = false ->
  set_l lm n k t delta =
  (pw <- set_l_power lm n k t ;;
   r <- int_div_num 4 delta ;;
   lg2 <- math_log2_float lm r ;;
   x <- num_mul_float pw lg2 ;;
   py_int x)%res.
Proof.
  intros Hn Hk Ht Hd0 Hd1. unfold set_l.
  now rewrite set_l_guard_false.
Qed.

(** A result other than 0 tells that the guard was passed. *)
Lemma set_l_nonzero (n k : Z) (t delta : pynum) (l : Z) :
  set_l lm n k t delta = Ok l -> l <> 0 -> 2 <= n /\ 1 <= k.
Proof.
  unfold set_l. intros H Hl.
  destruct (_ || _) eqn:E; [injection H as <-; congruence |].
  rewrite !orb_false_iff, !Z.ltb_ge in E. lia.
Qed.

(** The quotient [4 / delta] for a [delta] that is zero. *)
Lemma four_div_zero (delta : pynum) :
  delta = NInt 0 \/ (exists s, delta = NFloat (S754_zero s)) ->
  int_div_num 4 delta = Raise ZeroDivisionError.
Proof. intros [-> | [s ->]]; reflexivity. Qed.

End SetL.

(** ** The printed form of [bytes] *)

Lemma repr_quote_cases (b : string) : repr_quote b = squote \/ repr_quote b = dquote.
Proof. unfold repr_quote. destruct (_ && _); [right | left]; reflexivity. Qed.

Lemma repr_byte_ascii (q c : ascii) :
  q = squote \/ q = dquote -> all_ascii (repr_byte q c) = true.
Proof. intros [-> | ->]; ascii_cases c; reflexivity. Qed.

Lemma repr_byte_length (q c : ascii) :
  (1 <= String.length (repr_byte q c) <= 4)%nat.
Proof.
  unfold repr_byte.
  repeat match goal with
         | |- context [if ?b then _ else _] => destruct b
         end; simpl; lia.
Qed.

Lemma repr_body_ascii (q : ascii) (b : string) :
  q = squote \/ q = dquote -> all_ascii (repr_body q b) = true.
Proof.
  intros Hq. induction b as [|c r IH]; [reflexivity |].
  simpl. rewrite all_ascii_append, IH, repr_byte_ascii by exact Hq. reflexivity.
Qed.

Lemma repr_body_length (q : ascii) (b : string) :
  (String.length b <= String.length (repr_body q b) <= 4 * String.length b)%nat.
Proof.
  induction b as [|c r IH]; simpl; [lia |].
  rewrite length_append. pose proof (repr_byte_length q c). lia.
Qed.

Lemma bytes_repr_ascii (b : string) : all_ascii (bytes_repr b) = true.
Proof.
  unfold bytes_repr. pose proof (repr_quote_cases b) as Hq.
  cbn [all_ascii]. rewrite all_ascii_append, repr_body_ascii by exact Hq.
  destruct Hq as [-> | ->]; reflexivity.
Qed.

(** [str(b)] has between [len(b) + 3] and [4 * len(b) + 3] characters. *)
Lemma bytes_repr_length (b : string) :
  (String.length b + 3 <= String.length (bytes_repr b) <= 4 * String.length b + 3)%nat.
Proof.
  unfold bytes_repr. cbn [String.length]. rewrite length_append.
  pose proof (repr_body_length (repr_quote b) b). simpl. lia.
Qed.

Lemma ends_with_append_last (c q : ascii) (a : string) :
  ends_with c (a ++ String q "") = Ascii.eqb q c.
Proof.
  induction a as [|x a IH]; [reflexivity |].
  destruct a as [|y a]; [reflexivity | exact IH].
Qed.

Lemma bytes_repr_no_trailing_zero (b : string) : ends_with "0" (bytes_repr b) = false.
Proof.
  unfold bytes_repr.
  change (String "b" (String (repr_quote b) (repr_body (repr_quote b) b ++ String (repr_quote b) "")))
    with (String "b" (String (repr_quote b) (repr_body (repr_quote b) b)) ++ String (repr_quote b) "")%string.
  rewrite ends_with_append_last.
  destruct (repr_quote_cases b) as [-> | ->]; reflexivity.
Qed.

(** ** Sequences *)

Lemma py_index_ok {A : Type} (l : list A) (i : Z) :
  0 <= i < Z.of_nat (List.length l) -> exists a, py_index l i = Ok a.
Proof.
  intros Hi. unfold py_index.
  replace (i <? 0) with false by (symmetry; apply Z.ltb_ge; lia).
  replace (i <? 0) with false by (symmetry; apply Z.ltb_ge; lia).
  replace (Z.of_nat (List.length l) <=? i) with false by (symmetry; apply Z.leb_gt; lia).
  cbn [orb].
  destruct (nth_error l (Z.to_nat i)) as [a|] eqn:E; [now exists a |].
  apply nth_error_None in E. lia.
Qed.

Lemma py_index_map {A B : Type} (f : A -> B) (l : list A) (i : Z) :
  py_index (map f l) i = bind (py_index l i) (fun a => Ok (f a)).
Proof.
  unfold py_index. rewrite length_map.
  destruct (_ || _); [reflexivity |].
  rewrite nth_error_map. destruct (nth_error l _); reflexivity.
Qed.

Lemma py_index_in {A : Type} (l : list A) (i : Z) (a : A) :
  py_index l i = Ok a -> In a l.
Proof.
  unfold py_index. destruct (_ || _); [discriminate |].
  destruct (nth_error l _) eqn:E; [| discriminate].
  intros [= <-]. eapply nth_error_In, E.
Qed.

Lemma mapM_ok {A B : Type} (f : A -> result B) (l : list A) :
  Forall (fun a => exists b, f a = Ok b) l -> exists bs, mapM f l = Ok bs.
Proof.
  induction 1 as [|a l [b Hb] _ [bs IH]]; simpl.
  - now exists [].
  - rewrite Hb, IH. simpl. now exists (b :: bs).
Qed.

Lemma range0_bounds (k j : Z) : In j (range0 k) -> 0 <= j < k.
Proof.
  unfold range0. rewrite in_map_iff. intros (i & <- & Hi).
  apply in_seq in Hi. lia.
Qed.

Lemma select_ok (w : list Z) (k : Z) (ji : list Z) :
  positions_ok (Z.of_nat (List.length w)) k ji ->
  exists vi, select w (py_of_ints ji) k = Ok vi.
Proof.
  intros [Hlen Hall]. unfold select. apply mapM_ok.
  apply Forall_forall. intros j Hj. apply range0_bounds in Hj.
  unfold py_of_ints. cbn [py_getitem]. rewrite py_index_map.
  destruct (py_index_ok ji j ltac:(lia)) as [i Hi]. rewrite Hi. cbn [bind py_list_get].
  apply py_index_ok. rewrite Forall_forall in Hall. apply Hall.
  eapply py_index_in, Hi.
Qed.

Lemma randint_positions (n k : Z) (g g' : Rng) (ji : list Z) :
  randint 0 n k g = Ok (ji, g') -> positions_ok n k ji /\ 0 < n /\ 0 <= k.
Proof.
  unfold randint. destruct (_ || _) eqn:E; [discriminate |].
  apply orb_false_elim in E as [E1 E2].
  apply Z.leb_gt in E1. apply Z.ltb_ge in E2.
  intros [= <- _]. split; [split |]; [| | lia].
  - rewrite length_map, length_seq. lia.
  - apply Forall_forall. intros i Hi. apply in_map_iff in Hi as (m & <- & _).
    rewrite Z.sub_0_r. pose proof (Z.mod_pos_bound (Z.of_N (np_random g m)) n E1). lia.
Qed.

Lemma randint_returns (n k : Z) (g : Rng) :
  0 < n -> 0 <= k -> exists ji g', randint 0 n k g = Ok (ji, g').
Proof.
  intros Hn Hk. unfold randint.
  replace (n <=? 0) with false by (symmetry; apply Z.leb_gt; lia).
  replace (k <? 0) with false by (symmetry; apply Z.ltb_ge; lia).
  eexists _, _. reflexivity.
Qed.

(** ** The printed form of a list of integers *)

Lemma string_of_uint_ascii (u : Decimal.uint) :
  all_ascii (NilEmpty.string_of_uint u) = true.
Proof. induction u; simpl; try reflexivity; assumption. Qed.

Lemma str_int_ascii (z : Z) : all_ascii (str_int z) = true.
Proof.
  unfold str_int, NilZero.string_of_int, NilZero.string_of_uint.
  destruct (Z.to_int z) as [u | u]; destruct u; simpl; try reflexivity;
    apply string_of_uint_ascii.
Qed.

Lemma concat_ascii (sep : string) (l : list string) :
  all_ascii sep = true -> Forall (fun x => all_ascii x = true) l ->
  all_ascii (String.concat sep l) = true.
Proof.
  intros Hsep. induction 1 as [|x l Hx Hl IH]; [reflexivity |].
  destruct l as [|y l]; [exact Hx |].
  change (String.concat sep (x :: y :: l))
    with (x ++ sep ++ String.concat sep (y :: l))%string.
  now rewrite !all_ascii_append, Hx, Hsep, IH.
Qed.

Lemma py_str_ints_ascii (l : list Z) : all_ascii (py_str (KInts l)) = true.
Proof.
  cbn [py_str]. change ("[" ++ String.concat ", " (map str_int l) ++ "]")%string
    with (String "[" (String.concat ", " (map str_int l) ++ "]")).
  cbn [all_ascii]. rewrite all_ascii_append, concat_ascii.
  - reflexivity.
  - reflexivity.
  - apply Forall_map, Forall_forall. intros z _. apply str_int_ascii.
Qed.

(** ** gen and rep *)

Lemma bytes_repr_lockable (tok : string) : lockable (bytes_repr tok).
Proof.
  repeat split.
  - apply all_ascii_valid, bytes_repr_ascii.
  - apply bytes_repr_no_trailing_zero.
Qed.

Section CanettiProofs.

Variable digest : string -> string -> N.
Variable lm : Libm.

Lemma attempt_entry (k : Z) (w : list Z) (e : entry) :
  attempt digest k w (py_of_entry e) =
  (vi <- select w (py_of_ints (snd e)) k ;;
   unlock digest (KInts vi) (py_of_locker (fst e)) default_s default_alg)%res.
Proof. reflexivity. Qed.

Lemma gen_loop_entries (w : list Z) (n k : Z) (r : string) (l : nat) :
  forall g p g',
    gen_loop digest w n k r l g = Ok (p, g') ->
    lockable r ->
    List.length p = l /\
    Forall (fun e => positions_ok n k (snd e) /\
                     attempt digest k w (py_of_entry e) = Ok (Some r)) p.
Proof.
  induction l as [|l IH]; intros g p g' H Hr.
  - injection H as <- _. split; [reflexivity | constructor].
  - cbn [gen_loop] in H. unfold bindM, lift, ret in H.
    destruct (randint 0 n k g) as [[ji g1]|] eqn:Er; [| discriminate].
    destruct (select w (py_of_ints ji) k) as [vi|] eqn:Es; [| discriminate].
    destruct (lock digest (KInts vi) r default_s default_alg default_nbytes g1)
      as [[ci g2]|] eqn:El; [| discriminate].
    destruct (gen_loop digest w n k r l g2) as [[p' g3]|] eqn:Eg; [| discriminate].
    injection H as <- _.
    destruct (IH _ _ _ Eg Hr) as [Hlen Hall].
    split; [simpl; now rewrite Hlen |].
    constructor; [| exact Hall]. split.
    + apply (randint_positions _ _ _ _ _ Er).
    + rewrite attempt_entry. cbn [fst snd]. rewrite Es. cbn [bind].
      destruct Hr as (Hv & Hd & Hz & _).
      rewrite (unlock_lock_rstrip digest _ _ _ _ _ _ _ _ El Hv Hd) by (unfold default_s; lia).
      now rewrite rstrip_no_trailing.
Qed.

Lemma gen_loop_returns (w : list Z) (k : Z) (r : string) (l : nat) :
  0 < Z.of_nat (List.length w) -> 0 <= k -> utf8_valid r = true ->
  forall g, exists p g', gen_loop digest w (Z.of_nat (List.length w)) k r l g = Ok (p, g').
Proof.
  intros Hn Hk Hr. induction l as [|l IH]; intros g.
  - eexists _, _. reflexivity.
  - cbn [gen_loop]. unfold bindM, lift, ret.
    destruct (randint_returns _ k g Hn Hk) as (ji & g1 & Er). rewrite Er.
    destruct (select_ok w k ji (proj1 (randint_positions _ _ _ _ _ Er))) as [vi Es].
    rewrite Es.
    destruct (lock_returns digest (KInts vi) r default_s default_alg default_nbytes g1)
      as (ci & g2 & El);
      [unfold default_nbytes; lia | reflexivity | left; unfold default_s; lia
      | apply all_ascii_valid, py_str_ints_ascii | exact Hr |].
    rewrite El. destruct (IH g2) as (p & g3 & Eg). rewrite Eg.
    eexists _, _. reflexivity.
Qed.

Lemma gen_inv (w : list Z) (k : Z) (t delta : pynum) (g g' : Rng) (r : string)
      (p : list entry) :
  gen digest lm w k t delta g = Ok ((r, p), g') ->
  exists tok g1 l,
    token_bytes (k / 8) g = Ok (tok, g1) /\
    r = bytes_repr tok /\
    set_l lm (Z.of_nat (List.length w)) k t delta = Ok l /\
    gen_loop digest w (Z.of_nat (List.length w)) k r (Z.to_nat l) g1 = Ok (p, g').
Proof.
  unfold gen, bindM, lift, ret.
  destruct (token_bytes (k / 8) g) as [[tok g1]|] eqn:Et; [| discriminate].
  destruct (set_l _ _ k t delta) as [l|] eqn:El; [| discriminate].
  destruct (gen_loop _ _ _ _ _ _ _) as [[p' g2]|] eqn:Eg; [| discriminate].
  intros [= <- <- <-]. exists tok, g1, l. repeat split; assumption.
Qed.

Lemma gen_unfold (w : list Z) (k : Z) (t delta : pynum) (l : Z) (g : Rng) :
  set_l lm (Z.of_nat (List.length w)) k t delta = Ok l ->
  gen digest lm w k t delta g =
  (tok <- token_bytes (k / 8) ;;
   p <- gen_loop digest w (Z.of_nat (List.length w)) k (bytes_repr tok) (Z.to_nat l) ;;
   ret (bytes_repr tok, p))%rng g.
Proof.
  intros El. unfold gen, bindM, lift. rewrite El.
  destruct (token_bytes (k / 8) g) as [[tok g1]|]; reflexivity.
Qed.

Lemma token_bytes_inv (nbytes : Z) (g g' : Rng) (tok : string) :
  token_bytes nbytes g = Ok (tok, g') ->
  0 <= nbytes /\
  tok = string_of_list_ascii (map (os_urandom g) (seq 0 (Z.to_nat nbytes))).
Proof.
  unfold token_bytes. destruct (nbytes <? 0) eqn:E; [discriminate |].
  apply Z.ltb_ge in E. intros [= <- _]. split; [exact E | reflexivity].
Qed.

Lemma length_string_of_list (l : list ascii) :
  String.length (string_of_list_ascii l) = List.length l.
Proof. induction l as [|a l IH]; simpl; [reflexivity | now rewrite IH]. Qed.


(** [gen] returns when [set_l] returns, with as many entries as [set_l]
    tells. *)
Lemma gen_returns (w : list Z) (k : Z) (t delta : pynum) (l : Z) (g : Rng) :
  0 <= k ->
  set_l lm (Z.of_nat (List.length w)) k t delta = Ok l ->
  exists r p g',
    gen digest lm w k t delta g = Ok ((r, p), g') /\
    List.length p = Z.to_nat l.
Proof.
  intros Hk El.
  rewrite (gen_unfold w k t delta _ g El). unfold bindM, ret, token_bytes.
  replace (k / 8 <? 0) with false
    by (symmetry; apply Z.ltb_ge; apply Z.div_pos; lia).
  match goal with
  | |- context [gen_loop digest w ?n k ?r ?l ?g1] =>
      assert (Hloop : exists p g', gen_loop digest w n k r l g1 = Ok (p, g'))
  end.
  { destruct (Z.to_nat l) as [|l'] eqn:E; [eexists _, _; reflexivity |].
    rewrite <- E.
    destruct (set_l_nonzero lm _ _ _ _ _ El ltac:(lia)) as [Hn _].
    apply gen_loop_returns; [lia | exact Hk |].
    apply all_ascii_valid, bytes_repr_ascii. }
  destruct Hloop as (p & g' & Eg). rewrite Eg.
  eexists _, _, _. split; [reflexivity |].
  now destruct (gen_loop_entries _ _ _ _ _ _ _ _ Eg (bytes_repr_lockable _)).
Qed.

(** *** rep *)

Lemma rep_unbound (w : list Z) (e : entry) (rest : list pyval) :
  rep digest None w (py_of_entry e :: rest) = Raise NameError.
Proof. reflexivity. Qed.

Lemma rep_cons (k : Z) (w : list Z) (e : pyval) (rest : list pyval) (o : option string) :
  attempt digest k w e = Ok o ->
  rep digest (Some k) w (e :: rest) =
  if truthy o then Ok o else rep digest (Some k) w rest.
Proof.
  unfold attempt. cbn [rep].
  destruct (unpack2 e) as [[ci ji]|]; [| discriminate].
  cbn [bind]. destruct (select w ji k) as [vi|]; [| discriminate].
  cbn [bind]. intros ->. reflexivity.
Qed.

Lemma rep_cons_malformed (k : option Z) (w : list Z) (e : pyval) (rest : list pyval) :
  unpack2 e = Raise ValueError -> rep digest k w (e :: rest) = Ok None.
Proof. intros H. cbn [rep]. rewrite H. reflexivity. Qed.

(** The first entry of what [gen] returned already reproduces the key
    when [rep] finds gen's [k] under the name [k]. *)
Lemma rep_gen_same_k (w : list Z) (k : Z) (t delta : pynum) (g g' : Rng)
      (r : string) (p : list entry) :
  gen digest lm w k t delta g = Ok ((r, p), g') ->
  p <> [] ->
  rep digest (Some k) w (map py_of_entry p) = Ok (Some r).
Proof.
  intros Hg Hp.
  destruct (gen_inv _ _ _ _ _ _ _ _ Hg) as (tok & g1 & l & _ & -> & _ & Hloop).
  destruct (gen_loop_entries _ _ _ _ _ _ _ _ Hloop (bytes_repr_lockable tok)) as [_ Hall].
  destruct p as [|e p]; [congruence |].
  inversion Hall as [|? ? [_ He] _]; subst.
  cbn [map]. rewrite (rep_cons _ _ _ _ _ He). reflexivity.
Qed.

End CanettiProofs.

(** ** Outcomes of the traversal of rep *)

Lemma wrong_arity_unpack2 (c : pyval) :
  wrong_arity c -> unpack2 c = Raise ValueError.
Proof.
  destruct c as [| z | s | l | l]; cbn [wrong_arity unpack2]; try contradiction.
  - destruct (chars s) as [|a [|b [|x r]]]; simpl; intros H; try reflexivity. congruence.
  - destruct l as [|a [|b [|x r]]]; simpl; intros H; try reflexivity. congruence.
  - destruct l as [|a [|b [|x r]]]; simpl; intros H; try reflexivity. congruence.
Qed.

Lemma first_truthy_none (os : list (option string)) :
  first_truthy os = None <-> Forall (fun o => truthy o = false) os.
Proof.
  induction os as [|o os IH]; simpl.
  - split; [constructor | reflexivity].
  - destruct (truthy o) eqn:E.
    + split.
      * intros ->. discriminate.
      * intros H. inversion H; congruence.
    + rewrite IH. split.
      * intros H. now constructor.
      * intros H. now inversion H.
Qed.

Lemma mapM_cons_inv {A B : Type} (f : A -> result B) (a : A) (l : list A) (bs : list B) :
  mapM f (a :: l) = Ok bs ->
  exists b bs', f a = Ok b /\ mapM f l = Ok bs' /\ bs = b :: bs'.
Proof.
  cbn [mapM]. destruct (f a) as [b|]; [| discriminate]. cbn [bind].
  destruct (mapM f l) as [bs'|]; [| discriminate]. cbn [bind].
  intros [= <-]. now exists b, bs'.
Qed.

Lemma first_unlocked_none (os : list (option string)) :
  first_unlocked os = None <-> Forall (fun o => o = None) os.
Proof.
  induction os as [|[v|] os IH]; simpl.
  - split; [constructor | reflexivity].
  - split; [discriminate |]. intros H. inversion H; discriminate.
  - rewrite IH. split.
    + intros H. now constructor.
    + intros H. now inversion H.
Qed.

Lemma first_truthy_unlocked (os : list (option string)) :
  Forall (fun o => o <> Some "") os -> first_truthy os = first_unlocked os.
Proof.
  induction 1 as [|o os Ho _ IH]; [reflexivity |].
  destruct o as [[|c v]|]; simpl; [congruence | reflexivity | exact IH].
Qed.

Section RepProofs.

Variable digest : string -> string -> N.

(** [rep] returns the first true result of the attempts. *)
Lemma rep_first_truthy_attempt (k : Z) (w : list Z) (p : list pyval) :
  forall os,
    mapM (attempt digest k w) p = Ok os ->
    rep digest (Some k) w p = Ok (first_truthy os).
Proof.
  induction p as [|e p IH]; intros os H.
  - injection H as <-. reflexivity.
  - apply mapM_cons_inv in H as (o & os' & He & Hp & ->).
    rewrite (rep_cons digest _ _ _ _ _ He). cbn [first_truthy].
    destruct (truthy o); [reflexivity | apply IH, Hp].
Qed.

(** A malformed entry ends the loop when no entry before it gave a true
    result. *)
Lemma rep_malformed_after (k : Z) (w : list Z) (pre : list pyval) (bad : pyval)
      (rest : list pyval) :
  forall os,
    mapM (attempt digest k w) pre = Ok os ->
    first_truthy os = None ->
    unpack2 bad = Raise ValueError ->
    rep digest (Some k) w (pre ++ bad :: rest) = Ok None.
Proof.
  induction pre as [|e pre IH]; intros os H Hn Hbad.
  - apply rep_cons_malformed, Hbad.
  - apply mapM_cons_inv in H as (o & os' & He & Hp & ->).
    cbn [first_truthy] in Hn. rewrite <- app_comm_cons.
    rewrite (rep_cons digest _ _ _ _ _ He).
    destruct (truthy o) eqn:E.
    + subst o. discriminate E.
    + eapply IH; eassumption.
Qed.



End RepProofs.

(** ** Facts about the instances *)

Lemma ln_32 : (ln 32 = 5 * ln 2)%R.
Proof.
  replace 32%R with (4 * (4 * 2))%R by lra.
  rewrite !ln_mult, ln_4 by lra. lra.
Qed.



Lemma libm_table_example : libm_example libm_table.
Proof. split; reflexivity. Qed.

(** [set_l(16, 8, 1, 1.0) == 32] *)
Lemma set_l_pattern16 (lm : Libm) :
  libm_example lm ->
  set_l lm (Z.of_nat (List.length pattern16)) 8 (NInt 1) (NFloat float_1_0) = Ok 32.
Proof.
  intros [H16 H4]. destruct lm as [li l2 pw]. cbn [log_of_int log2_of_float] in H16, H4.
  rewrite set_l_accepted by (try reflexivity; simpl; lia).
  unfold set_l_power, math_log, math_log2_float.
  cbn [log_of_int log2_of_float num_mul_int bind List.length pattern16].
  change (Z.of_nat 16) with 16. change (16 <=? 0) with false. cbv iota.
  rewrite H16. cbn [bind].
  change (int_div_num 4 (NFloat float_1_0)) with (Ok (float_of_Z 4)).
  change (int_mul_float 16 ln_16_double)
    with (Ok (S754_finite false 6243314768165359 (-47))).
  cbn [bind].
  change (float_of_Z 4) with (S754_finite false 4503599627370496 (-50)) in *.
  cbn [bind]. rewrite H4. vm_compute. reflexivity.
Qed.

Lemma gen_pattern16_returns (digest : string -> string -> N) (lm : Libm) :
  libm_example lm ->
  exists r p g',
    gen digest lm pattern16 8 (NInt 1) (NFloat float_1_0) seed = Ok ((r, p), g') /\
    List.length p = 32%nat.
Proof.
  intros Hlm.
  exact (gen_returns digest lm pattern16 8 (NInt 1) (NFloat float_1_0) 32 seed
           ltac:(lia) (set_l_pattern16 lm Hlm)).
Qed.

Lemma mapM_app {A B : Type} (f : A -> result B) (l1 l2 : list A) :
  mapM f (l1 ++ l2) =
  (a <- mapM f l1 ;; b <- mapM f l2 ;; Ok (a ++ b))%res.
Proof.
  induction l1 as [|x l1 IH]; simpl.
  - destruct (mapM f l2); reflexivity.
  - destruct (f x); simpl; [| reflexivity].
    rewrite IH. destruct (mapM f l1); simpl; [| reflexivity].
    destruct (mapM f l2); reflexivity.
Qed.

Lemma range0_split (k k' : Z) :
  0 <= k < k' ->
  exists tl, range0 k' = range0 k ++ k :: tl.
Proof.
  intros H. unfold range0.
  replace (Z.to_nat k') with (Z.to_nat k + S (Z.to_nat k' - S (Z.to_nat k)))%nat by lia.
  rewrite seq_app, map_app. cbn [seq map]. rewrite Nat.add_0_l, Z2Nat.id by lia.
  eexists. reflexivity.
Qed.

Lemma py_index_out {A : Type} (l : list A) (i : Z) :
  Z.of_nat (List.length l) <= i -> py_index l i = Raise IndexError.
Proof.
  intros H. unfold py_index.
  replace (i <? 0) with false by (symmetry; apply Z.ltb_ge; lia).
  replace (Z.of_nat (List.length l) <=? i) with true by (symmetry; apply Z.leb_le; lia).
  now rewrite orb_true_r.
Qed.

(** Asking for more positions than an entry has runs off its end. *)
Lemma select_too_long (w : list Z) (k k' : Z) (ji : list Z) :
  positions_ok (Z.of_nat (List.length w)) k ji -> k < k' ->
  select w (py_of_ints ji) k' = Raise IndexError.
Proof.
  intros Hp Hk. destruct (select_ok w k ji Hp) as [vi Hvi].
  destruct Hp as [Hlen _].
  destruct (range0_split k k' ltac:(lia)) as [tl Htl].
  unfold select in *. rewrite Htl, mapM_app, Hvi. cbn [bind mapM].
  unfold py_of_ints. cbn [py_getitem].
  rewrite py_index_out by (rewrite length_map; lia). reflexivity.
Qed.

Lemma rep_gen_larger_k (digest : string -> string -> N) (lm : Libm) (w : list Z)
      (k k' : Z) (t delta : pynum) (g g' : Rng) (r : string) (p : list entry) :
  gen digest lm w k t delta g = Ok ((r, p), g') ->
  p <> [] -> k < k' ->
  rep digest (Some k') w (map py_of_entry p) = Raise IndexError.
Proof.
  intros Hg Hp Hk.
  destruct (gen_inv _ _ _ _ _ _ _ _ _ _ Hg) as (tok & g1 & l & _ & -> & _ & Hloop).
  destruct (gen_loop_entries _ _ _ _ _ _ _ _ _ Hloop (bytes_repr_lockable tok)) as [_ Hall].
  destruct p as [|e p]; [congruence |].
  inversion Hall as [|? ? [He _] _]; subst.
  cbn [map rep py_of_entry unpack2].
  rewrite (select_too_long w k k' (snd e) He Hk). reflexivity.
Qed.

(** The test [if ri] of the loop also passes over an entry that unlocks to
    the empty string, where the comment beside it reads
    "If r_i != None output r_i". *)
Lemma rep_skips_empty_unlock :
  mapM (attempt poly_digest 1 [1]) [py_of_entry (empty_locker, [0])] = Ok [Some ""] /\
  first_unlocked [Some ""] = Some "" /\
  rep poly_digest (Some 1) [1] [py_of_entry (empty_locker, [0])] = Ok None.
Proof. split; [| split]; vm_compute; reflexivity. Qed.

(** * The claims *)

(** ** C1: reproduction on the unchanged reading *)

(** C1 at a failing input, with a C library that returns the nearest
    doubles for [log(16)] and [log2(4.0)]: [gen] on a reading of 16 bits
    with [k = 8], [t = 1], [delta = 1.0] returns 32 entries.  On them, with
    the reading unchanged, [rep] raises NameError when no module-level [k]
    exists and IndexError when the module-level [k] is the 80 of the
    script; it returns the key only when the module-level [k] is the 8
    given to [gen]. *)
Theorem rep_after_gen_reads_global_k (digest : string -> string -> N) (lm : Libm) :
  libm_example lm ->
  exists r p g',
    gen digest lm pattern16 8 (NInt 1) (NFloat float_1_0) seed = Ok ((r, p), g') /\
    List.length p = 32%nat /\
    rep digest None pattern16 (map py_of_entry p) = Raise NameError /\
    rep digest (Some 80) pattern16 (map py_of_entry p) = Raise IndexError /\
    rep digest (Some 8) pattern16 (map py_of_entry p) = Ok (Some r).
Proof.
  intros Hlm.
  destruct (gen_pattern16_returns digest lm Hlm) as (r & p & g' & Hg & Hlen).
  exists r, p, g'. split; [exact Hg |].
  assert (Hp : p <> []) by (intros ->; discriminate Hlen).
  split; [exact Hlen |]. split; [| split].
  - destruct p as [|e p]; [congruence |]. apply rep_unbound.
  - apply (rep_gen_larger_k digest lm pattern16 8 80 _ _ seed g' r p Hg Hp). lia.
  - apply (rep_gen_same_k digest lm pattern16 8 _ _ seed g' r p Hg Hp).
Qed.

Lemma rep_after_gen_reads_global_k_example :
  exists r p g',
    gen poly_digest libm_table pattern16 8 (NInt 1) (NFloat float_1_0) seed
    = Ok ((r, p), g') /\
    List.length p = 32%nat /\
    rep poly_digest None pattern16 (map py_of_entry p) = Raise NameError /\
    rep poly_digest (Some 80) pattern16 (map py_of_entry p) = Raise IndexError /\
    rep poly_digest (Some 8) pattern16 (map py_of_entry p) = Ok (Some r).
Proof.
  apply (rep_after_gen_reads_global_k poly_digest libm_table).
  split; reflexivity.
Defined.

(** ** C2: round trip of the digital locker *)

(** C2 at failing inputs.  With [s = 16] the value ["10"] unlocks to
    ["1"] and a value that starts with a line feed does not unlock; with
    [s = 0] the value ["ab"] does not unlock; with the algorithm
    ["shake_128"] [lock] raises TypeError; with a key that holds a lone
    surrogate [lock] raises UnicodeEncodeError. *)
Theorem lock_unlock_round_trip_fails :
  (exists c g',
     lock poly_digest (KStr "k") "10" 16 (PStr "sha256") 16 seed = Ok (c, g') /\
     unlock poly_digest (KStr "k") (py_of_locker c) 16 (PStr "sha256") = Ok (Some "1")) /\
  (exists c g',
     lock poly_digest (KStr "k") (String (ascii_of_nat 10) "ab") 16 (PStr "sha256") 16 seed
     = Ok (c, g') /\
     unlock poly_digest (KStr "k") (py_of_locker c) 16 (PStr "sha256") = Ok None) /\
  (exists c g',
     lock poly_digest (KStr "k") "ab" 0 (PStr "sha256") 16 seed = Ok (c, g') /\
     unlock poly_digest (KStr "k") (py_of_locker c) 0 (PStr "sha256") = Ok None) /\
  lock poly_digest (KStr "k") "ab" 16 (PStr "shake_128") 16 seed = Raise TypeError /\
  lock poly_digest (KStr lone_surrogate) "ab" 16 (PStr "sha256") 16 seed
  = Raise UnicodeEncodeError.
Proof.
  split; [| split; [| split; [| split]]].
  - destruct (lock_returns poly_digest (KStr "k") "10" 16 (PStr "sha256") 16 seed)
      as (c & g' & Hl); [lia | reflexivity | left; lia | reflexivity | reflexivity |].
    exists c, g'. split; [exact Hl |].
    now rewrite (unlock_lock_rstrip poly_digest _ _ _ _ _ _ _ _ Hl).
  - eexists _, _. split; vm_compute; reflexivity.
  - eexists _, _. split; vm_compute; reflexivity.
  - reflexivity.
  - reflexivity.
Qed.

(** ** C3: malformed entries of the helper data *)

(** C3, as amended: an entry of the helper data that is a sequence whose
    length is not two, reached after entries that all failed to unlock,
    makes [rep] return [None] at once, whatever entries follow it. *)
Theorem rep_stops_at_malformed_entry
        (digest : string -> string -> N) (k : Z) (wprime : list Z)
        (pre : list pyval) (bad : pyval) (rest : list pyval) (os : list (option string)) :
  mapM (attempt digest k wprime) pre = Ok os ->
  Forall (fun o => o = None) os ->
  wrong_arity bad ->
  rep digest (Some k) wprime (pre ++ bad :: rest) = Ok None.
Proof.
  intros Hpre Hos Hbad.
  apply (rep_malformed_after digest k wprime pre bad rest os Hpre).
  - apply first_truthy_none. eapply Forall_impl; [| exact Hos].
    intros o ->. reflexivity.
  - now apply wrong_arity_unpack2.
Qed.

Lemma rep_stops_at_malformed_entry_example :
  rep poly_digest (Some 1) [1; 0]
      ([py_of_entry (example_locker, [1])] ++ PTuple [] :: [py_of_entry (example_locker, [0])])
  = Ok None.
Proof.
  apply (rep_stops_at_malformed_entry poly_digest 1 [1; 0]
           [py_of_entry (example_locker, [1])] (PTuple [])
           [py_of_entry (example_locker, [0])] [None]).
  - vm_compute. reflexivity.
  - repeat constructor.
  - simpl. discriminate.
Defined.

(** C3 as stated fails: the entry after a malformed one would reproduce
    the key, and [rep] returns [None] without trying it; an entry that is
    not iterable makes [rep] raise. *)
Lemma rep_does_not_skip_malformed_entry :
  rep poly_digest (Some 1) [1] [py_of_entry (example_locker, [0])] = Ok (Some "b'a'") /\
  rep poly_digest (Some 1) [1] [PTuple []; py_of_entry (example_locker, [0])] = Ok None /\
  rep poly_digest (Some 1) [1] [PInt 0; py_of_entry (example_locker, [0])] = Raise TypeError.
Proof. split; [| split]; vm_compute; reflexivity. Qed.

(** ** C4: the value of set_l on accepted arguments *)




(** ** C5: the traversal of rep *)




(** ** C6: degenerate arguments of set_l *)

(** C6: [set_l] returns [0] whenever [n < 2] or [k < 1] or [t < 1] or
    [delta < 0] or [delta > 1]. *)
Theorem set_l_degenerate (lm : Libm) (n k : Z) (t delta : pynum) :
  n < 2 \/ k < 1 \/ num_lt t (NInt 1) = true \/ num_lt delta (NInt 0) = true \/
  num_lt (NInt 1) delta = true ->
  set_l lm n k t delta = Ok 0.
Proof.
  intros H. unfold set_l.
  replace ((n <? 2) || (k <? 1) || num_lt t (NInt 1) || num_lt delta (NInt 0)
           || num_lt (NInt 1) delta) with true.
  - reflexivity.
  - symmetry. rewrite !orb_true_iff, !Z.ltb_lt. tauto.
Qed.

(** The four degenerate calls of the specification. *)
Lemma set_l_degenerate_examples :
  set_l libm_table 1 80 (NInt 31) (NFloat float_0_0036) = Ok 0 /\
  set_l libm_table 1024 0 (NInt 31) (NFloat float_0_0036) = Ok 0 /\
  set_l libm_table 1024 80 (NInt 31) (NFloat float_m0_1) = Ok 0 /\
  set_l libm_table 1024 80 (NInt 31) (NFloat float_1_5) = Ok 0.
Proof.
  split; [| split; [| split]].
  - apply (set_l_degenerate libm_table 1 80 (NInt 31) (NFloat float_0_0036)). left. lia.
  - apply (set_l_degenerate libm_table 1024 0 (NInt 31) (NFloat float_0_0036)).
    right. left. lia.
  - apply (set_l_degenerate libm_table 1024 80 (NInt 31) (NFloat float_m0_1)).
    do 3 right. left. vm_compute. reflexivity.
  - apply (set_l_degenerate libm_table 1024 80 (NInt 31) (NFloat float_1_5)).
    do 4 right. vm_compute. reflexivity.
Defined.

(** ** C7: malformed lockers *)

(** C7, as amended: when [c] is a sequence (a tuple, a list or a string)
    whose length is not two, [unlock] returns the failure value [None] and
    raises nothing. *)
Theorem unlock_wrong_arity
        (digest : string -> string -> N) (key : pykey) (c : pyval) (s : Z) (alg : pyval) :
  wrong_arity c -> unlock digest key c s alg = Ok None.
Proof.
  intros H. unfold unlock. rewrite (wrong_arity_unpack2 c H). reflexivity.
Qed.

(** The call of [unlock] on two empty strings that the module itself
    makes, with [s = 32] and the algorithm [blake2b]. *)
Lemma unlock_wrong_arity_empty :
  unlock poly_digest (KStr "") (PStr "") 32 (PStr "blake2b") = Ok None.
Proof.
  apply (unlock_wrong_arity poly_digest (KStr "") (PStr "") 32 (PStr "blake2b")).
  simpl. discriminate.
Defined.

(** C7 as stated fails: a [c] that is not iterable, a pair whose nonce is
    not a string and a pair whose cipher is not a numeral make [unlock]
    raise. *)
Lemma unlock_malformed_raises :
  unlock poly_digest (KStr "k") (PInt 5) 16 default_alg = Raise TypeError /\
  unlock poly_digest (KStr "k") (PTuple [PInt 1; PInt 2]) 16 default_alg = Raise TypeError /\
  unlock poly_digest (KStr "k") (PTuple [PStr "00"; PStr "zz"]) 16 default_alg
  = Raise ValueError.
Proof. repeat split. Qed.

(** ** C8: the key of gen *)

(** C8, as amended: the key returned by [gen] is the printed form
    [str(b)] of the [k // 8] bytes [b] that [secrets.token_bytes] takes from
    the operating system; it has between [k // 8 + 3] and [4 * (k // 8) + 3]
    characters. *)
Theorem gen_key_is_printed_token
        (digest : string -> string -> N) (lm : Libm) (w : list Z) (k : Z)
        (t delta : pynum) (g g' : Rng) (r : string) (p : list entry) :
  gen digest lm w k t delta g = Ok ((r, p), g') ->
  0 <= k / 8 /\
  r = bytes_repr (string_of_list_ascii (map (os_urandom g) (seq 0 (Z.to_nat (k / 8))))) /\
  k / 8 + 3 <= Z.of_nat (String.length r) <= 4 * (k / 8) + 3.
Proof.
  intros Hg.
  destruct (gen_inv _ _ _ _ _ _ _ _ _ _ Hg) as (tok & g1 & l & Ht & -> & _ & _).
  apply token_bytes_inv in Ht as [Hk ->].
  split; [exact Hk |]. split; [reflexivity |].
  match goal with |- context [bytes_repr ?b] => pose proof (bytes_repr_length b) as Hl end.
  rewrite length_string_of_list, length_map, length_seq in Hl. lia.
Qed.

Lemma gen_key_is_printed_token_example :
  exists r p g',
    gen poly_digest libm_table pattern16 8 (NInt 1) (NFloat float_1_0) seed
    = Ok ((r, p), g') /\
    r = "b'a'" /\
    8 / 8 + 3 <= Z.of_nat (String.length r) <= 4 * (8 / 8) + 3.
Proof.
  destruct (gen_pattern16_returns poly_digest libm_table libm_table_example)
    as (r & p & g' & Hg & _).
  exists r, p, g'. split; [exact Hg |].
  destruct (gen_key_is_printed_token poly_digest libm_table pattern16 8 (NInt 1)
              (NFloat float_1_0) seed g' r p Hg) as (_ & Hr & Hl).
  split; [exact Hr | exact Hl].
Defined.

(** C8 as stated fails: with [k = 8] and the random byte [a], the key is
    the four characters [b'a'], 32 bits and not 8. *)
Lemma gen_key_is_not_k_bits :
  exists p g',
    gen poly_digest libm_table pattern16 8 (NInt 1) (NFloat float_1_0) seed
    = Ok (("b'a'", p), g') /\
    8 * Z.of_nat (String.length "b'a'") <> 8.
Proof.
  destruct (gen_pattern16_returns poly_digest libm_table libm_table_example)
    as (r & p & g' & Hg & _).
  destruct (gen_inv _ _ _ _ _ _ _ _ _ _ Hg) as (tok & g1 & l & Ht & Hr & _ & _).
  apply token_bytes_inv in Ht as [_ ->].
  exists p, g'. split; [| simpl; lia].
  rewrite Hg. subst r. reflexivity.
Qed.

(** ** C9: the shape of the helper data *)



(** ** C10: fall-back of the hash algorithm *)



(** * Lemmas on the rest of the code *)

(** ** patterns.py: distances *)

Lemma count_diff_bounds (a b : list Z) :
  0 <= count_diff a b <= Z.of_nat (List.length a).
Proof.
  revert b. induction a as [|x a IH]; intros [|y b]; simpl count_diff;
    try (simpl; lia).
  specialize (IH b). cbn [List.length]. destruct (x =? y); lia.
Qed.

Lemma count_diff_sym (a b : list Z) : count_diff a b = count_diff b a.
Proof.
  revert b. induction a as [|x a IH]; intros [|y b]; simpl; try reflexivity.
  rewrite (IH b), (Z.eqb_sym x y). reflexivity.
Qed.

Lemma count_diff_zero (a b : list Z) :
  List.length a = List.length b -> (count_diff a b = 0 <-> a = b).
Proof.
  revert b. induction a as [|x a IH]; intros [|y b] Hlen; simpl in Hlen; try discriminate.
  - split; reflexivity.
  - injection Hlen as Hlen. specialize (IH b Hlen).
    pose proof (count_diff_bounds a b) as Hb. simpl.
    destruct (Z.eqb_spec x y) as [-> | Hne].
    + split.
      * intros H. f_equal. apply IH. lia.
      * intros [= ->]. assert (count_diff b b = 0) by now apply IH. lia.
    + split; [lia | congruence].
Qed.

Lemma count_diff_triangle (a b c : list Z) :
  List.length a = List.length b -> List.length b = List.length c ->
  count_diff a c <= count_diff a b + count_diff b c.
Proof.
  revert b c. induction a as [|x a IH]; intros [|y b] [|z c] Hab Hbc;
    simpl in Hab, Hbc; try discriminate; simpl; try lia.
  injection Hab as Hab. injection Hbc as Hbc. specialize (IH b c Hab Hbc).
  destruct (Z.eqb_spec x z), (Z.eqb_spec x y), (Z.eqb_spec y z); try lia; congruence.
Qed.

Lemma hamming_distance_same_length (a b : list Z) :
  List.length a = List.length b -> hamming_distance a b = count_diff a b.
Proof. intros H. unfold hamming_distance. now rewrite H, Nat.eqb_refl. Qed.

Lemma hamming_distance_other_length (a b : list Z) :
  List.length a <> List.length b -> hamming_distance a b = -1.
Proof.
  intros H. unfold hamming_distance.
  now destruct (Nat.eqb_spec (List.length a) (List.length b)).
Qed.

(** On bits the complement differs exactly where the pattern agrees. *)
Lemma count_diff_complement (a b : list Z) :
  is_bits a -> is_bits b -> List.length a = List.length b ->
  count_diff a (complement b) = Z.of_nat (List.length a) - count_diff a b.
Proof.
  intros Ha. revert b. induction Ha as [|x a Hx Ha IH]; intros [|y b] Hb Hlen;
    simpl in Hlen; try discriminate; [reflexivity |].
  injection Hlen as Hlen. inversion Hb as [|? ? Hy Hb']; subst.
  cbn [complement map count_diff List.length]. fold (complement b).
  rewrite (IH b Hb' Hlen).
  destruct (Z.eqb_spec x (1 - y)), (Z.eqb_spec x y); lia.
Qed.

Lemma length_complement (b : list Z) : List.length (complement b) = List.length b.
Proof. apply length_map. Qed.

Lemma complement_unique (a b : list Z) :
  is_bits a -> is_bits b -> List.length a = List.length b ->
  count_diff a b = Z.of_nat (List.length a) -> b = complement a.
Proof.
  intros Ha. revert b. induction Ha as [|x a Hx Ha IH]; intros [|y b] Hb Hlen Hc;
    simpl in Hlen; try discriminate; [reflexivity |].
  injection Hlen as Hlen. inversion Hb as [|? ? Hy Hb']; subst.
  cbn [count_diff List.length] in Hc. pose proof (count_diff_bounds a b) as Hbd.
  cbn [complement map]. fold (complement a).
  destruct (Z.eqb_spec x y).
  - lia.
  - f_equal; [lia | apply IH; try assumption; lia].
Qed.

(** ** patterns.py: switch *)

Lemma set_nth_length (l : list Z) (i : nat) (v : Z) :
  List.length (set_nth l i v) = List.length l.
Proof.
  revert i. induction l as [|x l IH]; intros [|i]; simpl; try reflexivity.
  now rewrite IH.
Qed.

Lemma set_nth_other (l : list Z) (i j : nat) (v d : Z) :
  i <> j -> nth j (set_nth l i v) d = nth j l d.
Proof.
  revert i j. induction l as [|x l IH]; intros [|i] [|j] H; simpl; try reflexivity.
  - congruence.
  - apply IH. congruence.
Qed.

Lemma set_nth_forall (P : Z -> Prop) (l : list Z) (i : nat) (v : Z) :
  Forall P l -> P v -> Forall P (set_nth l i v).
Proof.
  intros Hl Hv. revert i. induction Hl as [|x l Hx Hl IH]; intros [|i]; simpl;
    constructor; auto.
Qed.

(** Writing a new value where the two lists agreed adds one difference. *)
Lemma count_diff_set_nth (a b : list Z) (i : nat) (v : Z) :
  List.length a = List.length b -> (i < List.length a)%nat ->
  nth i b 0 = nth i a 0 -> v <> nth i a 0 ->
  count_diff a (set_nth b i v) = count_diff a b + 1.
Proof.
  revert b i. induction a as [|x a IH]; intros [|y b] i Hlen Hi Hsame Hv;
    simpl in Hlen, Hi; try discriminate; try lia.
  injection Hlen as Hlen. destruct i as [|i]; simpl in *.
  - subst y. rewrite Z.eqb_refl.
    destruct (Z.eqb_spec x v); [congruence | lia].
  - rewrite (IH b i Hlen ltac:(lia) Hsame Hv). lia.
Qed.

Lemma py_index_nth (l : list Z) (i : Z) :
  0 <= i < Z.of_nat (List.length l) -> py_index l i = Ok (nth (Z.to_nat i) l 0).
Proof.
  intros Hi. destruct (py_index_ok l i Hi) as [a Ha]. rewrite Ha. f_equal.
  unfold py_index in Ha.
  replace (i <? 0) with false in Ha by (symmetry; apply Z.ltb_ge; lia).
  destruct (_ || _); [discriminate |].
  destruct (nth_error l (Z.to_nat i)) eqn:E; [| discriminate].
  injection Ha as <-. symmetry. now apply nth_error_nth.
Qed.

Lemma take_indices_in_range (res idx : list Z) :
  Forall (fun i => 0 <= i < Z.of_nat (List.length res)) idx ->
  take_indices res idx = Ok (map (fun i => nth (Z.to_nat i) res 0) idx).
Proof.
  unfold take_indices. induction 1 as [|i idx Hi _ IH]; [reflexivity |].
  cbn [mapM map]. rewrite (py_index_nth res i Hi). cbn [bind]. rewrite IH. reflexivity.
Qed.

Lemma py_set_index_in_range (res : list Z) (i v : Z) :
  0 <= i < Z.of_nat (List.length res) ->
  py_set_index res i v = Ok (set_nth res (Z.to_nat i) v).
Proof.
  intros Hi. unfold py_set_index.
  replace (i <? 0) with false by (symmetry; apply Z.ltb_ge; lia).
  replace (i <? 0) with false by (symmetry; apply Z.ltb_ge; lia).
  replace (Z.of_nat (List.length res) <=? i) with false by (symmetry; apply Z.leb_gt; lia).
  reflexivity.
Qed.

(** The loop of the assignment [res[idx] = 1 - res[idx]], started on [acc]:
    every index written so far is left alone afterwards. *)
Lemma put_toggled (orig : list Z) (idx : list Z) :
  forall acc,
    List.length acc = List.length orig ->
    NoDup idx ->
    Forall (fun i => 0 <= i < Z.of_nat (List.length orig)) idx ->
    Forall (fun i => nth (Z.to_nat i) acc 0 = nth (Z.to_nat i) orig 0) idx ->
    exists res,
      put_indices acc idx (map (fun v => 1 - v) (map (fun i => nth (Z.to_nat i) orig 0) idx))
      = Ok res /\
      List.length res = List.length orig /\
      count_diff orig res = count_diff orig acc + Z.of_nat (List.length idx) /\
      (is_bits orig -> is_bits acc -> is_bits res).
Proof.
  induction idx as [|i idx IH]; intros acc Hlen Hnd Hrange Hsame.
  - exists acc. cbn. repeat split; [exact Hlen | lia | auto].
  - inversion Hnd as [|? ? Hni Hnd']; subst.
    inversion Hrange as [|? ? Hi Hrange']; subst.
    inversion Hsame as [|? ? Hsi Hsame']; subst.
    cbn [map put_indices].
    rewrite py_set_index_in_range by (rewrite Hlen; exact Hi). cbn [bind].
    destruct (IH (set_nth acc (Z.to_nat i) (1 - nth (Z.to_nat i) orig 0))) as (res & Hp & Hl & Hc & Hb).
    + now rewrite set_nth_length.
    + exact Hnd'.
    + exact Hrange'.
    + rewrite Forall_forall in *. intros j Hj.
      rewrite set_nth_other; [now apply Hsame' |].
      intros E. apply Hni. apply Z2Nat.inj in E; [now subst | lia |].
      specialize (Hrange' j Hj). lia.
    + exists res. split; [exact Hp |]. split; [exact Hl |]. split.
      * rewrite Hc, count_diff_set_nth; try (symmetry; exact Hlen); try lia; try exact Hsi.
        cbn [List.length]. lia.
      * intros Ho Ha. apply Hb; [exact Ho |].
        apply set_nth_forall; [exact Ha |].
        unfold is_bits in Ho. rewrite Forall_forall in Ho.
        assert (Hin : In (nth (Z.to_nat i) orig 0) orig) by (apply nth_In; lia).
        destruct (Ho _ Hin) as [-> | ->]; [right | left]; reflexivity.
Qed.

(** [toggle] on distinct indices in range changes exactly those. *)
Lemma toggle_distinct (res idx : list Z) :
  NoDup idx ->
  Forall (fun i => 0 <= i < Z.of_nat (List.length res)) idx ->
  exists res',
    toggle res idx = Ok res' /\
    List.length res' = List.length res /\
    count_diff res res' = Z.of_nat (List.length idx) /\
    (is_bits res -> is_bits res').
Proof.
  intros Hnd Hrange. unfold toggle.
  rewrite (take_indices_in_range res idx Hrange). cbn [bind].
  destruct (put_toggled res idx res eq_refl Hnd Hrange) as (res' & Hp & Hl & Hc & Hb).
  { apply Forall_forall. reflexivity. }
  exists res'. split; [exact Hp |]. split; [exact Hl |]. split.
  - rewrite Hc. assert (E : count_diff res res = 0) by now apply count_diff_zero. lia.
  - intros H. now apply Hb.
Qed.

Lemma remove_at_length (A : Type) (l : list A) (i : nat) :
  (i < List.length l)%nat ->
  List.length (firstn i l ++ skipn (S i) l) = pred (List.length l).
Proof.
  intros Hi. rewrite length_app, length_firstn, length_skipn. lia.
Qed.

Lemma remove_at_in (A : Type) (l : list A) (i : nat) (x : A) :
  In x (firstn i l ++ skipn (S i) l) -> In x l.
Proof.
  revert i. induction l as [|y l IH]; intros [|i]; simpl; try tauto.
  intros [H | H]; [now left | right; now apply (IH i)].
Qed.

Lemma remove_at_nodup (l : list Z) (i : nat) (d : Z) :
  NoDup l -> (i < List.length l)%nat ->
  NoDup (firstn i l ++ skipn (S i) l) /\ ~ In (nth i l d) (firstn i l ++ skipn (S i) l).
Proof.
  intros Hnd Hi.
  rewrite <- (firstn_skipn i l) in Hnd at 1.
  assert (Hs : skipn i l = nth i l d :: skipn (S i) l).
  { clear Hnd. revert i Hi. induction l as [|x l IH]; intros [|i] Hi; simpl in *; try lia.
    - reflexivity.
    - apply IH. lia. }
  rewrite Hs in Hnd. split.
  - eapply NoDup_remove_1. exact Hnd.
  - eapply NoDup_remove_2. exact Hnd.
Qed.

(** [draw_distinct] gives [min(m, len(pool))] different items of the pool. *)
Lemma draw_distinct_spec (raw : nat -> N) (m : nat) :
  forall (pos : nat) (pool : list Z),
    NoDup pool ->
    let d := draw_distinct raw pos pool m in
    NoDup d /\ (forall x, In x d -> In x pool) /\
    List.length d = Nat.min m (List.length pool).
Proof.
  induction m as [|m IH]; intros pos pool Hnd; cbn zeta.
  - simpl. repeat split; [constructor | contradiction].
  - destruct pool as [|x pool]; [simpl; repeat split; [constructor | contradiction] |].
    cbn [draw_distinct].
    set (l := x :: pool) in *.
    set (i := N.to_nat (raw pos mod N.of_nat (List.length l))).
    assert (Hi : (i < List.length l)%nat).
    { subst i. assert (N.of_nat (List.length l) <> 0%N) by (subst l; simpl; lia).
      pose proof (N.mod_lt (raw pos) _ H). lia. }
    destruct (remove_at_nodup l i x Hnd Hi) as [Hnd' Hni].
    destruct (IH (S pos) _ Hnd') as (Hd & Hin & Hlen).
    split; [| split].
    + constructor; [| exact Hd]. intros H. apply Hni. now apply Hin.
    + intros y [<- | Hy]; [now apply nth_In |].
      eapply remove_at_in. now apply Hin.
    + cbn [List.length]. rewrite Hlen, remove_at_length by exact Hi. lia.
Qed.

Lemma range0_nodup (n : Z) : NoDup (range0 n).
Proof.
  unfold range0. generalize (seq_NoDup (Z.to_nat n) 0).
  generalize (seq 0 (Z.to_nat n)). induction 1 as [|x l Hx _ IH]; simpl; constructor.
  - rewrite in_map_iff. intros (y & E & Hy). apply Nat2Z.inj in E. now subst.
  - exact IH.
Qed.

Lemma range0_length (n : Z) : List.length (range0 n) = Z.to_nat n.
Proof. unfold range0. now rewrite length_map, length_seq. Qed.

(** [choice] returns as many different indices of [range(a)] as asked. *)
Lemma choice_spec (a size : Z) (g : Rng) :
  0 <= size <= a ->
  exists idx g',
    choice a size g = Ok (idx, g') /\
    NoDup idx /\ Forall (fun i => 0 <= i < a) idx /\
    Z.of_nat (List.length idx) = size.
Proof.
  intros H. unfold choice.
  replace ((a <=? 0) && negb (size =? 0)) with false.
  2:{ symmetry. destruct (Z.leb_spec a 0); [| reflexivity].
      replace (size =? 0) with true by (symmetry; apply Z.eqb_eq; lia). reflexivity. }
  replace (a <? size) with false by (symmetry; apply Z.ltb_ge; lia).
  replace (size <? 0) with false by (symmetry; apply Z.ltb_ge; lia).
  eexists _, _. split; [reflexivity |].
  destruct (draw_distinct_spec (np_random g) (Z.to_nat size) 0 (range0 a) (range0_nodup a))
    as (Hnd & Hin & Hlen).
  split; [exact Hnd |]. split.
  - apply Forall_forall. intros i Hi. apply range0_bounds. now apply Hin.
  - rewrite Hlen, range0_length. lia.
Qed.

(** What [switch] does to a pattern, for any draw. *)
Lemma switch_toggles (pattern : list Z) (bits : Z) (g : Rng) :
  0 <= bits ->
  exists res g',
    switch pattern bits g = Ok (res, g') /\
    List.length res = List.length pattern /\
    count_diff pattern res = Z.min (Z.of_nat (List.length pattern)) bits /\
    (is_bits pattern -> is_bits res).
Proof.
  intros Hb. unfold switch, bindM, lift.
  destruct (choice_spec (Z.of_nat (List.length pattern))
              (Z.min (Z.of_nat (List.length pattern)) bits) g ltac:(lia))
    as (idx & g' & Hc & Hnd & Hr & Hl).
  rewrite Hc.
  destruct (toggle_distinct pattern idx Hnd Hr) as (res & Ht & Hlen & Hcd & Hbits).
  rewrite Ht. exists res, g'. repeat split; try assumption. now rewrite Hcd.
Qed.

(** ** patterns.py: get_pattern *)

Lemma get_pattern_bits (size : Z) (g : Rng) :
  0 <= size ->
  exists w g',
    get_pattern size 0 1 g = Ok (w, g') /\
    Z.of_nat (List.length w) = size /\ is_bits w.
Proof.
  intros Hs. unfold get_pattern.
  destruct (randint_returns (1 + 1) size g ltac:(lia) Hs) as (w & g' & Hr).
  exists w, g'. split; [exact Hr |].
  destruct (randint_positions _ _ _ _ _ Hr) as [[Hl Hall] _].
  split; [exact Hl |].
  eapply Forall_impl; [| exact Hall]. cbn beta. intros x Hx. lia.
Qed.

Ltac solve_is_bits :=
  unfold is_bits;
  repeat (apply Forall_cons; [(left; reflexivity) || (right; reflexivity) |]);
  apply Forall_nil.

(** ** digitallocker.py: the form of a locker *)

Lemma rstrip_never_ends_with (c : ascii) (s : string) :
  ends_with c (rstrip c s) = false.
Proof.
  induction s as [|a r IH]; [reflexivity |].
  cbn [rstrip]. destruct (rstrip c r) as [|b r'] eqn:E.
  - destruct (Ascii.eqb a c) eqn:Ea; [reflexivity | exact Ea].
  - exact IH.
Qed.

Lemma length_bytes_hex (b : string) :
  String.length (bytes_hex b) = (2 * String.length b)%nat.
Proof. induction b as [|c r IH]; simpl; [reflexivity | rewrite IH; lia]. Qed.

Lemma hex_body_lower_hex (z : Z) :
  0 <= z ->
  all_lower_hex (py_slice_from 2 (hex z)) = true /\ py_slice_from 2 (hex z) <> "".
Proof.
  intros Hz. destruct z as [|p|p]; [split; [reflexivity | discriminate] | | lia].
  rewrite hex_body_pos. split; [now apply of_pos_lower_hex | apply of_pos_nonempty].
Qed.

(** [hex(z)[2:]] never reads as the empty byte string. *)
Lemma fromhex_hex_body_nonempty (z : Z) :
  bytes_fromhex (py_slice_from 2 (hex z)) <> Some "".
Proof.
  destruct z as [|p|p]; [discriminate | |].
  - rewrite hex_body_pos.
    pose proof (of_pos_lower_hex p "" eq_refl) as Hh.
    pose proof (of_pos_nonempty p) as Hne.
    destruct (Raw.of_pos p "") as [|a r]; [congruence |].
    simpl in Hh. apply andb_prop in Hh as [Ha Hr].
    destruct (lower_hex_digit a Ha) as (_ & _ & x & Hx).
    assert (Hsp : is_space a = false) by (lower_hex_cases Ha; reflexivity).
    cbn [bytes_fromhex]. rewrite Hsp.
    destruct r as [|b r']; [discriminate |].
    rewrite Hx. destruct (ascii_to_digit b); [| discriminate].
    destruct (bytes_fromhex r'); discriminate.
  - unfold hex, HexString.of_Z, HexString.of_pos, py_slice_from. simpl.
    destruct (Raw.of_pos p ""); discriminate.
Qed.

(** The form of what [lock] returns: a nonce of [2 * nbytes] digits and a
    cipher that is the numeral of the digest xor the padded value. *)
Lemma lock_form (digest : string -> string -> N) (key : pykey) (val : string)
      (s : Z) (alg : pyval) (nbytes : Z) (g g' : Rng) (nonce cipher : string) :
  lock digest key val s alg nbytes g = Ok ((nonce, cipher), g') ->
  Z.of_nat (String.length nonce) = 2 * nbytes /\
  all_lower_hex nonce = true /\
  all_lower_hex cipher = true /\ cipher <> "" /\
  exists h v,
    nonce_key_hash digest (hash_alg alg) (nonce ++ py_str key) = Ok h /\
    int16_str (bytes_hex (val ++ py_repeat "0" s)) = Ok v /\
    int16_str cipher = Ok (Z.lxor h v).
Proof.
  intros Hl.
  destruct (lock_inv digest _ _ _ _ _ _ _ _ Hl) as (tok & h & v & Ht & Hh & Hv & E & _).
  injection E as -> ->.
  apply token_bytes_inv in Ht as [Hn ->].
  pose proof (nonce_key_hash_nonneg digest _ _ _ Hh) as Hh0.
  assert (Hv0 : 0 <= v).
  { destruct (bytes_hex (val ++ py_repeat "0" s)) as [|a r] eqn:Eb; [discriminate Hv |].
    rewrite int16_str_lower_hex in Hv.
    - injection Hv as <-. lia.
    - rewrite <- Eb. apply bytes_hex_lower_hex.
    - discriminate. }
  assert (Hx : 0 <= Z.lxor h v) by (apply Z.lxor_nonneg; lia).
  destruct (hex_body_lower_hex _ Hx) as [Hc Hne].
  split; [| split; [| split; [| split]]].
  - rewrite length_bytes_hex, length_string_of_list, length_map, length_seq. lia.
  - apply bytes_hex_lower_hex.
  - exact Hc.
  - exact Hne.
  - exists h, v. split; [exact Hh |]. split; [exact Hv |]. now apply int16_hex_body.
Qed.

(** ** digitallocker.py: a locker opened with other arguments *)









Section LockerOpened.

Variable digest : string -> string -> N.


End LockerOpened.

(** ** canetti.py: more on gen and rep *)

Lemma cp_count_ascii (s : string) :
  all_ascii s = true -> cp_count s = String.length s.
Proof.
  induction s as [|c r IH]; [reflexivity |].
  simpl. intros H. apply andb_prop in H as [Hc Hr].
  unfold is_cont. apply N.ltb_lt in Hc.
  replace (128 <=? byte_val c)%N with false by (symmetry; apply N.leb_gt; lia).
  simpl. now rewrite IH.
Qed.

Lemma mapM_ext_in {A B : Type} (f g : A -> result B) (l : list A) :
  (forall a, In a l -> f a = g a) -> mapM f l = mapM g l.
Proof.
  induction l as [|a l IH]; intros H; [reflexivity |].
  cbn [mapM]. rewrite (H a (or_introl eq_refl)), IH; [reflexivity |].
  intros b Hb. apply H. now right.
Qed.

(** Two readings of one length that agree on the positions of an entry
    give the same sub-pattern. *)
Lemma select_agree (w wprime : list Z) (k : Z) (ji : list Z) :
  List.length wprime = List.length w ->
  positions_ok (Z.of_nat (List.length w)) k ji ->
  Forall (fun i => nth (Z.to_nat i) wprime 0 = nth (Z.to_nat i) w 0) ji ->
  select wprime (py_of_ints ji) k = select w (py_of_ints ji) k.
Proof.
  intros Hlen [Hk Hrange] Hagree. unfold select. apply mapM_ext_in.
  intros j Hj. apply range0_bounds in Hj.
  unfold py_of_ints. cbn [py_getitem]. rewrite py_index_map.
  destruct (py_index_ok ji j ltac:(lia)) as [i Hi]. rewrite Hi. cbn [bind py_list_get].
  apply py_index_in in Hi.
  rewrite Forall_forall in Hrange, Hagree.
  specialize (Hrange i Hi). specialize (Hagree i Hi).
  rewrite !py_index_nth by (rewrite ?Hlen; exact Hrange).
  now rewrite Hagree.
Qed.

Lemma py_index_head {A : Type} (x : A) (l : list A) : py_index (x :: l) 0 = Ok x.
Proof.
  unfold py_index. cbn [List.length].
  replace (Z.of_nat (S (List.length l)) <=? 0) with false by (symmetry; apply Z.leb_gt; lia).
  reflexivity.
Qed.

(** Whatever [unlock] returns has lost its trailing ["0"] characters. *)
Lemma unlock_ends (digest : string -> string -> N) (key : pykey) (c : pyval) (s : Z)
      (alg : pyval) (v : string) :
  unlock digest key c s alg = Ok (Some v) -> ends_with "0" v = false.
Proof.
  unfold unlock.
  destruct (unpack2 c) as [[nonce x]|[]]; try discriminate.
  destruct (add_str nonce (py_str key)) as [joined|]; [| discriminate]. cbn [bind].
  destruct (encode joined) as [msg|]; [| discriminate]. cbn [bind].
  destruct (nonce_key_hash digest (hash_alg alg) msg) as [h|]; [| discriminate]. cbn [bind].
  destruct (py_int16 x) as [z|]; [| discriminate]. cbn [bind].
  destruct (bytes_fromhex _) as [b|]; [| discriminate].
  destruct (decode b) as [val|]; [| discriminate].
  destruct (String.eqb _ _); [| discriminate].
  intros [= <-]. apply rstrip_never_ends_with.
Qed.

Section GenEntries.

Variable digest : string -> string -> N.
Variable lm : Libm.

(** What holds of every draw of the loop of [gen] holds of every entry. *)
Lemma gen_loop_forall (P : entry -> Prop) (w : list Z) (n k : Z) (r : string) :
  (forall ji vi ci g g1 g2,
      randint 0 n k g = Ok (ji, g1) ->
      select w (py_of_ints ji) k = Ok vi ->
      lock digest (KInts vi) r default_s default_alg default_nbytes g1 = Ok (ci, g2) ->
      P (ci, ji)) ->
  forall l g p g',
    gen_loop digest w n k r l g = Ok (p, g') -> Forall P p.
Proof.
  intros HP. induction l as [|l IH]; intros g p g' H.
  - injection H as <- _. constructor.
  - cbn [gen_loop] in H. unfold bindM, lift, ret in H.
    destruct (randint 0 n k g) as [[ji g1]|] eqn:Er; [| discriminate].
    destruct (select w (py_of_ints ji) k) as [vi|] eqn:Es; [| discriminate].
    destruct (lock digest (KInts vi) r default_s default_alg default_nbytes g1)
      as [[ci g2]|] eqn:El; [| discriminate].
    destruct (gen_loop digest w n k r l g2) as [[p' g3]|] eqn:Eg; [| discriminate].
    injection H as <- _. constructor; [eapply HP; eassumption | eapply IH; eassumption].
Qed.

Lemma gen_entries_enrolled (w : list Z) (k : Z) (t delta : pynum) (g g' : Rng)
      (r : string) (p : list entry) :
  gen digest lm w k t delta g = Ok ((r, p), g') -> Forall (enrolled digest w k r) p.
Proof.
  intros Hg.
  destruct (gen_inv _ _ _ _ _ _ _ _ _ _ Hg) as (tok & g1 & l & _ & -> & _ & Hloop).
  eapply gen_loop_forall; [| exact Hloop].
  intros ji vi [nonce cipher] ga gb gc Hr Hs Hl.
  destruct (randint_positions _ _ _ _ _ Hr) as [Hpos [Hn _]].
  destruct (lock_form digest _ _ _ _ _ _ _ _ _ Hl) as (Hlen & Hnh & Hch & Hne & _).
  destruct (bytes_repr_lockable tok) as (Hv & Hd & Hz & _).
  unfold enrolled. cbn [fst snd].
  repeat split; try assumption; try (apply Hpos).
  - unfold default_nbytes in Hlen. lia.
  - rewrite attempt_entry. cbn [fst snd]. rewrite Hs. cbn [bind].
    rewrite (unlock_lock_rstrip digest _ _ _ _ _ _ _ _ Hl Hv Hd) by (unfold default_s; lia).
    now rewrite rstrip_no_trailing.
Qed.

Lemma attempt_returns_on_enrolled (w wprime : list Z) (k : Z) (r : string) (e : entry) :
  enrolled digest w k r e -> List.length wprime = List.length w ->
  exists o, attempt digest k wprime (py_of_entry e) = Ok o.
Proof.
  intros (Hpos & _ & _ & Hnh & Hc & Hne & _) Hlen.
  rewrite attempt_entry.
  destruct (select_ok wprime k (snd e)) as [vi Hvi]; [now rewrite Hlen |].
  rewrite Hvi. cbn [bind]. destruct (fst e) as [nonce cipher]. cbn [fst snd] in Hnh, Hc, Hne.
  apply unlock_returns_on_locker; try assumption; [reflexivity |].
  apply all_ascii_valid. rewrite all_ascii_append, py_str_ints_ascii.
  now rewrite (lower_hex_all_ascii _ Hnh).
Qed.

Lemma attempt_agree (w wprime : list Z) (k : Z) (r : string) (e : entry) :
  enrolled digest w k r e -> List.length wprime = List.length w ->
  Forall (fun i => nth (Z.to_nat i) wprime 0 = nth (Z.to_nat i) w 0) (snd e) ->
  attempt digest k wprime (py_of_entry e) = Ok (Some r).
Proof.
  intros He Hlen Hagree. destruct He as (Hpos & _ & _ & _ & _ & _ & Ha).
  rewrite attempt_entry in *. now rewrite (select_agree w wprime k (snd e) Hlen Hpos Hagree).
Qed.

Lemma rep_skip_failed (k : Z) (w : list Z) (pre tail : list pyval) :
  Forall (fun x => exists o, attempt digest k w x = Ok o /\ truthy o = false) pre ->
  rep digest (Some k) w (pre ++ tail) = rep digest (Some k) w tail.
Proof.
  induction 1 as [|x pre (o & Ho & Hf) _ IH]; [reflexivity |].
  rewrite <- app_comm_cons, (rep_cons digest _ _ _ _ _ Ho), Hf. exact IH.
Qed.

Lemma gen_loop_head_positions (w : list Z) (n k : Z) (r : string) (l : nat)
      (g g' : Rng) (e : entry) (p : list entry) :
  gen_loop digest w n k r (S l) g = Ok (e :: p, g') ->
  exists g1, randint 0 n k g = Ok (snd e, g1).
Proof.
  cbn [gen_loop]. unfold bindM, lift, ret.
  destruct (randint 0 n k g) as [[ji g1]|] eqn:Er; [| discriminate].
  destruct (select w (py_of_ints ji) k) as [vi|]; [| discriminate].
  destruct (lock digest _ _ _ _ _ _) as [[ci g2]|]; [| discriminate].
  destruct (gen_loop digest w n k r l g2) as [[p' g3]|]; [| discriminate].
  intros [= <- _ _]. now exists g1.
Qed.

End GenEntries.

(** ** The width of an index *)

Section IndexWidth.

Local Open Scope R_scope.

Lemma ln_pow2 (m : nat) : ln (2 ^ m) = INR m * ln 2.
Proof. apply ln_pow. lra. Qed.

Lemma ln_le_compat (x y : R) : 0 < x -> x <= y -> ln x <= ln y.
Proof.
  intros Hx [H | <-]; [| lra]. left. now apply ln_increasing.
Qed.

(** [ceil(log2(n))] is the least [c] with [n <= 2 ^ c]. *)
Lemma ceil_log2_spec (n : Z) :
  (1 <= n)%Z ->
  (0 <= ceil (log2 (IZR n)) /\
   n <= 2 ^ ceil (log2 (IZR n)) /\
   2 ^ ceil (log2 (IZR n)) < 2 * n)%Z.
Proof.
  intros Hn. pose proof ln_2_pos as H2.
  assert (Hn' : 1 <= IZR n) by now apply IZR_le.
  pose proof (ceil_spec (log2 (IZR n))) as [Hlo Hhi].
  pose proof (log2_nonneg _ Hn') as Hx.
  set (c := ceil (log2 (IZR n))) in *. clearbody c.
  assert (Hc : (0 <= c)%Z) by (apply le_IZR; lra).
  assert (Elog : ln (IZR n) = log2 (IZR n) * ln 2) by (unfold log2; field; lra).
  split; [exact Hc |]. split.
  - destruct (Z_le_gt_dec n (2 ^ c)) as [H | H]; [exact H | exfalso].
    assert (Hlt : IZR (2 ^ c) < IZR n) by (apply IZR_lt; lia).
    rewrite <- (Z2Nat.id c Hc), <- pow_IZR in Hlt.
    apply ln_increasing in Hlt; [| apply pow_lt; lra].
    rewrite ln_pow2, INR_IZR_INZ, Z2Nat.id in Hlt by exact Hc.
    rewrite Elog in Hlt. apply Rmult_lt_reg_r in Hlt; lra.
  - destruct (Z.eq_dec c 0) as [E | E]; [rewrite E, Z.pow_0_r; lia |].
    assert (Hc1 : (0 <= c - 1)%Z) by lia.
    replace c with (c - 1 + 1)%Z at 1 by lia. rewrite Z.pow_add_r by lia.
    enough (2 ^ (c - 1) < n)%Z by lia.
    destruct (Z_lt_le_dec (2 ^ (c - 1)) n) as [H | H]; [exact H | exfalso].
    assert (Hle : IZR n <= IZR (2 ^ (c - 1))) by now apply IZR_le.
    rewrite <- (Z2Nat.id (c - 1) Hc1), <- pow_IZR in Hle.
    apply ln_le_compat in Hle; [| lra].
    rewrite ln_pow2, INR_IZR_INZ, Z2Nat.id in Hle by exact Hc1.
    rewrite Elog, minus_IZR in Hle. apply Rmult_le_reg_r in Hle; lra.
Qed.

End IndexWidth.

Lemma token_bytes_np (nbytes : Z) (g g' : Rng) (tok : string) :
  token_bytes nbytes g = Ok (tok, g') -> np_random g' = np_random g.
Proof.
  unfold token_bytes. destruct (nbytes <? 0); [discriminate |].
  now intros [= _ <-].
Qed.

Lemma randint_draws (low high size : Z) (g g' : Rng) (ji : list Z) :
  randint low high size g = Ok (ji, g') ->
  ji = map (fun i => low + Z.of_N (np_random g i) mod (high - low))
           (seq 0 (Z.to_nat size)).
Proof.
  unfold randint. destruct (_ || _); [discriminate |].
  now intros [= <- _].
Qed.

(** The positions of the first entry of the example enrolment. *)
Lemma gen_pattern16_head (digest : string -> string -> N) (lm : Libm) :
  libm_example lm ->
  exists r e rest g',
    gen digest lm pattern16 8 (NInt 1) (NFloat float_1_0) seed
    = Ok ((r, e :: rest), g') /\
    List.length (e :: rest) = 32%nat /\
    snd e = [3; 10; 1; 8; 15; 6; 13; 4].
Proof.
  intros Hlm.
  destruct (gen_pattern16_returns digest lm Hlm) as (r & p & g' & Hg & Hlen).
  destruct p as [|e rest]; [discriminate Hlen |].
  exists r, e, rest, g'. split; [exact Hg |]. split; [exact Hlen |].
  destruct (gen_inv _ _ _ _ _ _ _ _ _ _ Hg) as (tok & g1 & l & Ht & _ & El & Hloop).
  rewrite (set_l_pattern16 lm Hlm) in El. injection El as <-.
  apply token_bytes_np in Ht.
  change (Z.to_nat 32) with (S 31) in Hloop.
  apply gen_loop_head_positions in Hloop as (g2 & Hr).
  apply randint_draws in Hr. rewrite Ht in Hr. rewrite Hr. reflexivity.
Qed.

(** ** serial_monitor.py: the records and their parsing *)

Lemma concat_empty_cons (x : string) (xs : list string) :
  String.concat "" (x :: xs) = (x ++ String.concat "" xs)%string.
Proof.
  destruct xs as [|y ys]; cbn [String.concat]; [now rewrite append_nil_r | reflexivity].
Qed.

Lemma bin_repr_cons (c : ascii) (r : string) :
  bin_repr (String c r) = (byte_str c ++ bin_repr r)%string.
Proof. unfold bin_repr. cbn [list_ascii_of_string map]. apply concat_empty_cons. Qed.

Lemma byte_str_digits (c : ascii) :
  all_bin_digits (byte_str c) = true /\ String.length (byte_str c) = 8%nat.
Proof. destruct c as [[] [] [] [] [] [] [] []]; split; vm_compute; reflexivity. Qed.

Lemma all_bin_digits_append (a b : string) :
  all_bin_digits (a ++ b) = all_bin_digits a && all_bin_digits b.
Proof.
  induction a as [|x a IH]; simpl; [reflexivity |].
  rewrite IH. now rewrite andb_assoc.
Qed.

Lemma bin_repr_digits (line : string) :
  all_bin_digits (bin_repr line) = true /\
  String.length (bin_repr line) = (8 * String.length line)%nat.
Proof.
  induction line as [|c r [IHd IHl]]; [split; reflexivity |].
  rewrite bin_repr_cons, all_bin_digits_append, length_append.
  destruct (byte_str_digits c) as [Hd Hl].
  rewrite Hd, IHd, Hl, IHl. split; [reflexivity | simpl; lia].
Qed.

Lemma bin_digit_cases (c : ascii) : is_bin_digit c = true -> c = "0"%char \/ c = "1"%char.
Proof.
  unfold is_bin_digit. intros H. apply orb_prop in H as [H | H];
    apply Ascii.eqb_eq in H; auto.
Qed.

Lemma bin_digits_ascii (s : string) : all_bin_digits s = true -> all_ascii s = true.
Proof.
  induction s as [|c r IH]; simpl; [reflexivity |].
  intros H. apply andb_prop in H as [Hc Hr]. rewrite (IH Hr), andb_true_r.
  destruct (bin_digit_cases c Hc) as [-> | ->]; reflexivity.
Qed.

Lemma list_ascii_of_string_append (a b : string) :
  list_ascii_of_string (a ++ b) = list_ascii_of_string a ++ list_ascii_of_string b.
Proof. induction a as [|x a IH]; simpl; [reflexivity | now rewrite IH]. Qed.

Lemma ascii_no_conts (s : string) :
  all_ascii s = true -> take_conts s = "" /\ drop_conts s = s.
Proof.
  destruct s as [|c r]; [split; reflexivity |].
  simpl. intros H. apply andb_prop in H as [Hc _]. apply N.ltb_lt in Hc.
  unfold is_cont.
  replace (128 <=? byte_val c)%N with false by (symmetry; apply N.leb_gt; lia).
  split; reflexivity.
Qed.

(** The characters of a [str] below 128 are its bytes. *)
Lemma chars_ascii (s : string) :
  all_ascii s = true ->
  chars s = map (fun c => String c "") (list_ascii_of_string s).
Proof.
  unfold chars. generalize (Nat.le_refl (String.length s)).
  generalize (String.length s) at 2 3. intros fuel. revert s.
  induction fuel as [|fuel IH]; intros s Hlen Hs.
  - destruct s; [reflexivity | simpl in Hlen; lia].
  - destruct s as [|c r]; [reflexivity |].
    simpl in Hs. apply andb_prop in Hs as [_ Hr].
    destruct (ascii_no_conts r Hr) as [Ht Hd].
    cbn [cp_split list_ascii_of_string map]. rewrite Ht, Hd.
    f_equal. apply IH; [simpl in Hlen; lia | exact Hr].
Qed.

Section ParseLineProofs.

Variable unicode_space : string -> bool.
Variable unicode_decimal : string -> option Z.

Lemma byte_str_parse (c : ascii) :
  mapM (int_char unicode_decimal)
       (map (fun a => String a "") (list_ascii_of_string (byte_str c)))
  = Ok (byte_bits (byte_val c)).
Proof. destruct c as [[] [] [] [] [] [] [] []]; vm_compute; reflexivity. Qed.

Lemma bin_repr_parse (line : string) :
  mapM (int_char unicode_decimal)
       (map (fun a => String a "") (list_ascii_of_string (bin_repr line)))
  = Ok (flat_map (fun c => byte_bits (byte_val c)) (list_ascii_of_string line)).
Proof.
  induction line as [|c r IH]; [reflexivity |].
  rewrite bin_repr_cons, list_ascii_of_string_append, map_app, mapM_app.
  rewrite byte_str_parse, IH. reflexivity.
Qed.

Lemma bin_digit_not_space (c : ascii) :
  is_bin_digit c = true -> cp_isspace unicode_space (String c "") = false.
Proof. intros H. destruct (bin_digit_cases c H) as [-> | ->]; reflexivity. Qed.

Lemma lstrip_chars_head (y : string) (l : list string) :
  cp_isspace unicode_space y = false ->
  lstrip_chars unicode_space (y :: l) = y :: l.
Proof. intros H. cbn [lstrip_chars]. now rewrite H. Qed.

(** Stripping a line of binary digits and its line break leaves the
    digits. *)
Lemma strip_chars_record (d : string) :
  all_bin_digits d = true ->
  strip_chars unicode_space (d ++ newline)
  = map (fun a => String a "") (list_ascii_of_string d).
Proof.
  intros Hd. unfold strip_chars.
  rewrite chars_ascii
    by (rewrite all_ascii_append, (bin_digits_ascii d Hd); reflexivity).
  rewrite list_ascii_of_string_append, map_app.
  change (map (fun a => String a "") (list_ascii_of_string newline)) with [newline].
  destruct d as [|c r]; [reflexivity |].
  cbn [all_bin_digits] in Hd. apply andb_prop in Hd as [Hc Hr].
  cbn [list_ascii_of_string map].
  rewrite <- app_comm_cons, lstrip_chars_head by now apply bin_digit_not_space.
  rewrite app_comm_cons.
  set (l := String c "" :: map (fun a => String a "") (list_ascii_of_string r)).
  assert (Hall : Forall (fun y => cp_isspace unicode_space y = false) l).
  { subst l. constructor; [now apply bin_digit_not_space |].
    clear Hc. induction r as [|x r IH]; [constructor |].
    cbn [all_bin_digits] in Hr. apply andb_prop in Hr as [Hx Hr].
    constructor; [now apply bin_digit_not_space | now apply IH]. }
  rewrite rev_app_distr.
  change (List.rev [newline] ++ List.rev l) with (newline :: List.rev l).
  cbn [lstrip_chars].
  change (cp_isspace unicode_space newline) with true. cbn iota.
  assert (Hne : l <> []) by (subst l; discriminate).
  apply Forall_rev in Hall.
  destruct (List.rev l) as [|y l'] eqn:E.
  - apply (f_equal (@List.rev string)) in E. rewrite rev_involutive in E. contradiction.
  - inversion Hall as [|? ? Hy _]; subst.
    rewrite lstrip_chars_head by exact Hy.
    rewrite <- E. apply rev_involutive.
Qed.

Lemma record_parse (line : string) :
  parse_line unicode_space unicode_decimal (bin_repr line ++ newline)
  = Ok (flat_map (fun c => byte_bits (byte_val c)) (list_ascii_of_string line)).
Proof.
  unfold parse_line.
  rewrite strip_chars_record by apply bin_repr_digits.
  apply bin_repr_parse.
Qed.

End ParseLineProofs.

Lemma byte_bits_form (b : N) :
  List.length (byte_bits b) = 8%nat /\ is_bits (byte_bits b).
Proof.
  split; [reflexivity |].
  unfold byte_bits, is_bits.
  repeat (apply Forall_cons; [destruct (N.testbit b _); [right | left]; reflexivity |]).
  constructor.
Qed.

Lemma flat_map_bits (l : list ascii) :
  List.length (flat_map (fun c => byte_bits (byte_val c)) l) = (8 * List.length l)%nat /\
  is_bits (flat_map (fun c => byte_bits (byte_val c)) l).
Proof.
  induction l as [|c l [IHl IHb]]; [split; [reflexivity | constructor] |].
  cbn [flat_map]. rewrite length_app.
  destruct (byte_bits_form (byte_val c)) as [Hl Hb]. rewrite Hl, IHl.
  split; [simpl; lia |]. unfold is_bits in *. apply Forall_app. now split.
Qed.

Lemma length_list_ascii (s : string) :
  List.length (list_ascii_of_string s) = String.length s.
Proof. induction s as [|c r IH]; simpl; [reflexivity | now rewrite IH]. Qed.

(** *** bytes.strip *)

Lemma bytes_lstrip_length (b : string) :
  (String.length (bytes_lstrip b) <= String.length b)%nat.
Proof.
  induction b as [|c r IH]; simpl; [lia |].
  destruct (is_space c); simpl; lia.
Qed.

Lemma bytes_rstrip_length (b : string) :
  (String.length (bytes_rstrip b) <= String.length b)%nat.
Proof.
  induction b as [|c r IH]; simpl; [lia |].
  destruct (bytes_rstrip r) as [|a r'].
  - destruct (is_space c); simpl; lia.
  - simpl in *. lia.
Qed.

Lemma bytes_lstrip_same (b : string) :
  String.length (bytes_lstrip b) = String.length b <->
  match b with
  | EmptyString => True
  | String c _ => is_space c = false
  end.
Proof.
  destruct b as [|c r]; [simpl; tauto |].
  cbn [bytes_lstrip]. destruct (is_space c).
  - pose proof (bytes_lstrip_length r). simpl. split; [lia | discriminate].
  - split; reflexivity.
Qed.

Lemma bytes_rstrip_empty (b : string) :
  bytes_rstrip b = "" <-> all_bytes_space b = true.
Proof.
  induction b as [|c r IH]; [simpl; tauto |].
  cbn [bytes_rstrip all_bytes_space].
  destruct (bytes_rstrip r) as [|a r'].
  - destruct (is_space c); simpl.
    + split; [intros _; now apply IH | reflexivity].
    + split; discriminate.
  - split; [discriminate |]. intros H. apply andb_prop in H as [_ H].
    apply IH in H. discriminate H.
Qed.

Lemma last_byte_some (c : ascii) (r : string) : exists d, last_byte (String c r) = Some d.
Proof.
  revert c. induction r as [|a r IH]; intros c; [now exists c |].
  destruct (IH a) as [d Hd]. exists d. exact Hd.
Qed.

Lemma bytes_rstrip_same (b : string) :
  String.length (bytes_rstrip b) = String.length b <->
  match last_byte b with
  | None => True
  | Some c => is_space c = false
  end.
Proof.
  induction b as [|c r IH]; [simpl; tauto |].
  cbn [bytes_rstrip last_byte].
  pose proof (bytes_rstrip_length r) as Hle.
  destruct r as [|a r'].
  - simpl. destruct (is_space c); simpl; split; try discriminate; reflexivity.
  - destruct (bytes_rstrip (String a r')) as [|x y] eqn:E.
    + assert (Hs : all_bytes_space (String a r') = true) by now apply bytes_rstrip_empty.
      destruct (last_byte (String a r')) as [z|] eqn:El.
      * destruct IH as [_ IH].
        split.
        -- destruct (is_space c); simpl; intros H; lia.
        -- intros Hz. specialize (IH Hz). simpl in IH. discriminate IH.
      * destruct (last_byte_some a r') as [d Hd]. congruence.
    + rewrite <- IH. simpl. split; intros H; lia.
Qed.

Lemma all_bytes_space_lstrip (b : string) :
  all_bytes_space (bytes_lstrip b) = all_bytes_space b.
Proof.
  induction b as [|c r IH]; [reflexivity |].
  cbn [bytes_lstrip all_bytes_space]. destruct (is_space c) eqn:E; [exact IH |].
  cbn [all_bytes_space]. now rewrite E.
Qed.

Lemma bytes_strip_empty (b : string) :
  bytes_strip b = "" <-> all_bytes_space b = true.
Proof.
  unfold bytes_strip. rewrite bytes_rstrip_empty. now rewrite all_bytes_space_lstrip.
Qed.

Lemma bytes_strip_length (b : string) :
  (String.length (bytes_strip b) <= String.length b)%nat.
Proof.
  unfold bytes_strip.
  pose proof (bytes_rstrip_length (bytes_lstrip b)). pose proof (bytes_lstrip_length b). lia.
Qed.

Lemma bytes_strip_same (b : string) :
  String.length (bytes_strip b) = String.length b <->
  match b, last_byte b with
  | String c _, Some d => is_space c = false /\ is_space d = false
  | _, _ => True
  end.
Proof.
  unfold bytes_strip.
  pose proof (bytes_rstrip_length (bytes_lstrip b)) as H1.
  pose proof (bytes_lstrip_length b) as H2.
  destruct b as [|c r]; [simpl; tauto |].
  destruct (last_byte_some c r) as [d El]. rewrite El.
  split.
  - intros H.
    assert (Hl : String.length (bytes_lstrip (String c r)) = String.length (String c r)) by lia.
    pose proof (proj1 (bytes_lstrip_same (String c r)) Hl) as Hc. cbn beta iota in Hc.
    split; [exact Hc |].
    cbn [bytes_lstrip] in H. rewrite Hc in H.
    apply bytes_rstrip_same in H. now rewrite El in H.
  - intros [Hc Hd]. cbn [bytes_lstrip]. rewrite Hc.
    apply bytes_rstrip_same. now rewrite El.
Qed.

(** ** analysis.py: the unstable bits *)

Lemma fold_min_spec (rest : list (list Z)) (m0 : Z) :
  let m := fold_left (fun m line => Z.min m (Z.of_nat (List.length line))) rest m0 in
  m <= m0 /\
  Forall (fun line => m <= Z.of_nat (List.length line)) rest /\
  (m = m0 \/ Exists (fun line => m = Z.of_nat (List.length line)) rest).
Proof.
  revert m0. induction rest as [|x rest IH]; intros m0; cbn [fold_left].
  - split; [lia |]. split; [constructor | now left].
  - specialize (IH (Z.min m0 (Z.of_nat (List.length x)))). cbv zeta in *.
    destruct IH as (H1 & H2 & H3). split; [lia |]. split.
    + constructor; [lia | exact H2].
    + destruct H3 as [H3 | H3]; [| right; now apply Exists_cons_tl].
      destruct (Z.min_spec m0 (Z.of_nat (List.length x))) as [[_ E] | [_ E]];
        [left | right; constructor]; congruence.
Qed.

Lemma min_len_spec (l0 : list Z) (rest : list (list Z)) :
  exists m,
    min_len (l0 :: rest) = Ok m /\ 0 <= m /\
    Forall (fun line => m <= Z.of_nat (List.length line)) (l0 :: rest) /\
    Exists (fun line => m = Z.of_nat (List.length line)) (l0 :: rest).
Proof.
  unfold min_len. rewrite py_index_head. cbn [bind tl].
  destruct (fold_min_spec rest (Z.of_nat (List.length l0))) as (H1 & H2 & H3).
  eexists. split; [reflexivity |]. split; [| split].
  - destruct H3 as [-> | H3]; [lia |].
    apply Exists_exists in H3 as (x & _ & ->). lia.
  - constructor; assumption.
  - destruct H3 as [H3 | H3]; [now constructor | now apply Exists_cons_tl].
Qed.

Lemma add_items_spec (summ a : list Z) :
  List.length a = List.length summ ->
  List.length (add_items summ a) = List.length summ /\
  forall i, nth i (add_items summ a) 0 = nth i summ 0 + nth i a 0.
Proof.
  revert a. induction summ as [|x summ IH]; intros [|y a] H; try discriminate H.
  - split; [reflexivity |]. intros [|i]; reflexivity.
  - injection H as H. destruct (IH a H) as [Hl Hn].
    cbn [add_items List.length]. split; [now rewrite Hl |].
    intros [|i]; [reflexivity | apply Hn].
Qed.

Lemma sum_lines_spec (n : nat) (lines : list (list Z)) :
  Forall (fun line => List.length line = n) lines ->
  forall summ, List.length summ = n ->
  exists s,
    sum_lines summ lines = Ok s /\ List.length s = n /\
    forall i, nth i s 0 = nth i summ 0 + zsum (column i lines).
Proof.
  induction 1 as [|line lines Hl _ IH]; intros summ Hs.
  - exists summ. split; [reflexivity |]. split; [exact Hs |]. intros i. simpl. lia.
  - cbn [sum_lines]. unfold array_iadd.
    replace (Nat.eqb (List.length line) (List.length summ)) with true
      by (symmetry; apply Nat.eqb_eq; congruence).
    cbn [bind].
    destruct (add_items_spec summ line ltac:(congruence)) as [Hl' Hn].
    destruct (IH (add_items summ line) ltac:(congruence)) as (s & Hsum & Hlen & Hnth).
    exists s. split; [exact Hsum |]. split; [exact Hlen |].
    intros i. rewrite Hnth, Hn. cbn [column map zsum fold_right].
    fold (column i lines). fold (zsum (column i lines)). lia.
Qed.

Lemma unstable_from_spec (count : Z) (ch : list Z) :
  forall i0 j,
    In j (unstable_from i0 count ch) <->
    exists p, (p < List.length ch)%nat /\ j = i0 + Z.of_nat p /\
              nth p ch 0 <> 0 /\ nth p ch 0 <> count.
Proof.
  induction ch as [|bit ch IH]; intros i0 j.
  - simpl. split; [tauto | intros (p & Hp & _); lia].
  - cbn [unstable_from].
    assert (Hrest : In j (unstable_from (i0 + 1) count ch) <->
                    exists p, (S p < List.length (bit :: ch))%nat /\
                              j = i0 + Z.of_nat (S p) /\
                              nth (S p) (bit :: ch) 0 <> 0 /\
                              nth (S p) (bit :: ch) 0 <> count).
    { rewrite IH. split; intros (p & Hp & Hj & Hn); exists p; cbn [List.length nth] in *;
        (split; [lia |]); (split; [lia | exact Hn]). }
    destruct (negb (bit =? 0) && negb (bit =? count)) eqn:E.
    + apply andb_prop in E as [E0 Ec].
      apply negb_true_iff in E0, Ec. apply Z.eqb_neq in E0, Ec.
      cbn [In]. rewrite Hrest. split.
      * intros [<- | (p & Hp)]; [| now exists (S p)].
        exists O. cbn [List.length nth]. repeat split; try assumption; lia.
      * intros ([|p] & Hp & Hj & Hn); [left; lia | right; now exists p].
    + rewrite Hrest. split.
      * intros (p & Hp). now exists (S p).
      * intros ([|p] & Hp & Hj & Hn0 & Hnc); [| now exists p].
        cbn [nth] in Hn0, Hnc.
        apply andb_false_iff in E as [E | E]; apply negb_false_iff, Z.eqb_eq in E;
          contradiction.
Qed.

Lemma zsum_bits_bounds (c : list Z) :
  is_bits c -> 0 <= zsum c <= Z.of_nat (List.length c).
Proof.
  intros Hc. induction Hc as [|x c Hx _ IH]; [simpl; lia |].
  cbn [zsum fold_right List.length]. fold (zsum c).
  destruct Hx as [-> | ->]; lia.
Qed.

Lemma zsum_bits_one (c : list Z) : is_bits c -> (zsum c <> 0 <-> In 1 c).
Proof.
  intros Hc. induction Hc as [|x c Hx Hc IH]; [simpl; tauto |].
  pose proof (zsum_bits_bounds c Hc) as Hb.
  cbn [zsum fold_right In]. fold (zsum c).
  destruct Hx as [-> | ->].
  - rewrite Z.add_0_l, IH. split; [tauto | intros [H | H]; [discriminate | exact H]].
  - split; [now left | lia].
Qed.

Lemma zsum_bits_zero (c : list Z) :
  is_bits c -> (zsum c <> Z.of_nat (List.length c) <-> In 0 c).
Proof.
  intros Hc. induction Hc as [|x c Hx Hc IH]; [simpl; tauto |].
  pose proof (zsum_bits_bounds c Hc) as Hb.
  cbn [zsum fold_right In List.length]. fold (zsum c).
  destruct Hx as [-> | ->].
  - split; [now left | lia].
  - split.
    + intros H. right. apply IH. lia.
    + intros [H | H]; [discriminate |]. apply IH in H. lia.
Qed.

Lemma is_bits_nth (line : list Z) (i : nat) :
  is_bits line -> nth i line 0 = 0 \/ nth i line 0 = 1.
Proof.
  intros H. revert i. induction H as [|x line Hx _ IH]; intros [|i]; cbn [nth]; auto.
Qed.

Lemma column_bits (i : nat) (lines : list (list Z)) :
  Forall is_bits lines -> is_bits (column i lines).
Proof.
  induction 1 as [|line lines Hl _ IH]; [constructor |].
  constructor; [now apply is_bits_nth | exact IH].
Qed.

Lemma column_slices (i : nat) (m : Z) (lines : list (list Z)) :
  (i < Z.to_nat m)%nat -> column i (map (py_slice_to m) lines) = column i lines.
Proof.
  intros Hi. unfold column. rewrite map_map. apply map_ext. intros line.
  unfold py_slice_to. rewrite nth_firstn.
  now replace (i <? Z.to_nat m)%nat with true by (symmetry; apply Nat.ltb_lt; exact Hi).
Qed.

Lemma length_column (i : nat) (lines : list (list Z)) :
  List.length (column i lines) = List.length lines.
Proof. apply length_map. Qed.

(** A position is mixed when one line has 0 and another has 1 there. *)
Lemma column_mixed (i : nat) (lines : list (list Z)) :
  Forall is_bits lines ->
  (In 0 (column i lines) /\ In 1 (column i lines) <->
   exists a b, In a lines /\ In b lines /\ nth i a 0 <> nth i b 0).
Proof.
  intros Hb. unfold column. rewrite !in_map_iff. split.
  - intros [(a & Ha & Hina) (b & Hb1 & Hinb)]. exists a, b.
    split; [exact Hina |]. split; [exact Hinb | lia].
  - intros (a & b & Ha & Hb' & Hne).
    rewrite Forall_forall in Hb.
    destruct (is_bits_nth a i (Hb a Ha)) as [Ea | Ea],
             (is_bits_nth b i (Hb b Hb')) as [Eb | Eb]; try lia.
    + split; [now exists a | now exists b].
    + split; [now exists b | now exists a].
Qed.

Lemma nth_changes (count : Z) (summ : list Z) (p : nat) :
  nth p (changes count summ) 0
  = if (nth p summ 0 =? count) || (nth p summ 0 =? 0) then 0 else 1.
Proof.
  revert p. induction summ as [|x summ IH]; intros [|p]; cbn [changes map nth];
    try reflexivity; try (now rewrite orb_true_r).
  apply IH.
Qed.

(** The computation returns on every list of lines but the empty one. *)
Lemma unstable_bits_returns (lines : list (list Z)) :
  lines <> [] ->
  exists m u,
    min_len lines = Ok m /\
    Forall (fun line => m <= Z.of_nat (List.length line)) lines /\
    unstable_bits lines = Ok u.
Proof.
  intros Hne. destruct lines as [|l0 rest]; [congruence |].
  destruct (min_len_spec l0 rest) as (m & Hmin & Hm0 & Hall & _).
  exists m. unfold unstable_bits. rewrite Hmin. cbn [bind map].
  rewrite py_index_head. cbn [bind].
  assert (Hlens : Forall (fun line => List.length line = Z.to_nat m)
                         (map (py_slice_to m) (l0 :: rest))).
  { apply Forall_map. eapply Forall_impl; [| exact Hall]. cbn beta. intros line Hline.
    unfold py_slice_to. apply firstn_length_le. lia. }
  destruct (sum_lines_spec (Z.to_nat m) _ Hlens (repeat 0 (List.length (py_slice_to m l0))))
    as (s & Hsum & _).
  { rewrite repeat_length. now inversion Hlens. }
  cbn [map] in Hsum. rewrite Hsum. cbn [bind]. eexists. split; [reflexivity |].
  split; [exact Hall | reflexivity].
Qed.

(** * Further properties of the code *)

(** ** patterns.py *)

(** X1: [hamming_distance] returns -1 exactly when the two lists differ in
    length, and otherwise a count between 0 and that length. *)
Theorem hamming_distance_range (a b : list Z) :
  (List.length a <> List.length b /\ hamming_distance a b = -1) \/
  (List.length a = List.length b /\
   0 <= hamming_distance a b <= Z.of_nat (List.length a)).
Proof.
  destruct (Nat.eq_dec (List.length a) (List.length b)) as [E | E].
  - right. split; [exact E |].
    rewrite hamming_distance_same_length by exact E. apply count_diff_bounds.
  - left. split; [exact E | now apply hamming_distance_other_length].
Qed.

(** X2: the distance is 0 exactly for equal lists. *)
Theorem hamming_distance_zero_iff_equal (a b : list Z) :
  hamming_distance a b = 0 <-> a = b.
Proof.
  destruct (Nat.eq_dec (List.length a) (List.length b)) as [E | E].
  - rewrite hamming_distance_same_length by exact E. now apply count_diff_zero.
  - rewrite hamming_distance_other_length by exact E.
    split; [discriminate | intros ->; contradiction].
Qed.

(** X3: the distance does not depend on the order of its arguments. *)
Theorem hamming_distance_symmetric (a b : list Z) :
  hamming_distance a b = hamming_distance b a.
Proof.
  unfold hamming_distance. rewrite (Nat.eqb_sym (List.length b)).
  destruct (Nat.eqb _ _); [apply count_diff_sym | reflexivity].
Qed.

(** X4: on lists of one length the distance obeys the triangle
    inequality. *)
Theorem hamming_distance_triangle (a b c : list Z) :
  List.length a = List.length b -> List.length b = List.length c ->
  hamming_distance a c <= hamming_distance a b + hamming_distance b c.
Proof.
  intros Hab Hbc.
  rewrite !hamming_distance_same_length by congruence.
  now apply count_diff_triangle.
Qed.

Lemma hamming_distance_triangle_example :
  hamming_distance [0; 1; 1; 0] [1; 1; 0; 0]
  <= hamming_distance [0; 1; 1; 0] [0; 0; 1; 0] + hamming_distance [0; 0; 1; 0] [1; 1; 0; 0].
Proof.
  apply (hamming_distance_triangle [0; 1; 1; 0] [0; 0; 1; 0] [1; 1; 0; 0]); reflexivity.
Defined.

(** X5: [complementary_hamming_distance] returns -1 when the lengths
    differ, and otherwise a value between 0 and half the length. *)
Theorem complementary_hamming_distance_range (a b : list Z) :
  (List.length a <> List.length b /\ complementary_hamming_distance a b = -1) \/
  (List.length a = List.length b /\
   0 <= complementary_hamming_distance a b /\
   2 * complementary_hamming_distance a b <= Z.of_nat (List.length a)).
Proof.
  unfold complementary_hamming_distance.
  destruct (Nat.eq_dec (List.length a) (List.length b)) as [E | E].
  - right. split; [exact E |].
    rewrite hamming_distance_same_length by exact E.
    pose proof (count_diff_bounds a b). lia.
  - left. split; [exact E |]. rewrite hamming_distance_other_length by exact E. lia.
Qed.

(** X6: on two readings of one length, the complementary distance to a
    pattern and to its bitwise complement are equal. *)
Theorem complementary_hamming_distance_complement (a b : list Z) :
  is_bits a -> is_bits b -> List.length a = List.length b ->
  complementary_hamming_distance a (complement b) = complementary_hamming_distance a b.
Proof.
  intros Ha Hb E. unfold complementary_hamming_distance.
  rewrite !hamming_distance_same_length by (rewrite ?length_complement; exact E).
  rewrite (count_diff_complement a b Ha Hb E). lia.
Qed.

Lemma complementary_hamming_distance_complement_example :
  complementary_hamming_distance [0; 1; 1; 0] (complement [0; 1; 0; 0])
  = complementary_hamming_distance [0; 1; 1; 0] [0; 1; 0; 0].
Proof.
  apply (complementary_hamming_distance_complement [0; 1; 1; 0] [0; 1; 0; 0]);
    [solve_is_bits | solve_is_bits | reflexivity].
Defined.

(** X7: [switch] raises ValueError for a negative number of bits; for
    [bits >= 0] it returns a list of the same length that differs from the
    pattern in exactly [min(len(pattern), bits)] positions, and that is a
    reading when the pattern is. *)
Theorem switch_flips_min_len_bits (pattern : list Z) (bits : Z) (g : Rng) :
  (bits < 0 -> switch pattern bits g = Raise ValueError) /\
  (0 <= bits ->
   exists res g',
     switch pattern bits g = Ok (res, g') /\
     List.length res = List.length pattern /\
     hamming_distance pattern res = Z.min (Z.of_nat (List.length pattern)) bits /\
     (is_bits pattern -> is_bits res)).
Proof.
  split.
  - intros Hb. unfold switch, bindM, choice.
    replace (Z.min (Z.of_nat (List.length pattern)) bits) with bits by lia.
    replace (bits =? 0) with false by (symmetry; apply Z.eqb_neq; lia).
    replace (bits <? 0) with true by (symmetry; apply Z.ltb_lt; lia).
    destruct (_ <=? 0); cbn [andb negb]; [reflexivity |].
    destruct (_ <? bits); reflexivity.
  - intros Hb.
    destruct (switch_toggles pattern bits g Hb) as (res & g' & Hs & Hl & Hc & Hbits).
    exists res, g'. split; [exact Hs |]. split; [exact Hl |]. split; [| exact Hbits].
    rewrite hamming_distance_same_length by (symmetry; exact Hl). exact Hc.
Qed.

Lemma switch_flips_min_len_bits_example :
  switch pattern16 (-1) seed = Raise ValueError /\
  exists res g',
    switch pattern16 3 seed = Ok (res, g') /\
    List.length res = 16%nat /\
    hamming_distance pattern16 res = 3 /\
    is_bits res.
Proof.
  destruct (switch_flips_min_len_bits pattern16 (-1) seed) as [Hneg _].
  destruct (switch_flips_min_len_bits pattern16 3 seed) as [_ Hpos].
  split; [apply Hneg; lia |].
  destruct (Hpos ltac:(lia)) as (res & g' & Hs & Hl & Hd & Hb).
  exists res, g'. repeat split; try assumption.
  apply Hb. unfold pattern16. solve_is_bits.
Defined.

(** X8: asking [switch] for at least as many bits as the reading has
    returns the bitwise complement of the reading. *)
Theorem switch_all_bits_is_complement (pattern : list Z) (bits : Z) (g : Rng) :
  is_bits pattern -> Z.of_nat (List.length pattern) <= bits ->
  exists g', switch pattern bits g = Ok (complement pattern, g').
Proof.
  intros Hp Hb.
  destruct (switch_toggles pattern bits g ltac:(lia)) as (res & g' & Hs & Hl & Hc & Hbits).
  exists g'. rewrite Hs. do 2 f_equal.
  apply complement_unique; [exact Hp | now apply Hbits | now symmetry | lia].
Qed.

Lemma switch_all_bits_is_complement_example :
  exists g', switch [0; 1; 1; 0] 9 seed = Ok (complement [0; 1; 1; 0], g').
Proof.
  apply (switch_all_bits_is_complement [0; 1; 1; 0] 9 seed);
    [solve_is_bits | simpl; lia].
Defined.

(** X9: the readings that the experiment of canetti.py builds,
    [w = get_pattern(n)] and later [wprime = switch(w, t)] with [n >= 0]
    and [t >= 0], are two readings of [n] bits at distance [min(n, t)],
    whatever was drawn in between. *)
Theorem experiment_readings (n t : Z) (g : Rng) :
  0 <= n -> 0 <= t ->
  exists w g1,
    get_pattern n 0 1 g = Ok (w, g1) /\
    is_bits w /\ Z.of_nat (List.length w) = n /\
    forall g2, exists wprime g3,
      switch w t g2 = Ok (wprime, g3) /\
      is_bits wprime /\ Z.of_nat (List.length wprime) = n /\
      hamming_distance w wprime = Z.min n t.
Proof.
  intros Hn Ht.
  destruct (get_pattern_bits n g Hn) as (w & g1 & Hw & Hl & Hb).
  exists w, g1. split; [exact Hw |]. split; [exact Hb |]. split; [exact Hl |].
  intros g2.
  destruct (switch_toggles w t g2 Ht) as (w' & g3 & Hs & Hl' & Hc & Hb').
  exists w', g3. split; [exact Hs |]. split; [now apply Hb' |]. split; [congruence |].
  rewrite hamming_distance_same_length by (symmetry; exact Hl'). now rewrite Hc, Hl.
Qed.

Lemma experiment_readings_example :
  exists w g1,
    get_pattern 1024 0 1 seed = Ok (w, g1) /\
    is_bits w /\ Z.of_nat (List.length w) = 1024 /\
    forall g2, exists wprime g3,
      switch w 31 g2 = Ok (wprime, g3) /\
      is_bits wprime /\ Z.of_nat (List.length wprime) = 1024 /\
      hamming_distance w wprime = Z.min 1024 31.
Proof. apply (experiment_readings 1024 31 seed); lia. Defined.

(** ** digitallocker.py *)


(** X11: what [lock] returns is a nonce of [2 * nbytes] lower-case
    hexadecimal digits and a non-empty lower-case hexadecimal numeral that
    reads as the digest of [nonce + str(key)] xor the padded value. *)
Theorem lock_output_form
        (digest : string -> string -> N) (key : pykey) (val : string)
        (s : Z) (alg : pyval) (nbytes : Z) (g g' : Rng) (nonce cipher : string) :
  lock digest key val s alg nbytes g = Ok ((nonce, cipher), g') ->
  Z.of_nat (String.length nonce) = 2 * nbytes /\
  all_lower_hex nonce = true /\
  all_lower_hex cipher = true /\ cipher <> "" /\
  exists v,
    int16_str (bytes_hex (val ++ py_repeat "0" s)) = Ok v /\
    int16_str cipher
    = Ok (Z.lxor (Z.of_N (digest (hash_alg alg) (nonce ++ py_str key)%string)) v).
Proof.
  intros Hl.
  destruct (lock_form digest _ _ _ _ _ _ _ _ _ Hl)
    as (Hlen & Hn & Hc & Hne & h & v & Hh & Hv & Hx).
  repeat (split; [assumption |]).
  exists v. split; [exact Hv |].
  unfold nonce_key_hash in Hh. destruct (_ || _); [discriminate |].
  injection Hh as <-. exact Hx.
Qed.

Lemma lock_output_form_example :
  Z.of_nat (String.length (fst example_locker)) = 2 * default_nbytes /\
  all_lower_hex (fst example_locker) = true /\
  all_lower_hex (snd example_locker) = true /\ snd example_locker <> "" /\
  exists v,
    int16_str (bytes_hex ("b'a'" ++ py_repeat "0" default_s)) = Ok v /\
    int16_str (snd example_locker)
    = Ok (Z.lxor (Z.of_N (poly_digest (hash_alg default_alg)
                            (fst example_locker ++ py_str (KInts [1]))%string)) v).
Proof.
  destruct (lock_returns poly_digest (KInts [1]) "b'a'" default_s default_alg
              default_nbytes seed) as (c & g' & Hl);
    [unfold default_nbytes; lia | reflexivity | left; unfold default_s; lia
    | reflexivity | reflexivity |].
  assert (E : c = example_locker).
  { assert (H : match lock poly_digest (KInts [1]) "b'a'" default_s default_alg
                        default_nbytes seed with
                | Ok (c, _) => c
                | Raise _ => ("", "")
                end = example_locker) by (vm_compute; reflexivity).
    rewrite Hl in H. exact H. }
  subst c.
  apply (lock_output_form poly_digest (KInts [1]) "b'a'" default_s default_alg
           default_nbytes seed g' (fst example_locker) (snd example_locker)).
  exact Hl.
Defined.

(** X12: whatever the key, the locker and [s], a value that [unlock]
    returns never ends in the character ["0"]. *)
Theorem unlock_never_ends_with_zero
        (digest : string -> string -> N) (key : pykey) (c : pyval) (s : Z)
        (alg : pyval) (v : string) :
  unlock digest key c s alg = Ok (Some v) -> ends_with "0" v = false.
Proof. apply unlock_ends. Qed.

Lemma unlock_never_ends_with_zero_example :
  unlock poly_digest (KInts [1]) (py_of_locker example_locker) default_s default_alg
  = Ok (Some "b'a'") /\
  ends_with "0" "b'a'" = false.
Proof.
  assert (H : unlock poly_digest (KInts [1]) (py_of_locker example_locker)
                default_s default_alg = Ok (Some "b'a'")) by (vm_compute; reflexivity).
  split; [exact H |].
  exact (unlock_never_ends_with_zero poly_digest (KInts [1]) (py_of_locker example_locker)
           default_s default_alg "b'a'" H).
Defined.

(** X13: with [s = 0] [unlock] never returns a value: for every key,
    locker and algorithm it returns [None] or raises. *)
Theorem unlock_without_check_fails
        (digest : string -> string -> N) (key : pykey) (c : pyval) (alg : pyval) :
  unlock digest key c 0 alg = Ok None \/
  exists e, unlock digest key c 0 alg = Raise e.
Proof.
  unfold unlock.
  destruct (unpack2 c) as [[nonce x]|[]]; try (right; eexists; reflexivity);
    try (left; reflexivity).
  destruct (add_str nonce (py_str key)) as [joined|]; [| right; eexists; reflexivity].
  cbn [bind].
  destruct (encode joined) as [msg|]; [| right; eexists; reflexivity]. cbn [bind].
  destruct (nonce_key_hash digest (hash_alg alg) msg) as [h|];
    [| right; eexists; reflexivity]. cbn [bind].
  destruct (py_int16 x) as [z|]; [| right; eexists; reflexivity]. cbn [bind].
  left.
  destruct (bytes_fromhex _) as [b|] eqn:Eb; [| reflexivity].
  unfold decode. destruct (utf8_valid b); [| reflexivity].
  destruct b as [|a r]; [exfalso; exact (fromhex_hex_body_nonempty _ Eb) |].
  reflexivity.
Qed.





(** ** canetti.py *)



(** X16: any non-empty selection of the entries that [gen] returned, in
    any order, makes [rep] return the key on the enrolled reading, when
    [rep] finds gen's [k] under the name [k]. *)
Theorem rep_any_entries_reproduce
        (digest : string -> string -> N) (lm : Libm) (w : list Z) (k : Z)
        (t delta : pynum)
        (g g' : Rng) (r : string) (p q : list entry) :
  gen digest lm w k t delta g = Ok ((r, p), g') ->
  q <> [] -> (forall e, In e q -> In e p) ->
  rep digest (Some k) w (map py_of_entry q) = Ok (Some r).
Proof.
  intros Hg Hq Hin.
  pose proof (gen_entries_enrolled digest lm _ _ _ _ _ _ _ _ Hg) as Hall.
  rewrite Forall_forall in Hall.
  destruct q as [|e q]; [congruence |].
  destruct (Hall e (Hin e (or_introl eq_refl))) as (_ & _ & _ & _ & _ & _ & Ha).
  cbn [map]. rewrite (rep_cons digest _ _ _ _ _ Ha).
  destruct (gen_inv _ _ _ _ _ _ _ _ _ _ Hg) as (tok & _ & _ & _ & -> & _).
  reflexivity.
Qed.

Lemma rep_any_entries_reproduce_example :
  exists r p g',
    gen poly_digest libm_table pattern16 8 (NInt 1) (NFloat float_1_0) seed = Ok ((r, p), g') /\
    rep poly_digest (Some 8) pattern16 (map py_of_entry (List.rev p)) = Ok (Some r).
Proof.
  destruct (gen_pattern16_returns poly_digest libm_table libm_table_example)
    as (r & p & g' & Hg & Hlen).
  exists r, p, g'. split; [exact Hg |].
  apply (rep_any_entries_reproduce poly_digest libm_table pattern16 8 (NInt 1)
           (NFloat float_1_0) seed g' r p (List.rev p) Hg).
  - intros E. apply (f_equal (@List.length entry)) in E.
    rewrite length_rev, Hlen in E. discriminate E.
  - intros e He. now apply in_rev.
Defined.

(** X17: on helper data from [gen], a reading of the enrolled length
    reproduces the key as soon as it agrees with the enrolled reading on
    the positions of one entry and the entries tried before it gave no
    true result, when [rep] finds gen's [k] under the name [k]. *)
Theorem rep_reproduces_from_agreeing_entry
        (digest : string -> string -> N) (lm : Libm) (w wprime : list Z) (k : Z)
        (t delta : pynum)
        (g g' : Rng) (r : string) (pre : list entry) (e : entry) (rest : list entry) :
  gen digest lm w k t delta g = Ok ((r, pre ++ e :: rest), g') ->
  List.length wprime = List.length w ->
  Forall (fun i => nth (Z.to_nat i) wprime 0 = nth (Z.to_nat i) w 0) (snd e) ->
  Forall (fun x => exists o, attempt digest k wprime (py_of_entry x) = Ok o /\
                             truthy o = false) pre ->
  rep digest (Some k) wprime (map py_of_entry (pre ++ e :: rest)) = Ok (Some r).
Proof.
  intros Hg Hlen Hagree Hpre.
  pose proof (gen_entries_enrolled digest lm _ _ _ _ _ _ _ _ Hg) as Hall.
  rewrite Forall_forall in Hall.
  assert (He : enrolled digest w k r e) by (apply Hall, in_elt).
  rewrite map_app. cbn [map]. rewrite rep_skip_failed.
  - rewrite (rep_cons digest _ _ _ _ _ (attempt_agree digest _ _ _ _ _ He Hlen Hagree)).
    destruct (gen_inv _ _ _ _ _ _ _ _ _ _ Hg) as (tok & _ & _ & _ & -> & _).
    reflexivity.
  - apply Forall_forall. intros x Hx. apply in_map_iff in Hx as (y & <- & Hy).
    rewrite Forall_forall in Hpre. now apply Hpre.
Qed.

(** The example reading with its first bit flipped. *)
Lemma rep_reproduces_from_agreeing_entry_example :
  exists r e rest g',
    gen poly_digest libm_table pattern16 8 (NInt 1) (NFloat float_1_0) seed = Ok ((r, [] ++ e :: rest), g') /\
    rep poly_digest (Some 8) (1 :: tl pattern16) (map py_of_entry ([] ++ e :: rest))
    = Ok (Some r).
Proof.
  destruct (gen_pattern16_head poly_digest libm_table libm_table_example)
    as (r & e & rest & g' & Hg & _ & Hji).
  exists r, e, rest, g'. split; [exact Hg |].
  apply (rep_reproduces_from_agreeing_entry poly_digest libm_table pattern16 (1 :: tl pattern16) 8 (NInt 1)
           (NFloat float_1_0) seed g' r [] e rest Hg).
  - reflexivity.
  - rewrite Hji. repeat (constructor; [reflexivity |]). constructor.
  - constructor.
Defined.

(** X18: on helper data from [gen] and a reading of the enrolled length,
    [rep] raises nothing when it finds gen's [k] under the name [k]: it
    returns [None] or a non-empty string that does not end in ["0"]. *)
Theorem rep_returns_on_enrolled_length
        (digest : string -> string -> N) (lm : Libm) (w wprime : list Z) (k : Z)
        (t delta : pynum)
        (g g' : Rng) (r : string) (p : list entry) :
  gen digest lm w k t delta g = Ok ((r, p), g') ->
  List.length wprime = List.length w ->
  rep digest (Some k) wprime (map py_of_entry p) = Ok None \/
  exists v,
    rep digest (Some k) wprime (map py_of_entry p) = Ok (Some v) /\
    v <> "" /\ ends_with "0" v = false.
Proof.
  intros Hg Hlen.
  pose proof (gen_entries_enrolled digest lm _ _ _ _ _ _ _ _ Hg) as Hall.
  clear Hg. induction Hall as [|e p He _ IH]; [now left |].
  destruct (attempt_returns_on_enrolled digest w wprime k r e He Hlen) as [o Ho].
  cbn [map]. rewrite (rep_cons digest _ _ _ _ _ Ho).
  destruct (truthy o) eqn:Et; [| exact IH].
  right. destruct o as [[|c v]|]; try discriminate Et.
  exists (String c v). split; [reflexivity |]. split; [discriminate |].
  rewrite attempt_entry in Ho.
  destruct (select wprime (py_of_ints (snd e)) k) as [vi|]; [| discriminate Ho].
  cbn [bind] in Ho.
  exact (unlock_ends digest _ _ _ _ _ Ho).
Qed.

Lemma rep_returns_on_enrolled_length_example :
  exists r p g',
    gen poly_digest libm_table pattern16 8 (NInt 1) (NFloat float_1_0) seed = Ok ((r, p), g') /\
    (rep poly_digest (Some 8) (complement pattern16) (map py_of_entry p) = Ok None \/
     exists v,
       rep poly_digest (Some 8) (complement pattern16) (map py_of_entry p) = Ok (Some v) /\
       v <> "" /\ ends_with "0" v = false).
Proof.
  destruct (gen_pattern16_returns poly_digest libm_table libm_table_example)
    as (r & p & g' & Hg & _).
  exists r, p, g'. split; [exact Hg |].
  apply (rep_returns_on_enrolled_length poly_digest libm_table pattern16 (complement pattern16) 8 (NInt 1)
           (NFloat float_1_0) seed g' r p Hg).
  reflexivity.
Defined.

(** X19: for helper data that [gen] returned with at least one entry,
    [get_size_of_helper_data_bits] returns the number of entries times
    128 bits of nonce, 4 bits for each digit of the first cipher and [k]
    indices of [c] bits, where [c = ceil(log2(n))] is the least width with
    [n <= 2 ^ c]. *)
Theorem helper_data_size
        (digest : string -> string -> N) (lm : Libm) (w : list Z) (k : Z)
        (t delta : pynum)
        (g g' : Rng) (r : string) (e : entry) (rest : list entry) :
  gen digest lm w k t delta g = Ok ((r, e :: rest), g') ->
  exists c,
    get_size_of_helper_data_bits (Z.of_nat (List.length w)) (map py_of_entry (e :: rest))
    = Ok (Z.of_nat (List.length (e :: rest))
          * (128 + 4 * Z.of_nat (String.length (snd (fst e))) + k * c)) /\
    0 <= c /\
    Z.of_nat (List.length w) <= 2 ^ c /\
    2 ^ c < 2 * Z.of_nat (List.length w).
Proof.
  intros Hg.
  pose proof (gen_entries_enrolled digest lm _ _ _ _ _ _ _ _ Hg) as Hall.
  inversion Hall as [|? ? (Hpos & Hn & Hlen & Hnh & Hch & _ & _) _]; subst.
  exists (ceil (log2 (IZR (Z.of_nat (List.length w))))).
  split; [| apply ceil_log2_spec; lia].
  unfold get_size_of_helper_data_bits. cbn [map]. rewrite py_index_head.
  destruct e as [[nonce cipher] ji].
  cbn [bind unpack2 py_of_entry py_of_locker py_of_ints py_len fst snd] in *.
  unfold math_log2.
  replace (Z.of_nat (List.length w) <=? 0) with false by (symmetry; apply Z.leb_gt; lia).
  cbn [bind]. f_equal.
  rewrite !cp_count_ascii by (apply lower_hex_all_ascii; assumption).
  rewrite Hlen, !length_map. destruct Hpos as [Hk _]. rewrite Hk.
  cbn [List.length]. rewrite length_map.
  f_equal. change (Z.of_nat 32 * 4) with 128. lia.
Qed.

Lemma helper_data_size_example :
  exists r e rest g' c,
    gen poly_digest libm_table pattern16 8 (NInt 1) (NFloat float_1_0) seed = Ok ((r, e :: rest), g') /\
    get_size_of_helper_data_bits 16 (map py_of_entry (e :: rest))
    = Ok (32 * (128 + 4 * Z.of_nat (String.length (snd (fst e))) + 8 * c)) /\
    0 <= c /\ 16 <= 2 ^ c /\ 2 ^ c < 32.
Proof.
  destruct (gen_pattern16_returns poly_digest libm_table libm_table_example)
    as (r & p & g' & Hg & Hlen).
  destruct p as [|e rest]; [discriminate Hlen |].
  destruct (helper_data_size poly_digest libm_table pattern16 8 (NInt 1)
           (NFloat float_1_0) seed g' r e rest Hg)
    as (c & Hs & Hc).
  exists r, e, rest, g', c. split; [exact Hg |].
  rewrite Hlen in Hs. split; [exact Hs | exact Hc].
Defined.



(** X26: on arguments that pass the guard, [set_l] raises
    ZeroDivisionError for a [delta] that is zero once the power
    [n ** math.ceil((t * k) / (n * math.log(n)))] is computed, and what
    the computation of the power raises otherwise; and it raises
    OverflowError when the power is an [int] too large for a double and
    [math.log2(4 / delta)] is computed. *)
Theorem set_l_raises (lm : Libm) (n k : Z) (t delta : pynum) :
  2 <= n -> 1 <= k ->
  num_lt t (NInt 1) = false ->
  num_lt delta (NInt 0) = false -> num_lt (NInt 1) delta = false ->
  (delta = NInt 0 \/ (exists s, delta = NFloat (S754_zero s)) ->
   set_l lm n k t delta
   = Raise match set_l_power lm n k t with
           | Ok _ => ZeroDivisionError
           | Raise e => e
           end) /\
  (forall (p : Z) (r lg2 : float),
      set_l_power lm n k t = Ok (NInt p) ->
      int_div_num 4 delta = Ok r ->
      math_log2_float lm r = Ok lg2 ->
      float_of_int p = Raise OverflowError ->
      set_l lm n k t delta = Raise OverflowError).
Proof.
  intros Hn Hk Ht Hd0 Hd1.
  rewrite (set_l_accepted lm n k t delta Hn Hk Ht Hd0 Hd1). split.
  - intros Hd. rewrite (four_div_zero delta Hd).
    destruct (set_l_power lm n k t); reflexivity.
  - intros p r lg2 Ep Er El Hp. rewrite Ep. cbn [bind]. rewrite Er. cbn [bind].
    rewrite El. cbn [bind]. unfold num_mul_float, to_float. now rewrite Hp.
Qed.

(** [set_l(2, 1, 1, 0.0)] and [set_l(2, 64, 32, 1.0)] *)
Lemma set_l_raises_example :
  set_l libm_table 2 1 (NInt 1) (NFloat float_0_0) = Raise ZeroDivisionError /\
  set_l libm_table 2 64 (NInt 32) (NFloat float_1_0) = Raise OverflowError.
Proof.
  split.
  - apply (proj1 (set_l_raises libm_table 2 1 (NInt 1) (NFloat float_0_0)
                    ltac:(lia) ltac:(lia) eq_refl eq_refl eq_refl)).
    right. now exists false.
  - apply (proj2 (set_l_raises libm_table 2 64 (NInt 32) (NFloat float_1_0)
                    ltac:(lia) ltac:(lia) eq_refl eq_refl eq_refl)
             (2 ^ 1478) (float_of_Z 4) (float_of_Z 2)); vm_compute; reflexivity.
Defined.

(** X27: the guard of [set_l] compares the numbers that its arguments
    stand for: for finite doubles [t] and [delta], [set_l] returns [0]
    when [n < 2], [k < 1], [t < 1], [delta < 0] or [delta > 1] as real
    numbers. *)
Theorem set_l_guard_reals (lm : Libm) (n k : Z) (t delta : float) :
  is_finite t = true -> is_finite delta = true ->
  n < 2 \/ k < 1 \/ (float_value t < 1)%R \/ (float_value delta < 0)%R \/
  (1 < float_value delta)%R ->
  set_l lm n k (NFloat t) (NFloat delta) = Ok 0.
Proof.
  intros Ht Hd H. apply set_l_rejected.
  rewrite (num_lt_float_int t 1 Ht), (num_lt_float_int delta 0 Hd),
    (num_lt_int_float 1 delta Hd).
  exact H.
Qed.

(** [set_l(1024, 80, 31.0, 1.5)] *)
Lemma set_l_guard_reals_example :
  set_l libm_table 1024 80 (NFloat (float_of_Z 31)) (NFloat float_1_5) = Ok 0.
Proof.
  apply (set_l_guard_reals libm_table 1024 80 (float_of_Z 31) float_1_5);
    try reflexivity.
  do 4 right.
  replace float_1_5 with (S754_finite false 6755399441055744 (-52))
    by (vm_compute; reflexivity).
  cbn [float_value]. rewrite powerRZ_2_neg by lia.
  change (2 ^ (- -52)) with 4503599627370496. lra.
Defined.

(** X28: the result of [set_l] is the integer part of a double, not of
    the real number.  With a C library that returns the nearest doubles
    for [log(2)] and for [log2(4 / 0.12500000000000003)], which is [5.0],
    [set_l(2, 1, 1, 0.12500000000000003)] is 10, while the real number
    [2 * log2(4 / delta)] is below 10 for this [delta], which is above
    [1 / 8]. *)
Theorem set_l_rounds (lm : Libm) :
  log_of_int lm 2 = ln_2_double ->
  log2_of_float lm (fquot (float_of_Z 4) float_after_eighth) = float_of_Z 5 ->
  set_l lm 2 1 (NInt 1) (NFloat float_after_eighth) = Ok 10 /\
  (1 / 8 < float_value float_after_eighth)%R /\
  (locker_bound 2 1 1 (float_value float_after_eighth) < 10)%R.
Proof.
  intros H2 H5.
  assert (Hv : (1 / 8 < float_value float_after_eighth)%R).
  { unfold float_after_eighth. cbn [float_value]. rewrite powerRZ_2_neg by lia.
    change (2 ^ (- -55)) with 36028797018963968. lra. }
  split; [| split; [exact Hv |]].
  - destruct lm as [li l2 pw]. cbn [log_of_int log2_of_float] in H2, H5.
    rewrite set_l_accepted by (try reflexivity; lia).
    unfold set_l_power, math_log, math_log2_float.
    cbn [log_of_int log2_of_float num_mul_int bind].
    change (2 <=? 0) with false. cbv iota.
    rewrite H2. cbn [bind].
    change (int_mul_float 2 ln_2_double)
      with (Ok (S754_finite false 6243314768165359 (-52))).
    cbn [bind].
    change (num_div_float (NInt (1 * 1)) (S754_finite false 6243314768165359 (-52)))
      with (Ok (S754_finite false 6497320848556798 (-53))).
    cbn [bind].
    change (math_ceil (S754_finite false 6497320848556798 (-53))) with (Ok 1).
    cbn [bind].
    change (int_pow (mkLibm li l2 pw) 2 1) with (Ok (NInt 2)).
    cbn [bind].
    change (int_div_num 4 (NFloat float_after_eighth))
      with (Ok (fquot (float_of_Z 4) float_after_eighth)).
    cbn [bind].
    replace (fquot (float_of_Z 4) float_after_eighth)
      with (S754_finite false 9007199254740990 (-48)) in * by (vm_compute; reflexivity).
    rewrite H5. vm_compute. reflexivity.
  - unfold locker_bound.
    rewrite exponent_one by (try lia; lra).
    rewrite Z.pow_1_r. pose proof ln_2_pos as Hl2.
    assert (Hlt : (ln (4 / float_value float_after_eighth) < ln 32)%R).
    { apply ln_increasing.
      - apply Rdiv_lt_0_compat; lra.
      - apply Rmult_lt_reg_r with (float_value float_after_eighth); [lra |].
        unfold Rdiv. rewrite Rmult_assoc, Rinv_l by lra. lra. }
    rewrite ln_32 in Hlt. unfold log2.
    assert (E : (ln (4 / float_value float_after_eighth) / ln 2 * ln 2
                 = ln (4 / float_value float_after_eighth))%R) by (field; lra).
    assert (Hq : (ln (4 / float_value float_after_eighth) / ln 2 < 5)%R).
    { apply Rmult_lt_reg_r with (ln 2); [exact Hl2 |]. rewrite E. lra. }
    lra.
Qed.

Lemma set_l_rounds_example :
  set_l libm_table 2 1 (NInt 1) (NFloat float_after_eighth) = Ok 10 /\
  (1 / 8 < float_value float_after_eighth)%R /\
  (locker_bound 2 1 1 (float_value float_after_eighth) < 10)%R.
Proof.
  apply (set_l_rounds libm_table); reflexivity.
Defined.

(** ** arduino/serial_monitor.py and the readers of data.txt *)

(** X21: the record that a round of serial_monitor.py writes is read back
    by [[int(x) for x in line.strip()]], as canetti.py and analysis.py
    do, as the bits of the bytes that [strip()] left of the chunk: eight
    for each byte, the most significant first. *)
Theorem monitor_record_parses
        (unicode_space : string -> bool) (unicode_decimal : string -> option Z)
        (chunk record : string) :
  monitor_round chunk = Some record ->
  exists bits,
    parse_line unicode_space unicode_decimal record = Ok bits /\
    bits = flat_map (fun c => byte_bits (byte_val c))
                    (list_ascii_of_string (bytes_strip chunk)) /\
    List.length bits = (8 * String.length (bytes_strip chunk))%nat /\
    is_bits bits.
Proof.
  unfold monitor_round.
  destruct (0 <? Z.of_nat (String.length (bytes_strip chunk))); [| discriminate].
  intros [= <-]. eexists. split; [apply record_parse |]. split; [reflexivity |].
  destruct (flat_map_bits (list_ascii_of_string (bytes_strip chunk))) as [Hl Hb].
  rewrite length_list_ascii in Hl. now split.
Qed.

Lemma monitor_record_parses_example :
  exists record,
    monitor_round "ab" = Some record /\
    parse_line (fun _ => false) (fun _ => None) record
    = Ok [0; 1; 1; 0; 0; 0; 0; 1; 0; 1; 1; 0; 0; 0; 1; 0].
Proof.
  eexists. split; [vm_compute; reflexivity |].
  destruct (monitor_record_parses (fun _ => false) (fun _ => None) "ab" _ eq_refl)
    as (bits & Hp & -> & _).
  exact Hp.
Defined.

(** X22: a round writes nothing exactly when every byte read is ASCII
    white space (0x09..0x0d, 0x20); what it writes is eight binary digits
    for each byte that [strip()] left and a line break, and [strip()]
    leaves every byte exactly when neither the first nor the last byte
    of the chunk is white space: otherwise the reading is shortened. *)
Theorem monitor_round_strips (chunk : string) :
  (monitor_round chunk = None <-> all_bytes_space chunk = true) /\
  (forall record,
      monitor_round chunk = Some record ->
      record = (bin_repr (bytes_strip chunk) ++ newline)%string /\
      all_bin_digits (bin_repr (bytes_strip chunk)) = true /\
      String.length record = (8 * String.length (bytes_strip chunk) + 1)%nat /\
      (0 < String.length (bytes_strip chunk) <= String.length chunk)%nat) /\
  (String.length (bytes_strip chunk) = String.length chunk <->
   match chunk, last_byte chunk with
   | String c _, Some d => is_space c = false /\ is_space d = false
   | _, _ => True
   end).
Proof.
  split; [| split; [| apply bytes_strip_same]].
  - rewrite <- bytes_strip_empty. unfold monitor_round.
    destruct (bytes_strip chunk) as [|c r]; [simpl; tauto |].
    cbn [String.length].
    replace (0 <? Z.of_nat (S (String.length r))) with true
      by (symmetry; apply Z.ltb_lt; lia).
    split; discriminate.
  - intros record. unfold monitor_round.
    destruct (0 <? Z.of_nat (String.length (bytes_strip chunk))) eqn:E; [| discriminate].
    apply Z.ltb_lt in E. intros [= <-].
    destruct (bin_repr_digits (bytes_strip chunk)) as [Hd Hl].
    pose proof (bytes_strip_length chunk).
    split; [reflexivity |]. split; [exact Hd |].
    rewrite length_append, Hl. split; [simpl; lia | lia].
Qed.

(** A chunk that starts with a tab. *)
Lemma monitor_round_strips_example :
  monitor_round (String (ascii_of_N 9) "ab") = Some (bin_repr "ab" ++ newline)%string /\
  String.length (bin_repr "ab" ++ newline) = 17%nat.
Proof.
  destruct (monitor_round_strips (String (ascii_of_N 9) "ab")) as (_ & H & _).
  destruct (H (bin_repr "ab" ++ newline)%string eq_refl) as (_ & _ & Hl & _).
  split; [reflexivity | exact Hl].
Defined.

(** ** arduino/analysis.py *)

(** X23: on an empty list of lines the computation of [unstable_bits]
    raises IndexError; on lines of 0/1 items it cuts them to the
    shortest length [m] and returns exactly the positions below [m] at
    which two lines differ. *)
Theorem unstable_bits_spec (lines : list (list Z)) :
  unstable_bits [] = Raise IndexError /\
  (lines <> [] -> Forall is_bits lines ->
   exists m u,
     min_len lines = Ok m /\
     Forall (fun line => m <= Z.of_nat (List.length line)) lines /\
     Exists (fun line => m = Z.of_nat (List.length line)) lines /\
     unstable_bits lines = Ok u /\
     forall i,
       In i u <->
       0 <= i < m /\
       exists a b, In a lines /\ In b lines /\
                   nth (Z.to_nat i) a 0 <> nth (Z.to_nat i) b 0).
Proof.
  split; [reflexivity |].
  intros Hne Hbits. destruct lines as [|l0 rest]; [congruence |].
  destruct (min_len_spec l0 rest) as (m & Hmin & Hm0 & Hall & Hex).
  exists m. unfold unstable_bits. rewrite Hmin. cbn [bind map].
  rewrite py_index_head. cbn [bind].
  set (lines := l0 :: rest) in *.
  change (py_slice_to m l0 :: map (py_slice_to m) rest) with (map (py_slice_to m) lines).
  assert (Hl0 : List.length (py_slice_to m l0) = Z.to_nat m).
  { unfold py_slice_to. apply firstn_length_le.
    inversion Hall as [|? ? H0 _]; subst. lia. }
  assert (Hlens : Forall (fun line => List.length line = Z.to_nat m)
                         (map (py_slice_to m) lines)).
  { apply Forall_map. eapply Forall_impl; [| exact Hall]. cbn beta. intros line Hline.
    unfold py_slice_to. apply firstn_length_le. lia. }
  destruct (sum_lines_spec (Z.to_nat m) _ Hlens (repeat 0 (List.length (py_slice_to m l0))))
    as (s & Hsum & Hlen & Hnth); [rewrite repeat_length; exact Hl0 |].
  rewrite Hsum. cbn [bind]. eexists. split; [reflexivity |].
  split; [exact Hall |]. split; [exact Hex |]. split; [reflexivity |].
  intros i. rewrite unstable_from_spec. rewrite length_map.
  unfold changes at 1. rewrite length_map, Hlen.
  assert (Hcol : forall p, (p < Z.to_nat m)%nat ->
                 nth p s 0 = zsum (column p lines)).
  { intros p Hp. rewrite Hnth, nth_repeat, column_slices by exact Hp. lia. }
  split.
  - intros (p & Hp & -> & Hn0 & _).
    rewrite nth_changes, (Hcol p Hp) in Hn0.
    split; [lia |]. rewrite Z.add_0_l, Nat2Z.id.
    apply column_mixed; [exact Hbits |].
    pose proof (column_bits p lines Hbits) as Hcb.
    destruct (zsum (column p lines) =? Z.of_nat (List.length lines)) eqn:Ec;
      [cbn [orb] in Hn0; congruence |].
    destruct (zsum (column p lines) =? 0) eqn:E0; [cbn [orb] in Hn0; congruence |].
    apply Z.eqb_neq in Ec, E0. split.
    + apply zsum_bits_zero; [exact Hcb |]. now rewrite length_column.
    + now apply zsum_bits_one.
  - intros (Hi & Hab). exists (Z.to_nat i).
    assert (Hp : (Z.to_nat i < Z.to_nat m)%nat) by lia.
    split; [exact Hp |]. split; [lia |].
    rewrite nth_changes, (Hcol _ Hp).
    apply column_mixed in Hab as [H0 H1]; [| exact Hbits].
    pose proof (column_bits (Z.to_nat i) lines Hbits) as Hcb.
    pose proof (zsum_bits_bounds _ Hcb) as Hb.
    apply zsum_bits_zero in H0; [| exact Hcb]. apply zsum_bits_one in H1; [| exact Hcb].
    rewrite length_column in H0, Hb.
    replace (zsum (column (Z.to_nat i) lines) =? Z.of_nat (List.length lines)) with false
      by (symmetry; now apply Z.eqb_neq).
    replace (zsum (column (Z.to_nat i) lines) =? 0) with false
      by (symmetry; now apply Z.eqb_neq).
    cbn [orb]. split; [discriminate | lia].
Qed.

Lemma unstable_bits_spec_example :
  exists u,
    unstable_bits [[0; 1; 1; 0; 1]; [0; 1; 0; 0]; [0; 1; 1; 1]] = Ok u /\
    (In 2 u <-> 0 <= 2 < 4 /\
                exists a b, In a [[0; 1; 1; 0; 1]; [0; 1; 0; 0]; [0; 1; 1; 1]] /\
                            In b [[0; 1; 1; 0; 1]; [0; 1; 0; 0]; [0; 1; 1; 1]] /\
                            nth (Z.to_nat 2) a 0 <> nth (Z.to_nat 2) b 0).
Proof.
  destruct (unstable_bits_spec [[0; 1; 1; 0; 1]; [0; 1; 0; 0]; [0; 1; 1; 1]]) as [_ H].
  destruct H as (m & u & Hm & _ & _ & Hu & Hin);
    [discriminate | repeat (constructor; [solve_is_bits |]); constructor |].
  vm_compute in Hm. injection Hm as <-. exists u. split; [exact Hu |]. apply (Hin 2).
Defined.

(** X24: whatever chunks the monitor read, the records it wrote parse as
    lines of 0/1 items, each of a positive multiple of 8 items; and when
    a record was written the analysis computes [unstable_bits] on them
    after cutting them to a shortest length of at least 8. *)
Theorem monitor_records_analysed
        (unicode_space : string -> bool) (unicode_decimal : string -> option Z)
        (chunks : list string) :
  exists lines,
    parse_lines unicode_space unicode_decimal (monitor_records chunks) = Ok lines /\
    Forall is_bits lines /\
    Forall (fun line => exists n, (0 < n)%nat /\ List.length line = (8 * n)%nat) lines /\
    (Exists (fun chunk => all_bytes_space chunk = false) chunks ->
     exists m u, min_len lines = Ok m /\ 8 <= m /\ unstable_bits lines = Ok u).
Proof.
  assert (Hparse : exists lines,
    parse_lines unicode_space unicode_decimal (monitor_records chunks) = Ok lines /\
    Forall is_bits lines /\
    Forall (fun line => exists n, (0 < n)%nat /\ List.length line = (8 * n)%nat) lines /\
    (Exists (fun chunk => all_bytes_space chunk = false) chunks -> lines <> [])).
  { unfold parse_lines. induction chunks as [|chunk chunks IH].
    - exists []. split; [reflexivity |]. split; [constructor |]. split; [constructor |].
      intros H. inversion H.
    - destruct IH as (lines & Hp & Hb & Hl & Hne).
      cbn [monitor_records flat_map]. fold (monitor_records chunks).
      destruct (monitor_round chunk) as [record|] eqn:Er.
      + pose proof Er as Er'. unfold monitor_round in Er'.
        destruct (0 <? Z.of_nat (String.length (bytes_strip chunk))) eqn:E;
          [| discriminate Er'].
        apply Z.ltb_lt in E. injection Er' as <-.
        cbn [List.app mapM]. rewrite record_parse, Hp. cbn [bind].
        destruct (flat_map_bits (list_ascii_of_string (bytes_strip chunk))) as [Hfl Hfb].
        rewrite length_list_ascii in Hfl.
        eexists. split; [reflexivity |]. split; [now constructor |]. split.
        * constructor; [| exact Hl].
          exists (String.length (bytes_strip chunk)). split; [lia | exact Hfl].
        * intros _. discriminate.
      + cbn [List.app]. exists lines. split; [exact Hp |]. split; [exact Hb |].
        split; [exact Hl |].
        intros H. apply Hne. inversion H as [? ? Hc | ? ? Hc]; subst; [| exact Hc].
        assert (Hs : all_bytes_space chunk = true).
        { apply bytes_strip_empty. unfold monitor_round in Er.
          destruct (bytes_strip chunk) as [|c r]; [reflexivity |].
          cbn [String.length] in Er.
          replace (0 <? Z.of_nat (S (String.length r))) with true in Er
            by (symmetry; apply Z.ltb_lt; lia).
          discriminate Er. }
        congruence. }
  destruct Hparse as (lines & Hp & Hb & Hl & Hne).
  exists lines. split; [exact Hp |]. split; [exact Hb |]. split; [exact Hl |].
  intros Hex.
  destruct (unstable_bits_returns lines (Hne Hex)) as (m & u & Hm & Hall & Hu).
  exists m, u. split; [exact Hm |]. split; [| exact Hu].
  destruct lines as [|l0 rest]; [now specialize (Hne Hex) |].
  destruct (min_len_spec l0 rest) as (m' & Hm' & _ & _ & Hexm).
  rewrite Hm in Hm'. injection Hm' as <-.
  apply Exists_exists in Hexm as (line & Hin & ->).
  rewrite Forall_forall in Hl. destruct (Hl line Hin) as (n & Hn & ->). lia.
Qed.

(** Three chunks, one of them of white space only. *)
Lemma monitor_records_analysed_example :
  exists lines m u,
    parse_lines (fun _ => false) (fun _ => None)
                (monitor_records ["ab"; String (ascii_of_N 9) " "; "cb"]) = Ok lines /\
    min_len lines = Ok m /\ 8 <= m /\ unstable_bits lines = Ok u.
Proof.
  destruct (monitor_records_analysed (fun _ => false) (fun _ => None)
              ["ab"; String (ascii_of_N 9) " "; "cb"]) as (lines & Hp & _ & _ & H).
  destruct H as (m & u & Hm & H8 & Hu); [constructor; reflexivity |].
  now exists lines, m, u.
Defined.

